(** * Viveno creative studio: prompt builders, polling, persistence and library

    A shallow embedding of the TypeScript sources of the creative-studio
    front end (the service wrappers of [services/geminiService.ts], the
    [App] component, [VideoGenerator] and [Library]) together with the
    properties stated about them.

    JavaScript strings are sequences of UTF-16 code units; they are modelled
    as [list N].  Objects whose shape matters are association lists from
    property names to values, in insertion order. *)

From Stdlib Require Import ZArith NArith List String Ascii Bool Lia DecimalString.
From Stdlib Require DecimalPos DecimalZ.
From stdpp Require Import base option list gmap.
Import ListNotations.

Local Open Scope N_scope.

(** ** JavaScript strings *)

Module JS.

(** A string is its sequence of UTF-16 code units. *)
Abbreviation str := (list N).

(** Source literals are all ASCII: one code unit per character. *)
Definition lit (s : string) : str :=
  List.map N_of_ascii (list_ascii_of_string s).

(** ECMAScript [WhiteSpace] and [LineTerminator] code points: what
    [String.prototype.trim] strips and what the regular expression class
    [\s] matches. *)
Definition is_space (c : N) : bool :=
  (c =? 9) || (c =? 10) || (c =? 11) || (c =? 12) || (c =? 13) || (c =? 32)
  || (c =? 160) || (c =? 5760) || ((8192 <=? c) && (c <=? 8202))
  || (c =? 8232) || (c =? 8233) || (c =? 8239) || (c =? 8287)
  || (c =? 12288) || (c =? 65279).

Definition SP : N := 32.

Fixpoint trimStart (s : str) : str :=
  match s with
  | [] => []
  | c :: s' => if is_space c then trimStart s' else s
  end.

Definition trimEnd (s : str) : str := rev (trimStart (rev s)).

(** [s.trim()] *)
Definition trim (s : str) : str := trimEnd (trimStart s).

(** [s.replace(/\s+/g, ' ')]: every maximal run of white space becomes one
    space.  [in_run] tells whether the previous code unit was white space. *)
Fixpoint collapse_from (in_run : bool) (s : str) : str :=
  match s with
  | [] => []
  | c :: s' =>
      if is_space c
      then (if in_run then collapse_from true s' else SP :: collapse_from true s')
      else c :: collapse_from false s'
  end.

Definition collapse (s : str) : str := collapse_from false s.

(** [s.replace(c, r)] with a one-character string pattern: only the first
    occurrence is replaced. *)
Fixpoint replace_first (c : N) (r : str) (s : str) : str :=
  match s with
  | [] => []
  | x :: s' => if x =? c then r ++ s' else x :: replace_first c r s'
  end.

(** [parts.join(sep)] *)
Fixpoint join (sep : str) (parts : list str) : str :=
  match parts with
  | [] => []
  | [p] => p
  | p :: ps => p ++ sep ++ join sep ps
  end.

(** Truthiness of a string: non-empty. *)
Definition truthy (s : str) : bool :=
  match s with [] => false | _ => true end.

Definition str_eqb (a b : str) : bool := bool_decide (a = b).

(** [a] occurs in [b] as a contiguous substring. *)
Definition infix (a b : str) : Prop := exists u v, b = u ++ a ++ v.

Definition first_char (s : str) : option N := head s.
Definition last_char (s : str) : option N := last s.

(** No two adjacent white-space code units, and every white-space code unit
    is a plain space. *)
Fixpoint single_spaced (s : str) : Prop :=
  match s with
  | [] => True
  | c :: s' =>
      (is_space c = true -> c = SP /\
         match s' with [] => True | d :: _ => is_space d = false end)
      /\ single_spaced s'
  end.

Definition starts_nonspace (s : str) : Prop :=
  exists c s', s = c :: s' /\ is_space c = false.

Definition ends_nonspace (s : str) : Prop :=
  exists s' c, s = s' ++ [c] /\ is_space c = false.

(** Neither the first nor the last code unit is white space. *)
Definition trimmed (s : str) : Prop :=
  (forall c, first_char s = Some c -> is_space c = false) /\
  (forall c, last_char s = Some c -> is_space c = false).

End JS.

Import JS.

(** ** The configuration enumerations of [types.ts] *)

Inductive Language := english | kinyarwanda.
Inductive AspectRatio := ar_1_1 | ar_16_9 | ar_9_16 | ar_4_3 | ar_3_4.
Inductive VideoFPS := fps24 | fps30 | fps60.
Inductive VideoStyle :=
  vs_none | vs_cinematic | vs_animated | vs_hyperrealistic | vs_vintage.
Inductive AudioMood :=
  am_none | am_epic | am_ambient | am_lofi | am_cinematic_tension.
Inductive VideoDuration :=
  d_short | d_medium | d_long | d_one_minute | d_three_minute.
Inductive CameraMovement :=
  cm_none | cm_pan | cm_zoom_in | cm_zoom_out | cm_drone_shot | cm_static.
Inductive VideoQuality := q_standard | q_high.
Inductive VideoFraming := fr_none | fr_close_up | fr_medium_shot | fr_long_shot.
Inductive AIPersona :=
  p_none | p_photographer | p_illustrator | p_cinematographer | p_vfx_artist
| p_concept_artist | p_wildlife_photographer | p_sci_fi_artist
| p_food_photographer | p_architectural_designer.
Inductive Intensity := subtle | balanced | strong.
Inductive SubscriptionTier := free | silver | golden | diamond.

(** The string each enumeration member is at run time. *)
Definition AspectRatio_str (a : AspectRatio) : str :=
  match a with
  | ar_1_1 => lit "1:1" | ar_16_9 => lit "16:9" | ar_9_16 => lit "9:16"
  | ar_4_3 => lit "4:3" | ar_3_4 => lit "3:4"
  end.

(** [VideoFPS] is a number; this is its decimal rendering in a template. *)
Definition VideoFPS_str (f : VideoFPS) : str :=
  match f with fps24 => lit "24" | fps30 => lit "30" | fps60 => lit "60" end.

Definition VideoStyle_str (s : VideoStyle) : str :=
  match s with
  | vs_none => lit "none" | vs_cinematic => lit "cinematic"
  | vs_animated => lit "animated" | vs_hyperrealistic => lit "hyperrealistic"
  | vs_vintage => lit "vintage"
  end.

Definition AudioMood_str (m : AudioMood) : str :=
  match m with
  | am_none => lit "none" | am_epic => lit "epic" | am_ambient => lit "ambient"
  | am_lofi => lit "lofi" | am_cinematic_tension => lit "cinematic-tension"
  end.

Definition CameraMovement_str (c : CameraMovement) : str :=
  match c with
  | cm_none => lit "none" | cm_pan => lit "pan" | cm_zoom_in => lit "zoom-in"
  | cm_zoom_out => lit "zoom-out" | cm_drone_shot => lit "drone-shot"
  | cm_static => lit "static"
  end.

Definition VideoFraming_str (f : VideoFraming) : str :=
  match f with
  | fr_none => lit "none" | fr_close_up => lit "close-up"
  | fr_medium_shot => lit "medium-shot" | fr_long_shot => lit "long-shot"
  end.

Definition SubscriptionTier_str (t : SubscriptionTier) : str :=
  match t with
  | free => lit "free" | silver => lit "silver"
  | golden => lit "golden" | diamond => lit "diamond"
  end.

(** ** [services/geminiService.ts]: the prompt builders *)

Module Service.

Definition HYPHEN : N := 45.
Definition DQUOTE : N := 34.

Definition personaInstructions (p : AIPersona) : str :=
  match p with
  | p_none => lit "As a versatile master artist,"
  | p_photographer =>
      lit "As a world-renowned photographer known for capturing stunning detail and emotion,"
  | p_illustrator =>
      lit "As a master illustrator with a distinct and creative style,"
  | p_cinematographer => lit "As a world-class cinematographer and VFX artist,"
  | p_vfx_artist =>
      lit "As a senior VFX artist specializing in photorealistic effects and compositing,"
  | p_concept_artist =>
      lit "As a visionary concept artist for AAA video games and blockbuster films,"
  | p_wildlife_photographer =>
      lit "As a National Geographic wildlife photographer on assignment,"
  | p_sci_fi_artist =>
      lit "As a legendary sci-fi concept artist envisioning futuristic worlds,"
  | p_food_photographer =>
      lit "As a world-class food photographer creating delicious, mouth-watering imagery,"
  | p_architectural_designer =>
      lit "As a leading architectural designer known for innovative and beautiful structures,"
  end.

Definition intensityMap (i : Intensity) : str :=
  match i with
  | subtle => lit "with a subtle hint of the specified style."
  | balanced =>
      lit "with a balanced and clear representation of the specified style."
  | strong =>
      lit "with an extremely strong, dominant, and stylized representation of the specified style."
  end.

(** The three optional sentences of the image prompt. *)
Definition image_languageInstruction (language : Language) : str :=
  match language with
  | kinyarwanda =>
      lit "The user is providing the prompt in Kinyarwanda; interpret it accordingly."
  | english => []
  end.

Definition image_styleInstruction (style : str) (styleIntensity : Intensity) : str :=
  if negb (str_eqb style (lit "none"))
  then lit "Style: " ++ replace_first HYPHEN [SP] style
       ++ lit ". Style Intensity: " ++ intensityMap styleIntensity
  else [].

Definition image_negativeInstruction (negativePrompt : str) : str :=
  if truthy negativePrompt
  then lit "Avoid the following: " ++ negativePrompt ++ lit "."
  else [].

(** [`"${p}"`] *)
Definition quoted (p : str) : str := DQUOTE :: p ++ [DQUOTE].

Definition image_mainPrompt (prompts : list str) : str :=
  if (1 <? List.length prompts)%nat
  then lit "expertly blend the following distinct concepts into a single, cohesive, and beautiful image: "
       ++ join (lit " and ") (List.map quoted prompts) ++ lit "."
  else lit "create the following image: "
       ++ nth 0 prompts (lit "undefined") ++ lit ".".

Definition constructImagePrompt (prompts : list str) (style : str)
    (negativePrompt : str) (language : Language) (persona : AIPersona)
    (styleIntensity : Intensity) : str :=
  let languageInstruction := image_languageInstruction language in
  let styleInstruction := image_styleInstruction style styleIntensity in
  let negativeInstruction := image_negativeInstruction negativePrompt in
  let mainPrompt := image_mainPrompt prompts in
  let finalPrompt :=
    personaInstructions persona ++ [SP] ++ mainPrompt ++ [SP]
    ++ languageInstruction ++ [SP] ++ styleInstruction ++ [SP]
    ++ negativeInstruction in
  trim finalPrompt.

(** *** The video prompt *)

Definition video_languageInstruction (language : Language) : str :=
  match language with
  | kinyarwanda =>
      lit "The user is providing the prompt in Kinyarwanda; interpret it as a creative instruction for the scene."
  | english => []
  end.

Definition video_styleInstruction (style : VideoStyle) : str :=
  match style with
  | vs_none => []
  | _ => lit "Visual Style: " ++ VideoStyle_str style ++ lit "."
  end.

Definition video_negativeInstruction (negativePrompt : str) : str :=
  if truthy negativePrompt
  then lit "Crucially, avoid the following elements: " ++ negativePrompt ++ lit "."
  else [].

Definition durationMap (d : VideoDuration) : str :=
  match d with
  | d_short => lit "a short clip, approximately 5-8 seconds long."
  | d_medium => lit "a medium-length clip, approximately 15 seconds long."
  | d_long => lit "a long clip, aiming for 30 seconds."
  | d_one_minute => lit "a one-minute long cinematic scene."
  | d_three_minute =>
      lit "a detailed, three-minute long epic scene. This is a goal, the final length may vary."
  end.

Definition durationInstruction (d : VideoDuration) : str :=
  lit "Duration Goal: " ++ durationMap d ++ lit ".".

Definition motionIntensityMap (i : Intensity) : str :=
  match i with
  | subtle => lit "subtle and slow"
  | balanced => lit "clear and moderately paced"
  | strong => lit "dynamic and fast-paced"
  end.

Definition cameraInstruction (cameraMovement : CameraMovement)
    (motionIntensity : Intensity) : str :=
  match cameraMovement with
  | cm_none => []
  | _ => lit "Camera Movement: A " ++ motionIntensityMap motionIntensity ++ [SP]
         ++ replace_first HYPHEN [SP] (CameraMovement_str cameraMovement)
         ++ lit "."
  end.

Definition framingInstruction (framing : VideoFraming) : str :=
  match framing with
  | fr_none => []
  | _ => lit "Shot Framing: Use a "
         ++ replace_first HYPHEN [SP] (VideoFraming_str framing) ++ lit "."
  end.

Definition qualityInstruction (quality : VideoQuality) : str :=
  match quality with
  | q_high =>
      lit "Output Quality: Aim for 8K resolution, ultra-high fidelity, with photorealistic rendering and professional color grading."
  | q_standard => []
  end.

Definition loopInstruction (loop : bool) : str :=
  if loop then lit "The video must be a perfect, seamless loop." else [].

Definition aspectInstruction (aspectRatio : AspectRatio) : str :=
  lit "Aspect Ratio: The final video must be in "
  ++ AspectRatio_str aspectRatio ++ lit " format.".

Definition fpsInstruction (fps : VideoFPS) : str :=
  lit "Frame Rate: The video must be rendered at "
  ++ VideoFPS_str fps ++ lit " frames per second.".

Definition audioInstruction (audioMood : AudioMood) : str :=
  match audioMood with
  | am_none => []
  | _ => lit "The overall mood of the scene should be appropriate for a soundtrack that is "
         ++ replace_first HYPHEN [SP] (AudioMood_str audioMood) ++ lit "."
  end.

(** The line break and indentation between two lines of the template
    literal: a line feed and four spaces. *)
Definition NL : str := 10 :: lit "    ".

Definition constructVideoPrompt (prompt : str) (style : VideoStyle)
    (negativePrompt : str) (duration : VideoDuration)
    (cameraMovement : CameraMovement) (quality : VideoQuality)
    (language : Language) (framing : VideoFraming) (persona : AIPersona)
    (loop : bool) (aspectRatio : AspectRatio) (fps : VideoFPS)
    (motionIntensity : Intensity) (audioMood : AudioMood) : str :=
  let finalPrompt :=
    personaInstructions persona
    ++ lit " create a video based on this scene: " ++ quoted prompt
    ++ lit ". " ++ NL
    ++ video_languageInstruction language ++ NL
    ++ video_styleInstruction style ++ [SP] ++ NL
    ++ cameraInstruction cameraMovement motionIntensity ++ NL
    ++ framingInstruction framing ++ NL
    ++ durationInstruction duration ++ NL
    ++ qualityInstruction quality ++ NL
    ++ aspectInstruction aspectRatio ++ NL
    ++ fpsInstruction fps ++ NL
    ++ audioInstruction audioMood ++ NL
    ++ video_negativeInstruction negativePrompt ++ NL
    ++ loopInstruction loop in
  trim (collapse finalPrompt).

End Service.

Import Service.

(** ** Reference forms of the prompt builders

    What the two builders are said to return, written without [trim] and
    without the regular expression: the fixed head followed by the optional
    sentences that are present, each after one separating space. *)

Module PromptSpec.

(** White-space collapsing that emits the separating space only when a
    further non-space code unit follows. *)
Fixpoint collapse_lazy (pending : bool) (s : str) : str :=
  match s with
  | [] => []
  | c :: s' =>
      if is_space c then collapse_lazy true s'
      else (if pending then [SP] else []) ++ c :: collapse_lazy false s'
  end.

(** Whether the scanner is inside a white-space run after reading [s]. *)
Definition run_after (p : bool) (s : str) : bool :=
  match last s with None => p | Some c => is_space c end.

(** The space a pending run still owes. *)
Definition pend (p : bool) : str := if p then [SP] else [].

Definition all_empty (parts : list str) : bool :=
  forallb (fun p => negb (truthy p)) parts.

(** Every slot up to the last non-empty one, each after one space (empty
    slots in between leave their separating space behind). *)
Fixpoint sep_tail (parts : list str) : str :=
  match parts with
  | [] => []
  | p :: ps => if all_empty parts then [] else [SP] ++ p ++ sep_tail ps
  end.

(** Every string of the list after one space. *)
Definition spaced_all (parts : list str) : str :=
  concat (List.map (fun p => [SP] ++ p) parts).

(** The non-empty slots, each after one space. *)
Definition spaced (parts : list str) : str :=
  spaced_all (List.filter truthy parts).

(** A template body: each slot after the white space that precedes it. *)
Definition template (items : list (str * str)) : str :=
  concat (List.map (fun it => fst it ++ snd it) items).

Definition slot_okb (s : str) : bool :=
  match s with
  | [] => true
  | c :: _ =>
      negb (is_space c)
      && match last s with Some d => negb (is_space d) | None => false end
  end.

Definition slot_ok (s : str) : Prop :=
  s = [] \/ (starts_nonspace s /\ ends_nonspace s).

(** The singleton of a non-empty string, nothing for the empty one. *)
Definition opt (s : str) : list str := if truthy s then [s] else [].

(** *** The sentences of the video prompt, as the claim words them *)

Definition kinyarwandaSentence : str :=
  lit "The user is providing the prompt in Kinyarwanda; interpret it as a creative instruction for the scene.".

Definition styleSentence (style : VideoStyle) : str :=
  lit "Visual Style: " ++ VideoStyle_str style ++ lit ".".

(** The words for the pace of the camera. *)
Definition motionWords (motionIntensity : Intensity) : str :=
  match motionIntensity with
  | subtle => lit "subtle and slow"
  | balanced => lit "clear and moderately paced"
  | strong => lit "dynamic and fast-paced"
  end.

Definition cameraSentence (cameraMovement : CameraMovement)
    (motionIntensity : Intensity) : str :=
  lit "Camera Movement: A " ++ motionWords motionIntensity ++ [SP]
  ++ replace_first HYPHEN [SP] (CameraMovement_str cameraMovement) ++ lit ".".

Definition framingSentence (framing : VideoFraming) : str :=
  lit "Shot Framing: Use a "
  ++ replace_first HYPHEN [SP] (VideoFraming_str framing) ++ lit ".".

Definition qualitySentence : str :=
  lit "Output Quality: Aim for 8K resolution, ultra-high fidelity, with photorealistic rendering and professional color grading.".

Definition audioSentence (audioMood : AudioMood) : str :=
  lit "The overall mood of the scene should be appropriate for a soundtrack that is "
  ++ replace_first HYPHEN [SP] (AudioMood_str audioMood) ++ lit ".".

Definition avoidSentence (negativePrompt : str) : str :=
  lit "Crucially, avoid the following elements: " ++ negativePrompt ++ lit ".".

Definition loopSentence : str :=
  lit "The video must be a perfect, seamless loop.".

(** The duration-goal sentence of each duration, letter by letter.  The
    text of a duration ends with a full stop and the sentence adds its own,
    so each sentence ends with two. *)
Definition durationSentence (duration : VideoDuration) : str :=
  match duration with
  | d_short =>
      lit "Duration Goal: a short clip, approximately 5-8 seconds long.."
  | d_medium =>
      lit "Duration Goal: a medium-length clip, approximately 15 seconds long.."
  | d_long => lit "Duration Goal: a long clip, aiming for 30 seconds.."
  | d_one_minute => lit "Duration Goal: a one-minute long cinematic scene.."
  | d_three_minute =>
      lit "Duration Goal: a detailed, three-minute long epic scene. This is a goal, the final length may vary.."
  end.

(** The aspect-ratio sentence of each ratio. *)
Definition aspectSentence (aspectRatio : AspectRatio) : str :=
  match aspectRatio with
  | ar_1_1 => lit "Aspect Ratio: The final video must be in 1:1 format."
  | ar_16_9 => lit "Aspect Ratio: The final video must be in 16:9 format."
  | ar_9_16 => lit "Aspect Ratio: The final video must be in 9:16 format."
  | ar_4_3 => lit "Aspect Ratio: The final video must be in 4:3 format."
  | ar_3_4 => lit "Aspect Ratio: The final video must be in 3:4 format."
  end.

(** The frame-rate sentence of each rate. *)
Definition fpsSentence (fps : VideoFPS) : str :=
  match fps with
  | fps24 =>
      lit "Frame Rate: The video must be rendered at 24 frames per second."
  | fps30 =>
      lit "Frame Rate: The video must be rendered at 30 frames per second."
  | fps60 =>
      lit "Frame Rate: The video must be rendered at 60 frames per second."
  end.

(** The sentences present in the prompt, in order: the duration, aspect
    ratio and frame rate sentences always, the others under their
    condition. *)
Definition video_sentences (style : VideoStyle) (negativePrompt : str)
    (duration : VideoDuration) (cameraMovement : CameraMovement)
    (quality : VideoQuality) (language : Language) (framing : VideoFraming)
    (loop : bool) (aspectRatio : AspectRatio) (fps : VideoFPS)
    (motionIntensity : Intensity) (audioMood : AudioMood) : list str :=
  match language with kinyarwanda => [kinyarwandaSentence] | english => [] end
  ++ match style with vs_none => [] | _ => [styleSentence style] end
  ++ match cameraMovement with
     | cm_none => []
     | _ => [cameraSentence cameraMovement motionIntensity]
     end
  ++ match framing with fr_none => [] | _ => [framingSentence framing] end
  ++ [durationSentence duration]
  ++ match quality with q_high => [qualitySentence] | q_standard => [] end
  ++ [aspectSentence aspectRatio]
  ++ [fpsSentence fps]
  ++ match audioMood with am_none => [] | _ => [audioSentence audioMood] end
  ++ match negativePrompt with
     | [] => []
     | _ => [collapse (avoidSentence negativePrompt)]
     end
  ++ (if loop then [loopSentence] else []).

(** The fixed opening of the video prompt. *)
Definition video_head (persona : AIPersona) (prompt : str) : str :=
  personaInstructions persona ++ lit " create a video based on this scene: "
  ++ quoted (collapse prompt) ++ lit ".".

End PromptSpec.

(** ** JavaScript values, objects and JSON *)

Module JSON.

(** The values that occur in the application state and in JSON text.  A
    number is kept as its decimal literal; no claim computes with one. *)
#[local] Unset Elimination Schemes.
Inductive JsValue :=
| VUndefined
| VNull
| VBool (b : bool)
| VNum (literal : str)
| VStr (s : str)
| VArr (items : list JsValue)
| VObj (fields : list (str * JsValue)).
#[local] Set Elimination Schemes.

(** An object: its own properties in insertion order, names unique. *)
Abbreviation JsObj := (list (str * JsValue)).

(** [o.k]: the property value, [undefined] when absent. *)
Fixpoint obj_get (k : str) (o : JsObj) : JsValue :=
  match o with
  | [] => VUndefined
  | (k', v) :: o' => if str_eqb k k' then v else obj_get k o'
  end.

Fixpoint obj_has (k : str) (o : JsObj) : bool :=
  match o with
  | [] => false
  | (k', _) :: o' => str_eqb k k' || obj_has k o'
  end.

(** [o.k = v]: an existing property keeps its place, a new one goes last. *)
Fixpoint obj_set (k : str) (v : JsValue) (o : JsObj) : JsObj :=
  match o with
  | [] => [(k, v)]
  | (k', v') :: o' =>
      if str_eqb k k' then (k', v) :: o' else (k', v') :: obj_set k v o'
  end.

(** [a === s] for a string [s]. *)
Definition strict_eq_str (a : JsValue) (s : str) : bool :=
  match a with VStr x => str_eqb x s | _ => false end.

(** *** [JSON.stringify] *)

Definition hex_digit (d : N) : N := if d <? 10 then 48 + d else 87 + d.

(** [\uXXXX], lower-case hexadecimal. *)
Definition unicode_escape (c : N) : str :=
  [92; 117; hex_digit (c / 4096 mod 16); hex_digit (c / 256 mod 16);
   hex_digit (c / 16 mod 16); hex_digit (c mod 16)].

Definition is_high_surrogate (c : N) : bool := (55296 <=? c) && (c <=? 56319).
Definition is_low_surrogate (c : N) : bool := (56320 <=? c) && (c <=? 57343).

(** The body of [QuoteJSONString]; [after_high] tells that the previous code
    unit was a high surrogate that pairs with this one. *)
Fixpoint quote_body (after_high : bool) (s : str) : str :=
  match s with
  | [] => []
  | c :: s' =>
      if c =? 8 then lit "\b" ++ quote_body false s'
      else if c =? 9 then lit "\t" ++ quote_body false s'
      else if c =? 10 then lit "\n" ++ quote_body false s'
      else if c =? 12 then lit "\f" ++ quote_body false s'
      else if c =? 13 then lit "\r" ++ quote_body false s'
      else if c =? 34 then [92; 34] ++ quote_body false s'
      else if c =? 92 then [92; 92] ++ quote_body false s'
      else if c <? 32 then unicode_escape c ++ quote_body false s'
      else if is_high_surrogate c then
        match s' with
        | d :: _ =>
            if is_low_surrogate d then c :: quote_body true s'
            else unicode_escape c ++ quote_body false s'
        | [] => unicode_escape c
        end
      else if is_low_surrogate c then
        (if after_high then [c] else unicode_escape c) ++ quote_body false s'
      else c :: quote_body false s'
  end.

Definition quote (s : str) : str := [34] ++ quote_body false s ++ [34].

(** [JSON.stringify(v)]; [None] is the [undefined] it returns for
    [undefined]. *)
Fixpoint stringify (v : JsValue) : option str :=
  match v with
  | VUndefined => None
  | VNull => Some (lit "null")
  | VBool true => Some (lit "true")
  | VBool false => Some (lit "false")
  | VNum l => Some l
  | VStr s => Some (quote s)
  | VArr items =>
      Some (lit "[" ++
            join (lit ",")
              (List.map (fun x => match stringify x with
                                  | Some t => t
                                  | None => lit "null"
                                  end) items)
            ++ lit "]")
  | VObj fields =>
      Some (lit "{" ++
            join (lit ",")
              (List.flat_map
                 (fun f => match stringify (snd f) with
                           | Some t => [quote (fst f) ++ lit ":" ++ t]
                           | None => []
                           end) fields)
            ++ lit "}")
  end.

(** *** [JSON.parse] *)

Definition is_json_ws (c : N) : bool :=
  (c =? 32) || (c =? 9) || (c =? 10) || (c =? 13).

Fixpoint skip_ws (s : str) : str :=
  match s with
  | c :: s' => if is_json_ws c then skip_ws s' else s
  | [] => []
  end.

Definition is_digit (c : N) : bool := (48 <=? c) && (c <=? 57).

Definition hex_value (c : N) : option N :=
  if is_digit c then Some (c - 48)
  else if (97 <=? c) && (c <=? 102) then Some (c - 87)
  else if (65 <=? c) && (c <=? 70) then Some (c - 55)
  else None.

Definition hex4 (a b c d : N) : option N :=
  match hex_value a, hex_value b, hex_value c, hex_value d with
  | Some x, Some y, Some z, Some w => Some (x * 4096 + y * 256 + z * 16 + w)
  | _, _, _, _ => None
  end.

(** The characters of a string literal after its opening quote, up to and
    including the closing quote; [acc] holds the decoded text, reversed. *)
Fixpoint parse_string_body (s : str) (acc : str) : option (str * str) :=
  match s with
  | [] => None
  | c :: rest =>
      if c =? 34 then Some (rev acc, rest)
      else if c =? 92 then
        match rest with
        | e :: rest1 =>
            if e =? 34 then parse_string_body rest1 (34 :: acc)
            else if e =? 92 then parse_string_body rest1 (92 :: acc)
            else if e =? 47 then parse_string_body rest1 (47 :: acc)
            else if e =? 98 then parse_string_body rest1 (8 :: acc)
            else if e =? 102 then parse_string_body rest1 (12 :: acc)
            else if e =? 110 then parse_string_body rest1 (10 :: acc)
            else if e =? 114 then parse_string_body rest1 (13 :: acc)
            else if e =? 116 then parse_string_body rest1 (9 :: acc)
            else if e =? 117 then
              match rest1 with
              | h1 :: h2 :: h3 :: h4 :: rest2 =>
                  match hex4 h1 h2 h3 h4 with
                  | Some u => parse_string_body rest2 (u :: acc)
                  | None => None
                  end
              | _ => None
              end
            else None
        | [] => None
        end
      else if c <? 32 then None
      else parse_string_body rest (c :: acc)
  end.

Fixpoint take_digits (s : str) : str * str :=
  match s with
  | c :: s' =>
      if is_digit c then let (d, r) := take_digits s' in (c :: d, r)
      else ([], s)
  | [] => ([], [])
  end.

(** A JSON number: an optional minus sign; a zero, or a non-zero digit
    followed by digits; optionally a point and one or more digits; optionally
    an exponent mark, a sign and one or more digits. *)
Definition parse_number (s : str) : option (str * str) :=
  let (sign, s1) :=
    match s with
    | c :: s' => if c =? 45 then ([c], s') else ([], s)
    | [] => ([], s)
    end in
  let (int, s2) := take_digits s1 in
  match int with
  | [] => None
  | d :: ds =>
      if (d =? 48) && truthy ds then None
      else
        let frac :=
          match s2 with
          | c :: s' =>
              if c =? 46 then
                let (f, r) := take_digits s' in
                match f with [] => None | _ => Some (c :: f, r) end
              else Some ([], s2)
          | [] => Some ([], s2)
          end in
        match frac with
        | None => None
        | Some (f, s3) =>
            let exp :=
              match s3 with
              | c :: s' =>
                  if (c =? 101) || (c =? 69) then
                    let (sg, s4) :=
                      match s' with
                      | g :: s'' =>
                          if (g =? 43) || (g =? 45) then ([g], s'') else ([], s')
                      | [] => ([], s')
                      end in
                    let (e, r) := take_digits s4 in
                    match e with [] => None | _ => Some (c :: sg ++ e, r) end
                  else Some ([], s3)
              | [] => Some ([], s3)
              end in
            match exp with
            | None => None
            | Some (e, s5) => Some (sign ++ int ++ f ++ e, s5)
            end
        end
  end.

(** [expect w s]: [s] without its prefix [w]. *)
Fixpoint expect (w s : str) : option str :=
  match w, s with
  | [], _ => Some s
  | a :: w', b :: s' => if a =? b then expect w' s' else None
  | _ :: _, [] => None
  end.

(** One JSON value at the head of [s] (leading white space already
    skipped), with the text that follows it.  Fuel bounds the depth of the
    chain of calls; along a chain at least one character is consumed every
    second call, so fuel of twice the length of the text is never
    exhausted. *)
Fixpoint parse_value (fuel : nat) (s : str) : option (JsValue * str) :=
  match fuel with
  | O => None
  | S fuel' =>
      match s with
      | [] => None
      | c :: rest =>
          if c =? 110 then option_map (pair VNull) (expect (lit "ull") rest)
          else if c =? 116 then option_map (pair (VBool true)) (expect (lit "rue") rest)
          else if c =? 102 then option_map (pair (VBool false)) (expect (lit "alse") rest)
          else if c =? 34 then
            match parse_string_body rest [] with
            | Some (t, r) => Some (VStr t, r)
            | None => None
            end
          else if c =? 91 then
            match skip_ws rest with
            | d :: r => if d =? 93 then Some (VArr [], r)
                        else parse_elements fuel' (d :: r) []
            | [] => None
            end
          else if c =? 123 then
            match skip_ws rest with
            | d :: r => if d =? 125 then Some (VObj [], r)
                        else parse_members fuel' (d :: r) []
            | [] => None
            end
          else
            match parse_number s with
            | Some (l, r) => Some (VNum l, r)
            | None => None
            end
      end
  end

(** The elements of an array after its opening bracket; [acc] is reversed. *)
with parse_elements (fuel : nat) (s : str) (acc : list JsValue)
    : option (JsValue * str) :=
  match fuel with
  | O => None
  | S fuel' =>
      match parse_value fuel' s with
      | None => None
      | Some (v, r) =>
          match skip_ws r with
          | d :: r' =>
              if d =? 44 then parse_elements fuel' (skip_ws r') (v :: acc)
              else if d =? 93 then Some (VArr (rev (v :: acc)), r')
              else None
          | [] => None
          end
      end
  end

(** The members of an object after its opening brace. *)
with parse_members (fuel : nat) (s : str) (acc : JsObj)
    : option (JsValue * str) :=
  match fuel with
  | O => None
  | S fuel' =>
      match s with
      | q :: s1 =>
          if q =? 34 then
            match parse_string_body s1 [] with
            | None => None
            | Some (k, r) =>
                match skip_ws r with
                | colon :: r1 =>
                    if colon =? 58 then
                      match parse_value fuel' (skip_ws r1) with
                      | None => None
                      | Some (v, r2) =>
                          match skip_ws r2 with
                          | d :: r3 =>
                              if d =? 44
                              then parse_members fuel' (skip_ws r3) (obj_set k v acc)
                              else if d =? 125
                              then Some (VObj (obj_set k v acc), r3)
                              else None
                          | [] => None
                          end
                      end
                    else None
                | [] => None
                end
            end
          else None
      | [] => None
      end
  end.

(** [JSON.parse(text)]: the value, or [None] for the [SyntaxError] it
    throws. *)
Definition parse (text : str) : option JsValue :=
  match parse_value (2 * List.length text + 2) (skip_ws text) with
  | Some (v, rest) =>
      match skip_ws rest with [] => Some v | _ => None end
  | None => None
  end.

End JSON.

Import JSON.

(** ** The clock: [Date.now()] and [toISOString] *)

Module Clock.

Local Open Scope Z_scope.

(** The decimal rendering of an integer in a template literal. *)
Definition dec (n : Z) : str := lit (NilZero.string_of_int (Z.to_int n)).

(** [n] in decimal, padded with zeros on the left to [width] digits. *)
Definition pad (width : nat) (n : Z) : str :=
  let d := dec n in repeat 48%N (width - List.length d) ++ d.

(** Year, month and day of a day count from 1 January 1970 in the
    proleptic Gregorian calendar. *)
Definition civil_from_days (days : Z) : Z * Z * Z :=
  let z := days + 719468 in
  let era := z / 146097 in
  let doe := z - era * 146097 in
  let yoe := (doe - doe / 1460 + doe / 36524 - doe / 146096) / 365 in
  let doy := doe - (365 * yoe + yoe / 4 - yoe / 100) in
  let mp := (5 * doy + 2) / 153 in
  let d := doy - (153 * mp + 2) / 5 + 1 in
  let m := if mp <? 10 then mp + 3 else mp - 9 in
  let y := yoe + era * 400 + (if m <=? 2 then 1 else 0) in
  (y, m, d).

(** [new Date(t).toISOString()] for a time value [t] in milliseconds. *)
Definition toISOString (t : Z) : str :=
  let days := t / 86400000 in
  let ms_of_day := t mod 86400000 in
  let '(y, m, d) := civil_from_days days in
  let year :=
    if (0 <=? y) && (y <=? 9999) then pad 4 y
    else (if y <? 0 then lit "-" else lit "+") ++ pad 6 (Z.abs y) in
  year ++ lit "-" ++ pad 2 m ++ lit "-" ++ pad 2 d ++ lit "T"
  ++ pad 2 (ms_of_day / 3600000) ++ lit ":"
  ++ pad 2 (ms_of_day / 60000 mod 60) ++ lit ":"
  ++ pad 2 (ms_of_day / 1000 mod 60) ++ lit "."
  ++ pad 3 (ms_of_day mod 1000) ++ lit "Z".

End Clock.

(** ** Promises and thrown values *)

Module Async.

(** What a rejected promise or a [throw] carries: an [Error] with its
    message, or any other value. *)
Inductive Reason :=
| ErrorObject (message : str)
| OtherReason (v : JsValue).

(** The result of an awaited call. *)
Inductive Outcome (A : Type) :=
| Ok (a : A)
| Throw (e : Reason).
Arguments Ok {A} a.
Arguments Throw {A} e.

(** A promise by its eventual state; [Pending] never settles. *)
Inductive Promise (A : Type) :=
| Fulfilled (a : A)
| Rejected (e : Reason)
| Pending.
Arguments Fulfilled {A} a.
Arguments Rejected {A} e.
Arguments Pending {A}.

(** Which of two promises rejects first when both reject: decided by the
    scheduler, an input of the model. *)
Inductive Side := LeftFirst | RightFirst.

(** [Promise.all([p, q])]: fulfilled with both values when both fulfil,
    rejected with the first rejection otherwise. *)
Definition Promise_all2 {A B : Type} (race : Side) (p : Promise A) (q : Promise B)
    : Promise (A * B) :=
  match p, q with
  | Fulfilled a, Fulfilled b => Fulfilled (a, b)
  | Rejected e1, Rejected e2 =>
      match race with LeftFirst => Rejected e1 | RightFirst => Rejected e2 end
  | Rejected e, _ => Rejected e
  | _, Rejected e => Rejected e
  | _, _ => Pending
  end.

(** [err instanceof Error ? err.message : fallback] *)
Definition message_or (fallback : str) (err : Reason) : str :=
  match err with ErrorObject m => m | OtherReason _ => fallback end.

End Async.

Import Async.

(** ** [localStorage] *)

Module LocalStorage.

(** The stored entries and the browser's policy for refusing a write
    (quota, private mode): [setItem] throws when [refuses key value]. *)
Record Storage := {
  entries : gmap str str;
  refuses : str -> str -> bool
}.

Definition getItem (key : str) (ls : Storage) : option str := entries ls !! key.

Definition setItem (key value : str) (ls : Storage) : Outcome Storage :=
  if refuses ls key value
  then Throw (ErrorObject (lit "QuotaExceededError"))
  else Ok {| entries := <[key := value]> (entries ls); refuses := refuses ls |}.

End LocalStorage.

Import LocalStorage.

(** ** [services/geminiService.ts]: video generation *)

Module VideoService.

(** The fields of a video operation that the code reads; an absent
    property is [None]. *)
Record Video := { uri : option str }.
Record GeneratedVideo := { video : option Video }.
Record VideosResponse := { generatedVideos : option (list GeneratedVideo) }.
Record Operation := { done : bool; response : option VideosResponse }.

Record ImagePayload := { imageBytes : str; mimeType : str }.

Record Blob := { blob_data : str }.
Record FetchResponse := { ok : bool; blob : Outcome Blob }.

(** The world outside: the key of [process.env], what the generation
    service answers (answer 0 to [generateVideos], answer [k] to the [k]-th
    [getVideosOperation]), what [fetch] answers, and the URL that
    [URL.createObjectURL] mints. *)
Record Api := {
  API_KEY : str;
  answers : nat -> Outcome Operation;
  fetch : str -> Outcome FetchResponse;
  createObjectURL : Blob -> str
}.

(** What the code does to the outside, in order. *)
Inductive Event :=
| EvFileToBase64
| EvGenerateVideos (prompt : str) (image : option ImagePayload)
| EvSetTimeout (ms : N)
| EvGetVideosOperation
| EvFetch (url : str)
| EvConsoleLog (text : str)
| EvGenerateSoundEffect (prompt fxStyle : str)
| EvPromiseAll.

(** [operation.response?.generatedVideos?.[0]?.video?.uri] *)
Definition downloadLink (operation : Operation) : option str :=
  match response operation with
  | None => None
  | Some r =>
      match generatedVideos r with
      | None => None
      | Some vs =>
          match vs with
          | [] => None
          | v :: _ => match video v with None => None | Some x => uri x end
          end
      end
  end.

(** The loop [while (!operation.done) { wait 10000 ms; poll }], started
    after [polled] answers were received.  [None]: the loop is still running
    when the fuel is spent. *)
Fixpoint poll (api : Api) (fuel : nat) (polled : nat) (operation : Operation)
    : list Event * option (Outcome Operation) :=
  if done operation then ([], Some (Ok operation))
  else
    match fuel with
    | O => ([], None)
    | S fuel' =>
        match answers api (S polled) with
        | Throw e => ([EvSetTimeout 10000; EvGetVideosOperation], Some (Throw e))
        | Ok operation' =>
            let (tr, r) := poll api fuel' (S polled) operation' in
            (EvSetTimeout 10000 :: EvGetVideosOperation :: tr, r)
        end
    end.

(** The part of [generateVideoInternal] after the loop. *)
Definition download (api : Api) (operation : Operation) : list Event * Promise str :=
  match downloadLink operation with
  | Some (c :: link) =>
      let url := (c :: link) ++ lit "&key=" ++ API_KEY api in
      ([EvFetch url],
       match fetch api url with
       | Throw e => Rejected e
       | Ok videoResponse =>
           if ok videoResponse then
             match blob videoResponse with
             | Throw e => Rejected e
             | Ok videoBlob => Fulfilled (createObjectURL api videoBlob)
             end
           else Rejected (ErrorObject (lit "Failed to download the generated video."))
       end)
  | _ =>
      ([], Rejected (ErrorObject
             (lit "Video generation failed or did not return a valid link.")))
  end.

(** An asynchronous call: what it does before it returns its promise, what
    it does afterwards, and the promise. *)
Record Call (A : Type) := {
  issued : list Event;
  later : list Event;
  result : Promise A
}.
Arguments issued {A} c.
Arguments later {A} c.
Arguments result {A} c.

(** Everything the call does, in order. *)
Definition events {A : Type} (c : Call A) : list Event := issued c ++ later c.

Definition generateVideoInternal (api : Api) (fuel : nat) (prompt : str)
    (image : option ImagePayload) : Call str :=
  let request := [EvGenerateVideos prompt image] in
  match answers api 0%nat with
  | Throw e => {| issued := request; later := []; result := Rejected e |}
  | Ok operation =>
      let (tr, r) := poll api fuel 0 operation in
      match r with
      | None => {| issued := request; later := tr; result := Pending |}
      | Some (Throw e) => {| issued := request; later := tr; result := Rejected e |}
      | Some (Ok finished) =>
          let (tr', p) := download api finished in
          {| issued := request; later := tr ++ tr'; result := p |}
      end
  end.

Definition generateVideo (api : Api) (fuel : nat) (prompt : str)
    (image : option ImagePayload) (style : VideoStyle) (negativePrompt : str)
    (duration : VideoDuration) (cameraMovement : CameraMovement)
    (quality : VideoQuality) (language : Language) (framing : VideoFraming)
    (persona : AIPersona) (loop : bool) (aspectRatio : AspectRatio)
    (fps : VideoFPS) (motionIntensity : Intensity) (audioMood : AudioMood)
    : Call str :=
  let finalPrompt :=
    constructVideoPrompt prompt style negativePrompt duration cameraMovement
      quality language framing persona loop aspectRatio fps motionIntensity
      audioMood in
  generateVideoInternal api fuel finalPrompt image.

Definition placeholderAudio : str :=
  lit "data:audio/wav;base64,UklGRiQAAABXQVZFZm10IBAAAAABAAEARKwAAIhYAQACABAAZGF0YQAAAAA=".

(** The mock sound effect: logs its prompt, starts a timer of 3000 ms and
    returns a promise that the timer resolves with the placeholder. *)
Definition generateSoundEffect (prompt fxStyle : str) : Call str :=
  let finalPrompt :=
    lit "Generate a sound effect for: " ++ prompt ++ lit ". Style: " ++ fxStyle in
  {| issued := [EvGenerateSoundEffect prompt fxStyle; EvConsoleLog finalPrompt;
                EvSetTimeout 3000];
     later := [];
     result := Fulfilled placeholderAudio |}.

(** [n] rounds of the loop: each waits 10000 ms and polls once. *)
Definition waits (n : nat) : list Event :=
  concat (repeat [EvSetTimeout 10000; EvGetVideosOperation] n).

(** Answer [n] is the first one with [done = true]. *)
Definition first_done (api : Api) (n : nat) : Prop :=
  (forall k, (k < n)%nat -> exists op, answers api k = Ok op /\ done op = false)
  /\ exists op, answers api n = Ok op /\ done op = true.

(** Answer [n] is a failure and no answer before it is finished. *)
Definition first_failure (api : Api) (n : nat) (e : Reason) : Prop :=
  (forall k, (k < n)%nat -> exists op, answers api k = Ok op /\ done op = false)
  /\ answers api n = Throw e.

Definition is_fetch (e : Event) : bool :=
  match e with EvFetch _ => true | _ => false end.

Definition is_video_request (e : Event) : bool :=
  match e with EvGenerateVideos _ _ => true | _ => false end.

Definition is_sound_request (e : Event) : bool :=
  match e with EvGenerateSoundEffect _ _ => true | _ => false end.

End VideoService.

Import VideoService.

(** ** [App.tsx] *)

Module App.

Inductive ToastType := success | error | info.

Record Toast := { toast_id : str; message : str; toast_type : ToastType }.

Inductive GenerationMode :=
  IMAGE | VIDEO | AUDIO | LIBRARY | PROFILE | SETTINGS | PREMIUM.

(** The state of the [App] component.  A library item is an object. *)
Record AppState := {
  activeMode : GenerationMode;
  libraryItems : list JsObj;
  subscriptionTier : SubscriptionTier;
  toasts : list Toast;
  showUpgradeModal : bool
}.

Definition initial : AppState :=
  {| activeMode := IMAGE; libraryItems := []; subscriptionTier := free;
     toasts := []; showUpgradeModal := false |}.

Definition setLibraryItems (f : list JsObj -> list JsObj) (st : AppState) : AppState :=
  {| activeMode := activeMode st; libraryItems := f (libraryItems st);
     subscriptionTier := subscriptionTier st; toasts := toasts st;
     showUpgradeModal := showUpgradeModal st |}.

(** [addToast]; [id] is [Date.now().toString() + Math.random()], read from
    the environment. *)
Definition addToast (id : str) (msg : str) (type : ToastType) (st : AppState) : AppState :=
  {| activeMode := activeMode st; libraryItems := libraryItems st;
     subscriptionTier := subscriptionTier st;
     toasts := toasts st ++ [{| toast_id := id; message := msg; toast_type := type |}];
     showUpgradeModal := showUpgradeModal st |}.

Definition promptUpgrade (st : AppState) : AppState :=
  {| activeMode := activeMode st; libraryItems := libraryItems st;
     subscriptionTier := subscriptionTier st; toasts := toasts st;
     showUpgradeModal := true |}.

(** What one call of [handleSaveToLibrary] reads from outside the library:
    the two clock readings, the identifier of its toast, and
    [notify_saved], whether [settings.notifications.generationComplete] of
    the settings in [App.tsx] is truthy for the call.  The [App] that has no
    settings shows the toast always: it is the case [notify_saved = true]. *)
Record SaveEnv := {
  now_id : Z;
  now_created : Z;
  save_toast_id : str;
  notify_saved : bool
}.

(** [{ ...item, id: `item-${Date.now()}`, createdAt: new Date().toISOString() }] *)
Definition newItem (env : SaveEnv) (item : JsObj) : JsObj :=
  obj_set (lit "createdAt") (VStr (Clock.toISOString (now_created env)))
    (obj_set (lit "id") (VStr (lit "item-" ++ Clock.dec (now_id env))) item).

Definition handleSaveToLibrary (env : SaveEnv) (item : JsObj) (st : AppState) : AppState :=
  let st' := setLibraryItems (fun prev => newItem env item :: prev) st in
  if notify_saved env
  then addToast (save_toast_id env) (lit "Saved to Library!") success st'
  else st'.

(** The argument type of [handleSaveToLibrary]: [type] is 'IMAGE' or
    'VIDEO', [src] is a string, [settings] is an object whose [prompts] is
    an array. *)
Definition is_string (v : JsValue) : bool :=
  match v with VStr _ => true | _ => false end.

Definition is_media_type (v : JsValue) : bool :=
  strict_eq_str v (lit "IMAGE") || strict_eq_str v (lit "VIDEO").

Definition has_prompts (v : JsValue) : bool :=
  match v with
  | VObj settings =>
      match obj_get (lit "prompts") settings with VArr _ => true | _ => false end
  | _ => false
  end.

Definition item_argument (item : JsObj) : bool :=
  is_media_type (obj_get (lit "type") item)
  && is_string (obj_get (lit "src") item)
  && has_prompts (obj_get (lit "settings") item).

Definition nonempty_string (v : JsValue) : bool :=
  match v with VStr (_ :: _) => true | _ => false end.

(** Field presence of a [LibraryItem]. *)
Definition fields_present (item : JsObj) : bool :=
  nonempty_string (obj_get (lit "id") item)
  && nonempty_string (obj_get (lit "createdAt") item)
  && is_media_type (obj_get (lit "type") item)
  && is_string (obj_get (lit "src") item)
  && has_prompts (obj_get (lit "settings") item).

(** *** Persistence of the tier and of the library *)

Definition LIBRARY_KEY : str := lit "creative-suite-library".
Definition TIER_KEY : str := lit "creative-suite-tier".

(** The part of the state the persistence effects read and write.  What
    [JSON.parse] returns for the library is not checked by the code, so the
    library is any value here. *)
Record Persisted := {
  p_libraryItems : JsValue;
  p_subscriptionTier : SubscriptionTier
}.

Definition p_initial : Persisted :=
  {| p_libraryItems := VArr []; p_subscriptionTier := free |}.

(** [['free', 'silver', 'golden', 'diamond'].includes(v)], with the tier
    that [v] then is. *)
Definition whitelisted (v : JsValue) : option SubscriptionTier :=
  if strict_eq_str v (lit "free") then Some free
  else if strict_eq_str v (lit "silver") then Some silver
  else if strict_eq_str v (lit "golden") then Some golden
  else if strict_eq_str v (lit "diamond") then Some diamond
  else None.

(** The start-up effect.  Both entries are read inside one [try]: a
    [SyntaxError] from either [JSON.parse] ends the effect, keeping the
    updates made before it. *)
Definition load_effect (ls : Storage) (st : Persisted) : Persisted :=
  let after_library : option Persisted :=
    match getItem LIBRARY_KEY ls with
    | Some (c :: storedLibrary) =>
        match parse (c :: storedLibrary) with
        | Some v => Some {| p_libraryItems := v;
                            p_subscriptionTier := p_subscriptionTier st |}
        | None => None
        end
    | _ => Some st
    end in
  match after_library with
  | None => st
  | Some st1 =>
      match getItem TIER_KEY ls with
      | Some (c :: storedTier) =>
          match parse (c :: storedTier) with
          | None => st1
          | Some v =>
              match whitelisted v with
              | Some t => {| p_libraryItems := p_libraryItems st1;
                             p_subscriptionTier := t |}
              | None => st1
              end
          end
      | _ => st1
      end
  end.

(** [localStorage.setItem(key, JSON.stringify(value))] inside [try]: a
    refused write is logged and leaves the store as it was.  [setItem]
    converts [undefined] to the string "undefined". *)
Definition save_entry (key : str) (value : JsValue) (ls : Storage) : Storage :=
  let text := match stringify value with Some t => t | None => lit "undefined" end in
  match setItem key text ls with
  | Ok ls' => ls'
  | Throw _ => ls
  end.

Definition save_library_effect (st : Persisted) (ls : Storage) : Storage :=
  save_entry LIBRARY_KEY (p_libraryItems st) ls.

Definition save_tier_effect (st : Persisted) (ls : Storage) : Storage :=
  save_entry TIER_KEY (VStr (SubscriptionTier_str (p_subscriptionTier st))) ls.

(** [setSubscriptionTier(t)] followed by the effect it triggers. *)
Definition set_tier (t : SubscriptionTier) (st : Persisted) (ls : Storage)
    : Persisted * Storage :=
  let st' := {| p_libraryItems := p_libraryItems st; p_subscriptionTier := t |} in
  (st', save_tier_effect st' ls).

(** *** The effects of a session

    After the first render the three effects run in the order of their
    declaration, each with the state of that render: the load effect reads
    the store, then the two save effects write the library and the tier of
    the first render, the empty library and 'free'.  The updates that the
    load effect made cause a second render, after which a save effect runs
    again when its dependency changed: the library effect whenever
    [setLibraryItems] was called (what [JSON.parse] returns is never the
    array of the first render), the tier effect when the loaded tier is
    not 'free'. *)
Definition library_loaded (ls : Storage) : bool :=
  match getItem LIBRARY_KEY ls with
  | Some (c :: storedLibrary) =>
      match parse (c :: storedLibrary) with Some _ => true | None => false end
  | _ => false
  end.

(** [a === b] for two tiers. *)
Definition same_tier (a b : SubscriptionTier) : bool :=
  str_eqb (SubscriptionTier_str a) (SubscriptionTier_str b).

Definition startup (ls : Storage) : Persisted * Storage :=
  let st := load_effect ls p_initial in
  let first := save_tier_effect p_initial (save_library_effect p_initial ls) in
  let second := if library_loaded ls then save_library_effect st first else first in
  (st,
   if same_tier (p_subscriptionTier st) free then second
   else save_tier_effect st second).

(** [setSubscriptionTier(t)] in the mounted [App], as
    [handleSetSubscriptionTier] calls it: the tier effect runs when the
    tier changed. *)
Definition setSubscriptionTier (t : SubscriptionTier) (p : Persisted * Storage)
    : Persisted * Storage :=
  if same_tier t (p_subscriptionTier (fst p)) then p
  else set_tier t (fst p) (snd p).

(** The library as the value that [JSON.stringify(libraryItems)] is given,
    and the part of the [App] state that the two save effects write. *)
Definition library_value (items : list JsObj) : JsValue := VArr (List.map VObj items).

Definition persisted (st : AppState) : Persisted :=
  {| p_libraryItems := library_value (libraryItems st);
     p_subscriptionTier := subscriptionTier st |}.

(** [removeToast]: [setToasts(prev => prev.filter(t => t.id !== id))] *)
Definition removeToast (id : str) (st : AppState) : AppState :=
  {| activeMode := activeMode st; libraryItems := libraryItems st;
     subscriptionTier := subscriptionTier st;
     toasts := List.filter (fun t => negb (str_eqb (toast_id t) id)) (toasts st);
     showUpgradeModal := showUpgradeModal st |}.

End App.

Import App.

(** ** [components/Library.tsx] and [components/Settings.tsx] *)

Module Library.

Record State := { selectedItem : option JsObj }.

(** [item.id === itemId] *)
Definition has_id (itemId : str) (item : JsObj) : Prop :=
  obj_get (lit "id") item = VStr itemId.

(** [handleDelete(itemId)], on the state of the component and of [App]. *)
Definition handleDelete (toastId : str) (itemId : str)
    (w : State * AppState) : State * AppState :=
  let a1 :=
    setLibraryItems
      (fun prev =>
         List.filter (fun item => negb (strict_eq_str (obj_get (lit "id") item) itemId))
           prev) (snd w) in
  ({| selectedItem := None |},
   addToast toastId (lit "Item deleted from library.") success a1).

End Library.

Module Settings.

Record State := { showClearConfirm : bool }.

(** [handleClearLibrary()], on the state of the component and of [App]. *)
Definition handleClearLibrary (toastId : str)
    (w : State * AppState) : State * AppState :=
  let a1 := setLibraryItems (fun _ => []) (snd w) in
  ({| showClearConfirm := false |},
   addToast toastId (lit "Creative Library has been cleared.") success a1).

End Settings.

(** ** Sequences of library operations *)

Module Session.

Record State := {
  app_part : AppState;
  library_part : Library.State;
  settings_part : Settings.State
}.

Definition start : State :=
  {| app_part := initial;
     library_part := {| Library.selectedItem := None |};
     settings_part := {| Settings.showClearConfirm := false |} |}.

(** The three operations on the library. *)
Inductive LibraryOp :=
| OpSave (env : SaveEnv) (item : JsObj)
| OpDelete (toastId itemId : str)
| OpClear (toastId : str).

Definition apply_op (st : State) (op : LibraryOp) : State :=
  match op with
  | OpSave env item =>
      {| app_part := handleSaveToLibrary env item (app_part st);
         library_part := library_part st; settings_part := settings_part st |}
  | OpDelete toastId itemId =>
      let (l, a) := Library.handleDelete toastId itemId (library_part st, app_part st) in
      {| app_part := a; library_part := l; settings_part := settings_part st |}
  | OpClear toastId =>
      let (c, a) := Settings.handleClearLibrary toastId (settings_part st, app_part st) in
      {| app_part := a; library_part := library_part st; settings_part := c |}
  end.

Definition run_ops (ops : list LibraryOp) (st : State) : State :=
  fold_left apply_op ops st.

(** A call of [handleSaveToLibrary] that type-checks. *)
Definition well_typed_op (op : LibraryOp) : Prop :=
  match op with
  | OpSave _ item => item_argument item = true
  | _ => True
  end.

End Session.

Import Session.

(** ** [components/VideoGenerator.tsx] *)

Module VideoGenerator.

Definition Language_str (l : Language) : str :=
  match l with english => lit "english" | kinyarwanda => lit "kinyarwanda" end.

Definition VideoDuration_str (d : VideoDuration) : str :=
  match d with
  | d_short => lit "short" | d_medium => lit "medium" | d_long => lit "long"
  | d_one_minute => lit "one-minute" | d_three_minute => lit "three-minute"
  end.

Definition VideoQuality_str (q : VideoQuality) : str :=
  match q with q_standard => lit "standard" | q_high => lit "high" end.

Definition Intensity_str (i : Intensity) : str :=
  match i with
  | subtle => lit "subtle" | balanced => lit "balanced" | strong => lit "strong"
  end.

Definition AIPersona_str (p : AIPersona) : str :=
  match p with
  | p_none => lit "none" | p_photographer => lit "photographer"
  | p_illustrator => lit "illustrator" | p_cinematographer => lit "cinematographer"
  | p_vfx_artist => lit "vfx-artist" | p_concept_artist => lit "concept-artist"
  | p_wildlife_photographer => lit "wildlife-photographer"
  | p_sci_fi_artist => lit "sci-fi-artist"
  | p_food_photographer => lit "food-photographer"
  | p_architectural_designer => lit "architectural-designer"
  end.

(** The label of a mood in [audioMoods]. *)
Definition audioMood_label (m : AudioMood) : str :=
  match m with
  | am_none => lit "None" | am_epic => lit "Epic Orchestral"
  | am_ambient => lit "Ambient Sci-Fi" | am_lofi => lit "Lo-Fi Beats"
  | am_cinematic_tension => lit "Cinematic Tension"
  end.

Definition LOADING_MESSAGES_0 : str := lit "Warming up the digital director...".

Inductive VideoToolMode := text_to_video | image_to_video.

Record File := { file_type : str; file_name : str }.

(** The state of the component, with the prompt history of its
    [usePromptHistory] hook. *)
Record State := {
  mode : VideoToolMode;
  prompt : str;
  negativePrompt : str;
  style : VideoStyle;
  duration : VideoDuration;
  cameraMovement : CameraMovement;
  quality : VideoQuality;
  language : Language;
  framing : VideoFraming;
  persona : AIPersona;
  loopVideo : bool;
  aspectRatio : AspectRatio;
  fps : VideoFPS;
  motionIntensity : Intensity;
  audioMood : AudioMood;
  imageFile : option File;
  generatedVideo : option str;
  generatedAudio : option str;
  isLoading : bool;
  error_state : option str;
  loadingMessage : str;
  lastSettings : option JsObj;
  promptHistory : list str
}.

(** The initial values of the [useState] calls. *)
Definition initial_state : State :=
  {| mode := text_to_video; prompt := []; negativePrompt := [];
     style := vs_none; duration := d_short; cameraMovement := cm_none;
     quality := q_standard; language := english; framing := fr_none;
     persona := p_cinematographer; loopVideo := false; aspectRatio := ar_1_1;
     fps := fps24; motionIntensity := balanced; audioMood := am_none;
     imageFile := None; generatedVideo := None; generatedAudio := None;
     isLoading := false; error_state := None;
     loadingMessage := LOADING_MESSAGES_0; lastSettings := None;
     promptHistory := [] |}.

(** The state after the four setters at the start of a submission and the
    updates of [lastSettings] and of the history. *)
Definition begin_submit (settings : JsObj) (history : list str) (s : State) : State :=
  {| mode := mode s; prompt := prompt s; negativePrompt := negativePrompt s;
     style := style s; duration := duration s;
     cameraMovement := cameraMovement s; quality := quality s;
     language := language s; framing := framing s; persona := persona s;
     loopVideo := loopVideo s; aspectRatio := aspectRatio s; fps := fps s;
     motionIntensity := motionIntensity s; audioMood := audioMood s;
     imageFile := imageFile s;
     generatedVideo := None; generatedAudio := None; isLoading := true;
     error_state := None; loadingMessage := LOADING_MESSAGES_0;
     lastSettings := Some settings; promptHistory := history |}.

Definition setError (e : str) (s : State) : State :=
  {| mode := mode s; prompt := prompt s; negativePrompt := negativePrompt s;
     style := style s; duration := duration s;
     cameraMovement := cameraMovement s; quality := quality s;
     language := language s; framing := framing s; persona := persona s;
     loopVideo := loopVideo s; aspectRatio := aspectRatio s; fps := fps s;
     motionIntensity := motionIntensity s; audioMood := audioMood s;
     imageFile := imageFile s;
     generatedVideo := generatedVideo s; generatedAudio := generatedAudio s;
     isLoading := isLoading s; error_state := Some e;
     loadingMessage := loadingMessage s; lastSettings := lastSettings s;
     promptHistory := promptHistory s |}.

Definition setIsLoading (b : bool) (s : State) : State :=
  {| mode := mode s; prompt := prompt s; negativePrompt := negativePrompt s;
     style := style s; duration := duration s;
     cameraMovement := cameraMovement s; quality := quality s;
     language := language s; framing := framing s; persona := persona s;
     loopVideo := loopVideo s; aspectRatio := aspectRatio s; fps := fps s;
     motionIntensity := motionIntensity s; audioMood := audioMood s;
     imageFile := imageFile s;
     generatedVideo := generatedVideo s; generatedAudio := generatedAudio s;
     isLoading := b; error_state := error_state s;
     loadingMessage := loadingMessage s; lastSettings := lastSettings s;
     promptHistory := promptHistory s |}.

(** [setGeneratedVideo(v); if (a) setGeneratedAudio(a)] *)
Definition setGenerated (v : str) (a : option str) (s : State) : State :=
  {| mode := mode s; prompt := prompt s; negativePrompt := negativePrompt s;
     style := style s; duration := duration s;
     cameraMovement := cameraMovement s; quality := quality s;
     language := language s; framing := framing s; persona := persona s;
     loopVideo := loopVideo s; aspectRatio := aspectRatio s; fps := fps s;
     motionIntensity := motionIntensity s; audioMood := audioMood s;
     imageFile := imageFile s;
     generatedVideo := Some v;
     generatedAudio :=
       match a with
       | Some (c :: t) => Some (c :: t)
       | _ => generatedAudio s
       end;
     isLoading := isLoading s; error_state := error_state s;
     loadingMessage := loadingMessage s; lastSettings := lastSettings s;
     promptHistory := promptHistory s |}.

Definition setDuration (d : VideoDuration) (s : State) : State :=
  {| mode := mode s; prompt := prompt s; negativePrompt := negativePrompt s;
     style := style s; duration := d;
     cameraMovement := cameraMovement s; quality := quality s;
     language := language s; framing := framing s; persona := persona s;
     loopVideo := loopVideo s; aspectRatio := aspectRatio s; fps := fps s;
     motionIntensity := motionIntensity s; audioMood := audioMood s;
     imageFile := imageFile s;
     generatedVideo := generatedVideo s; generatedAudio := generatedAudio s;
     isLoading := isLoading s; error_state := error_state s;
     loadingMessage := loadingMessage s; lastSettings := lastSettings s;
     promptHistory := promptHistory s |}.

Definition setPrompt (p : str) (s : State) : State :=
  {| mode := mode s; prompt := p; negativePrompt := negativePrompt s;
     style := style s; duration := duration s;
     cameraMovement := cameraMovement s; quality := quality s;
     language := language s; framing := framing s; persona := persona s;
     loopVideo := loopVideo s; aspectRatio := aspectRatio s; fps := fps s;
     motionIntensity := motionIntensity s; audioMood := audioMood s;
     imageFile := imageFile s;
     generatedVideo := generatedVideo s; generatedAudio := generatedAudio s;
     isLoading := isLoading s; error_state := error_state s;
     loadingMessage := loadingMessage s; lastSettings := lastSettings s;
     promptHistory := promptHistory s |}.

Definition setAudioMood (m : AudioMood) (s : State) : State :=
  {| mode := mode s; prompt := prompt s; negativePrompt := negativePrompt s;
     style := style s; duration := duration s;
     cameraMovement := cameraMovement s; quality := quality s;
     language := language s; framing := framing s; persona := persona s;
     loopVideo := loopVideo s; aspectRatio := aspectRatio s; fps := fps s;
     motionIntensity := motionIntensity s; audioMood := m;
     imageFile := imageFile s;
     generatedVideo := generatedVideo s; generatedAudio := generatedAudio s;
     isLoading := isLoading s; error_state := error_state s;
     loadingMessage := loadingMessage s; lastSettings := lastSettings s;
     promptHistory := promptHistory s |}.

(** *** [usePromptHistory] *)

Definition HISTORY_KEY : str := lit "video-prompt-history".

(** [[prompt, ...history.filter(p => p !== prompt)].slice(0, 10)] *)
Definition newHistory (prompt : str) (history : list str) : list str :=
  firstn 10 (prompt :: List.filter (fun p => negb (str_eqb p prompt)) history).

(** [addPromptToHistory]: the new history and the new store.  A refused
    write is logged after the history was already set. *)
Definition addPromptToHistory (key : str) (prompt : str)
    (history : list str) (ls : Storage) : list str * Storage :=
  if negb (truthy (trim prompt)) then (history, ls)
  else
    let h := newHistory prompt history in
    (h, save_entry key (VArr (List.map VStr h)) ls).

(** The effect of [usePromptHistory] when the component mounts:
    [if (storedHistory) setHistory(JSON.parse(storedHistory))] inside [try].
    The parsed value is not checked, so the history is any value here. *)
Definition load_history (key : str) (ls : Storage) (history : JsValue) : JsValue :=
  match getItem key ls with
  | Some (c :: storedHistory) =>
      match parse (c :: storedHistory) with
      | Some v => v
      | None => history
      end
  | _ => history
  end.

(** *** Premium features *)

Definition tierLevels (t : SubscriptionTier) : N :=
  match t with free => 0 | silver => 1 | golden => 2 | diamond => 3 end.

(** Which of its two callbacks [handlePremiumFeature] invokes. *)
Inductive Invoked := InvokedAction | InvokedPromptUpgrade.

Definition premium_branch (current requiredTier : SubscriptionTier) : Invoked :=
  if tierLevels current <? tierLevels requiredTier
  then InvokedPromptUpgrade else InvokedAction.

(** [handlePremiumFeature(requiredTier, action)]; the tier is that of the
    [App] state, [promptUpgrade] acts on the [App] state, the action on
    both. *)
Definition handlePremiumFeature (requiredTier : SubscriptionTier)
    (action : State * AppState -> State * AppState)
    (w : State * AppState) : State * AppState :=
  match premium_branch (subscriptionTier (snd w)) requiredTier with
  | InvokedPromptUpgrade => (fst w, promptUpgrade (snd w))
  | InvokedAction => action w
  end.

(** *** [handleSubmit] *)

(** What one submission reads from the environment. *)
Record SubmitEnv := {
  api : Api;
  fuel : nat;
  fileToBase64 : Promise ImagePayload;
  race : Side;
  save_env : SaveEnv;
  error_toast_id : str
}.

Record World := {
  component : State;
  app_state : AppState;
  storage : Storage;
  trace : list Event
}.

Definition currentSettings (s : State) : JsObj :=
  [ (lit "prompts", VArr [VStr (prompt s)]);
    (lit "negativePrompt", VStr (negativePrompt s));
    (lit "style", VStr (VideoStyle_str (style s)));
    (lit "duration", VStr (VideoDuration_str (duration s)));
    (lit "cameraMovement", VStr (CameraMovement_str (cameraMovement s)));
    (lit "quality", VStr (VideoQuality_str (quality s)));
    (lit "language", VStr (Language_str (language s)));
    (lit "framing", VStr (VideoFraming_str (framing s)));
    (lit "persona", VStr (AIPersona_str (persona s)));
    (lit "loop", VBool (loopVideo s));
    (lit "aspectRatio", VStr (AspectRatio_str (aspectRatio s)));
    (lit "fps", VNum (VideoFPS_str (fps s)));
    (lit "motionIntensity", VStr (Intensity_str (motionIntensity s)));
    (lit "audioMood", VStr (AudioMood_str (audioMood s))) ].

(** The [catch] block followed by the [finally] block. *)
Definition on_rejection (env : SubmitEnv) (err : Reason) (w : World) : World :=
  let errorMessage := message_or (lit "An unknown error occurred.") err in
  {| component := setIsLoading false (setError errorMessage (component w));
     app_state := addToast (error_toast_id env) errorMessage error (app_state w);
     storage := storage w;
     trace := trace w |}.

(** [{ type: 'VIDEO', src: videoResult, settings: currentSettings,
       audioSrc: audioResult || undefined }] *)
Definition saved_item (settings : JsObj) (videoResult : str)
    (audioResult : option str) : JsObj :=
  [ (lit "type", VStr (lit "VIDEO")); (lit "src", VStr videoResult);
    (lit "settings", VObj settings);
    (lit "audioSrc",
     match audioResult with
     | Some (c :: t) => VStr (c :: t)
     | _ => VUndefined
     end) ].

(** The rest of the [try] block after both results arrived, followed by
    the [finally] block. [audioResult] is [None] for [null]. *)
Definition on_results (env : SubmitEnv) (settings : JsObj)
    (videoResult : str) (audioResult : option str) (w : World) : World :=
  {| component := setIsLoading false
                    (setGenerated videoResult audioResult (component w));
     app_state := handleSaveToLibrary (save_env env)
                    (saved_item settings videoResult audioResult) (app_state w);
     storage := storage w;
     trace := trace w |}.

Definition emit (evs : list Event) (w : World) : World :=
  {| component := component w; app_state := app_state w; storage := storage w;
     trace := trace w ++ evs |}.

(** [audioMood !== 'none' ? generateSoundEffect(...) : Promise.resolve(null)];
    [None] is the [null] result. *)
Definition soundtrack (m : AudioMood) : Call (option str) :=
  match m with
  | am_none => {| issued := []; later := []; result := Fulfilled None |}
  | _ =>
      let c :=
        generateSoundEffect
          (lit "A soundtrack for a video with an " ++ quoted (audioMood_label m)
           ++ lit " mood")
          (AudioMood_str m) in
      {| issued := issued c; later := later c;
         result := match result c with
                   | Fulfilled a => Fulfilled (Some a)
                   | Rejected e => Rejected e
                   | Pending => Pending
                   end |}
  end.

(** The image sent with the request when the submission passes the two
    checks and the file, if one is needed, was read: [Some None] without an
    image, [Some (Some p)] with the payload [p]. *)
Definition ready (env : SubmitEnv) (s : State) : option (option ImagePayload) :=
  if negb (truthy (prompt s)) then None
  else
    match mode s, imageFile s with
    | image_to_video, None => None
    | image_to_video, Some _ =>
        match fileToBase64 env with Fulfilled p => Some (Some p) | _ => None end
    | text_to_video, _ => Some None
    end.

Definition file_events (s : State) : list Event :=
  match mode s, imageFile s with
  | image_to_video, Some _ => [EvFileToBase64]
  | _, _ => []
  end.

(** The call [handleSubmit] makes to [generateVideo]. *)
Definition video_call (env : SubmitEnv) (s : State) (image : option ImagePayload)
    : Call str :=
  generateVideo (api env) (fuel env) (prompt s) image (style s)
    (negativePrompt s) (duration s) (cameraMovement s) (quality s)
    (language s) (framing s) (persona s) (loopVideo s) (aspectRatio s)
    (fps s) (motionIntensity s) (audioMood s).

(** [handleSubmit].  The events of the two requests are recorded with both
    issued before [Promise.all] is awaited.  [None]: an awaited promise
    never settles, the handler never resumes. *)
Definition handleSubmit (env : SubmitEnv) (w : World) : option World :=
  let s := component w in
  if negb (truthy (prompt s)) then
    Some {| component := setError (lit "A prompt is required to generate a video.") s;
            app_state := app_state w; storage := storage w; trace := trace w |}
  else if match mode s, imageFile s with image_to_video, None => true | _, _ => false end then
    Some {| component := setError (lit "An image is required for image-to-video generation.") s;
            app_state := app_state w; storage := storage w; trace := trace w |}
  else
    let settings := currentSettings s in
    let (history, ls) :=
      addPromptToHistory HISTORY_KEY (prompt s) (promptHistory s) (storage w) in
    let w1 := {| component := begin_submit settings history s; app_state := app_state w;
                 storage := ls; trace := trace w |} in
    let payload : World * Promise (option ImagePayload) :=
      match mode s, imageFile s with
      | image_to_video, Some _ =>
          (emit [EvFileToBase64] w1,
           match fileToBase64 env with
           | Fulfilled p => Fulfilled (Some p)
           | Rejected e => Rejected e
           | Pending => Pending
           end)
      | _, _ => (w1, Fulfilled None)
      end in
    let (w2, imagePayload) := payload in
    match imagePayload with
    | Pending => None
    | Rejected e => Some (on_rejection env e w2)
    | Fulfilled image =>
        let videoPromise :=
          generateVideo (api env) (fuel env) (prompt s) image (style s)
            (negativePrompt s) (duration s) (cameraMovement s) (quality s)
            (language s) (framing s) (persona s) (loopVideo s) (aspectRatio s)
            (fps s) (motionIntensity s) (audioMood s) in
        let audioPromise := soundtrack (audioMood s) in
        let w3 :=
          emit (issued videoPromise ++ issued audioPromise ++ [EvPromiseAll]
                ++ later videoPromise ++ later audioPromise) w2 in
        match Promise_all2 (race env) (result videoPromise) (result audioPromise) with
        | Pending => None
        | Rejected e => Some (on_rejection env e w3)
        | Fulfilled (videoResult, audioResult) =>
            Some (on_results env settings videoResult audioResult w3)
        end
    end.

(** *** The other handlers of the form *)

Definition setMode (v : VideoToolMode) (s : State) : State :=
  {| mode := v; prompt := prompt s; negativePrompt := negativePrompt s;
     style := style s; duration := duration s;
     cameraMovement := cameraMovement s; quality := quality s;
     language := language s; framing := framing s; persona := persona s;
     loopVideo := loopVideo s; aspectRatio := aspectRatio s; fps := fps s;
     motionIntensity := motionIntensity s; audioMood := audioMood s;
     imageFile := imageFile s; generatedVideo := generatedVideo s;
     generatedAudio := generatedAudio s; isLoading := isLoading s;
     error_state := error_state s; loadingMessage := loadingMessage s;
     lastSettings := lastSettings s; promptHistory := promptHistory s |}.

Definition setNegativePrompt (v : str) (s : State) : State :=
  {| mode := mode s; prompt := prompt s; negativePrompt := v;
     style := style s; duration := duration s;
     cameraMovement := cameraMovement s; quality := quality s;
     language := language s; framing := framing s; persona := persona s;
     loopVideo := loopVideo s; aspectRatio := aspectRatio s; fps := fps s;
     motionIntensity := motionIntensity s; audioMood := audioMood s;
     imageFile := imageFile s; generatedVideo := generatedVideo s;
     generatedAudio := generatedAudio s; isLoading := isLoading s;
     error_state := error_state s; loadingMessage := loadingMessage s;
     lastSettings := lastSettings s; promptHistory := promptHistory s |}.

Definition setStyle (v : VideoStyle) (s : State) : State :=
  {| mode := mode s; prompt := prompt s; negativePrompt := negativePrompt s;
     style := v; duration := duration s; cameraMovement := cameraMovement s;
     quality := quality s; language := language s; framing := framing s;
     persona := persona s; loopVideo := loopVideo s;
     aspectRatio := aspectRatio s; fps := fps s;
     motionIntensity := motionIntensity s; audioMood := audioMood s;
     imageFile := imageFile s; generatedVideo := generatedVideo s;
     generatedAudio := generatedAudio s; isLoading := isLoading s;
     error_state := error_state s; loadingMessage := loadingMessage s;
     lastSettings := lastSettings s; promptHistory := promptHistory s |}.

Definition setCameraMovement (v : CameraMovement) (s : State) : State :=
  {| mode := mode s; prompt := prompt s; negativePrompt := negativePrompt s;
     style := style s; duration := duration s; cameraMovement := v;
     quality := quality s; language := language s; framing := framing s;
     persona := persona s; loopVideo := loopVideo s;
     aspectRatio := aspectRatio s; fps := fps s;
     motionIntensity := motionIntensity s; audioMood := audioMood s;
     imageFile := imageFile s; generatedVideo := generatedVideo s;
     generatedAudio := generatedAudio s; isLoading := isLoading s;
     error_state := error_state s; loadingMessage := loadingMessage s;
     lastSettings := lastSettings s; promptHistory := promptHistory s |}.

Definition setQuality (v : VideoQuality) (s : State) : State :=
  {| mode := mode s; prompt := prompt s; negativePrompt := negativePrompt s;
     style := style s; duration := duration s;
     cameraMovement := cameraMovement s; quality := v;
     language := language s; framing := framing s; persona := persona s;
     loopVideo := loopVideo s; aspectRatio := aspectRatio s; fps := fps s;
     motionIntensity := motionIntensity s; audioMood := audioMood s;
     imageFile := imageFile s; generatedVideo := generatedVideo s;
     generatedAudio := generatedAudio s; isLoading := isLoading s;
     error_state := error_state s; loadingMessage := loadingMessage s;
     lastSettings := lastSettings s; promptHistory := promptHistory s |}.

Definition setLanguage (v : Language) (s : State) : State :=
  {| mode := mode s; prompt := prompt s; negativePrompt := negativePrompt s;
     style := style s; duration := duration s;
     cameraMovement := cameraMovement s; quality := quality s; language := v;
     framing := framing s; persona := persona s; loopVideo := loopVideo s;
     aspectRatio := aspectRatio s; fps := fps s;
     motionIntensity := motionIntensity s; audioMood := audioMood s;
     imageFile := imageFile s; generatedVideo := generatedVideo s;
     generatedAudio := generatedAudio s; isLoading := isLoading s;
     error_state := error_state s; loadingMessage := loadingMessage s;
     lastSettings := lastSettings s; promptHistory := promptHistory s |}.

Definition setFraming (v : VideoFraming) (s : State) : State :=
  {| mode := mode s; prompt := prompt s; negativePrompt := negativePrompt s;
     style := style s; duration := duration s;
     cameraMovement := cameraMovement s; quality := quality s;
     language := language s; framing := v; persona := persona s;
     loopVideo := loopVideo s; aspectRatio := aspectRatio s; fps := fps s;
     motionIntensity := motionIntensity s; audioMood := audioMood s;
     imageFile := imageFile s; generatedVideo := generatedVideo s;
     generatedAudio := generatedAudio s; isLoading := isLoading s;
     error_state := error_state s; loadingMessage := loadingMessage s;
     lastSettings := lastSettings s; promptHistory := promptHistory s |}.

Definition setPersona (v : AIPersona) (s : State) : State :=
  {| mode := mode s; prompt := prompt s; negativePrompt := negativePrompt s;
     style := style s; duration := duration s;
     cameraMovement := cameraMovement s; quality := quality s;
     language := language s; framing := framing s; persona := v;
     loopVideo := loopVideo s; aspectRatio := aspectRatio s; fps := fps s;
     motionIntensity := motionIntensity s; audioMood := audioMood s;
     imageFile := imageFile s; generatedVideo := generatedVideo s;
     generatedAudio := generatedAudio s; isLoading := isLoading s;
     error_state := error_state s; loadingMessage := loadingMessage s;
     lastSettings := lastSettings s; promptHistory := promptHistory s |}.

Definition setLoopVideo (v : bool) (s : State) : State :=
  {| mode := mode s; prompt := prompt s; negativePrompt := negativePrompt s;
     style := style s; duration := duration s;
     cameraMovement := cameraMovement s; quality := quality s;
     language := language s; framing := framing s; persona := persona s;
     loopVideo := v; aspectRatio := aspectRatio s; fps := fps s;
     motionIntensity := motionIntensity s; audioMood := audioMood s;
     imageFile := imageFile s; generatedVideo := generatedVideo s;
     generatedAudio := generatedAudio s; isLoading := isLoading s;
     error_state := error_state s; loadingMessage := loadingMessage s;
     lastSettings := lastSettings s; promptHistory := promptHistory s |}.

Definition setAspectRatio (v : AspectRatio) (s : State) : State :=
  {| mode := mode s; prompt := prompt s; negativePrompt := negativePrompt s;
     style := style s; duration := duration s;
     cameraMovement := cameraMovement s; quality := quality s;
     language := language s; framing := framing s; persona := persona s;
     loopVideo := loopVideo s; aspectRatio := v; fps := fps s;
     motionIntensity := motionIntensity s; audioMood := audioMood s;
     imageFile := imageFile s; generatedVideo := generatedVideo s;
     generatedAudio := generatedAudio s; isLoading := isLoading s;
     error_state := error_state s; loadingMessage := loadingMessage s;
     lastSettings := lastSettings s; promptHistory := promptHistory s |}.

Definition setFps (v : VideoFPS) (s : State) : State :=
  {| mode := mode s; prompt := prompt s; negativePrompt := negativePrompt s;
     style := style s; duration := duration s;
     cameraMovement := cameraMovement s; quality := quality s;
     language := language s; framing := framing s; persona := persona s;
     loopVideo := loopVideo s; aspectRatio := aspectRatio s; fps := v;
     motionIntensity := motionIntensity s; audioMood := audioMood s;
     imageFile := imageFile s; generatedVideo := generatedVideo s;
     generatedAudio := generatedAudio s; isLoading := isLoading s;
     error_state := error_state s; loadingMessage := loadingMessage s;
     lastSettings := lastSettings s; promptHistory := promptHistory s |}.

Definition setMotionIntensity (v : Intensity) (s : State) : State :=
  {| mode := mode s; prompt := prompt s; negativePrompt := negativePrompt s;
     style := style s; duration := duration s;
     cameraMovement := cameraMovement s; quality := quality s;
     language := language s; framing := framing s; persona := persona s;
     loopVideo := loopVideo s; aspectRatio := aspectRatio s; fps := fps s;
     motionIntensity := v; audioMood := audioMood s;
     imageFile := imageFile s; generatedVideo := generatedVideo s;
     generatedAudio := generatedAudio s; isLoading := isLoading s;
     error_state := error_state s; loadingMessage := loadingMessage s;
     lastSettings := lastSettings s; promptHistory := promptHistory s |}.

Definition setImageFile (v : option File) (s : State) : State :=
  {| mode := mode s; prompt := prompt s; negativePrompt := negativePrompt s;
     style := style s; duration := duration s;
     cameraMovement := cameraMovement s; quality := quality s;
     language := language s; framing := framing s; persona := persona s;
     loopVideo := loopVideo s; aspectRatio := aspectRatio s; fps := fps s;
     motionIntensity := motionIntensity s; audioMood := audioMood s;
     imageFile := v; generatedVideo := generatedVideo s;
     generatedAudio := generatedAudio s; isLoading := isLoading s;
     error_state := error_state s; loadingMessage := loadingMessage s;
     lastSettings := lastSettings s; promptHistory := promptHistory s |}.

Definition setLoadingMessage (v : str) (s : State) : State :=
  {| mode := mode s; prompt := prompt s; negativePrompt := negativePrompt s;
     style := style s; duration := duration s;
     cameraMovement := cameraMovement s; quality := quality s;
     language := language s; framing := framing s; persona := persona s;
     loopVideo := loopVideo s; aspectRatio := aspectRatio s; fps := fps s;
     motionIntensity := motionIntensity s; audioMood := audioMood s;
     imageFile := imageFile s; generatedVideo := generatedVideo s;
     generatedAudio := generatedAudio s; isLoading := isLoading s;
     error_state := error_state s; loadingMessage := v;
     lastSettings := lastSettings s; promptHistory := promptHistory s |}.

(** The component after the setters of [resetForm], those of [clearImage]
    among them: the mode, the loading flag and message, the last settings
    and the history are not set. *)
Definition reset_state (s : State) : State :=
  {| mode := mode s; prompt := []; negativePrompt := []; style := vs_none;
     duration := d_short; cameraMovement := cm_none; quality := q_standard;
     language := english; framing := fr_none; persona := p_cinematographer;
     loopVideo := false; aspectRatio := ar_1_1; fps := fps24;
     motionIntensity := balanced; audioMood := am_none; imageFile := None;
     generatedVideo := None; generatedAudio := None;
     isLoading := isLoading s; error_state := None;
     loadingMessage := loadingMessage s; lastSettings := lastSettings s;
     promptHistory := promptHistory s |}.

(** **** The options on offer and what each requires *)

Definition aspectRatio_premium (a : AspectRatio) : bool :=
  match a with
  | ar_16_9 | ar_9_16 => true
  | ar_1_1 | ar_4_3 | ar_3_4 => false
  end.

Definition videoFPS_premium (f : VideoFPS) : bool :=
  match f with fps24 => false | fps30 | fps60 => true end.

Definition videoQuality_premium (q : VideoQuality) : bool :=
  match q with q_standard => false | q_high => true end.

Definition videoDuration_premium (d : VideoDuration) : SubscriptionTier :=
  match d with
  | d_short => free | d_medium => silver | d_long => golden
  | d_one_minute => diamond | d_three_minute => diamond
  end.

(** [personas.find(p => p.id === id)]: the tier of the entry, [None] when
    the table has no entry for the id. *)
Definition persona_premium (p : AIPersona) : option SubscriptionTier :=
  match p with
  | p_none => Some free
  | p_cinematographer => Some silver
  | p_vfx_artist => Some golden
  | p_concept_artist => Some golden
  | p_wildlife_photographer => Some diamond
  | p_sci_fi_artist => Some diamond
  | _ => None
  end.

(** **** The loading messages *)

Definition LOADING_MESSAGES : list str :=
  [ LOADING_MESSAGES_0;
    lit "Assembling pixels into scenes...";
    lit "Rendering cinematic magic...";
    lit "This can take a few minutes, patience is a virtue...";
    lit "Applying final visual effects...";
    lit "Almost there, preparing your epic video..." ].

(** [array.indexOf(x)]: the first index whose element is [x], or -1. *)
Fixpoint indexOf_from (x : str) (l : list str) (i : Z) : Z :=
  match l with
  | [] => (-1)%Z
  | y :: l' => if str_eqb y x then i else indexOf_from x l' (i + 1)%Z
  end.

Definition indexOf (x : str) (l : list str) : Z := indexOf_from x l 0%Z.

(** The update that the timer makes every 4000 ms while [isLoading]:
    [LOADING_MESSAGES[(currentIndex + 1) % LOADING_MESSAGES.length]].  The
    index is within the array; [nth]'s default stands for the [undefined]
    of an index that is not. *)
Definition nextLoadingMessage (prev : str) : str :=
  let currentIndex := indexOf prev LOADING_MESSAGES in
  nth (Z.to_nat (Z.rem (currentIndex + 1) (Z.of_nat (List.length LOADING_MESSAGES))))
    LOADING_MESSAGES [].

Definition tick (s : State) : State :=
  setLoadingMessage (nextLoadingMessage (loadingMessage s)) s.

(** [isLoading || !prompt || (mode === 'image-to-video' && !imageFile)] *)
Definition isSubmitDisabled (s : State) : bool :=
  isLoading s || negb (truthy (prompt s))
  || match mode s, imageFile s with
     | image_to_video, None => true
     | _, _ => false
     end.

(** **** The form with its preview and the [App] state it acts on *)

Record UI := {
  ui_component : State;
  imagePreview : option str;
  ui_app : AppState
}.

Definition on_component (f : State -> State) (u : UI) : UI :=
  {| ui_component := f (ui_component u); imagePreview := imagePreview u;
     ui_app := ui_app u |}.

(** [handlePremiumFeature(requiredTier, () => setX(v))] *)
Definition gated (requiredTier : SubscriptionTier) (f : State -> State) (u : UI) : UI :=
  let w := handlePremiumFeature requiredTier (fun w => (f (fst w), snd w))
             (ui_component u, ui_app u) in
  {| ui_component := fst w; imagePreview := imagePreview u; ui_app := snd w |}.

(** [s.startsWith(prefix)] *)
Fixpoint startsWith (prefix s : str) : bool :=
  match prefix, s with
  | [], _ => true
  | a :: prefix', b :: s' => (a =? b) && startsWith prefix' s'
  | _ :: _, [] => false
  end.

(** [handleFileSelect(file)]; the URL is the one that
    [URL.createObjectURL(file)] mints. *)
Definition handleFileSelect (toastId objectURL : str) (file : File) (u : UI) : UI :=
  if startsWith (lit "image/") (file_type file) then
    {| ui_component := setImageFile (Some file) (ui_component u);
       imagePreview := Some objectURL;
       ui_app := addToast toastId (lit "Image loaded successfully.") success (ui_app u) |}
  else
    {| ui_component := setError (lit "Please select a valid image file.") (ui_component u);
       imagePreview := imagePreview u;
       ui_app := addToast toastId (lit "Invalid file type.") error (ui_app u) |}.

(** [clearImage]; the value of the file input, which it also empties,
    is not part of the model. *)
Definition clearImage (u : UI) : UI :=
  {| ui_component := setImageFile None (ui_component u); imagePreview := None;
     ui_app := ui_app u |}.

Definition resetForm (u : UI) : UI :=
  {| ui_component := reset_state (ui_component u); imagePreview := None;
     ui_app := ui_app u |}.

(** [handleCopy], without the [copied] flag.  Where the browser has no
    [navigator.clipboard] the first statement throws and nothing is set. *)
Definition handleCopy (toastId : str) (clipboard : bool) (u : UI) : UI :=
  if clipboard then
    {| ui_component := ui_component u; imagePreview := imagePreview u;
       ui_app := addToast toastId (lit "Prompt copied to clipboard!") success (ui_app u) |}
  else u.

(** The handlers of the form that run to completion when they are called,
    as the elements of the form call them, and the tick of the timer that
    runs while [isLoading]. *)
Inductive Action :=
| SetMode (m : VideoToolMode)
| SetPrompt (p : str)
| SetNegativePrompt (p : str)
| SelectPersona (p : AIPersona)
| SelectAspectRatio (a : AspectRatio)
| SelectFps (f : VideoFPS)
| SetLanguage (l : Language)
| SelectQuality (q : VideoQuality)
| SelectDuration (d : VideoDuration)
| SelectAudioMood (m : AudioMood)
| SetCameraMovement (c : CameraMovement)
| SelectMotionIntensity (i : Intensity)
| SetFraming (f : VideoFraming)
| SetStyle (v : VideoStyle)
| ToggleLoop
| FileSelect (toastId objectURL : str) (file : File)
| ClearImage
| ResetForm
| Copy (toastId : str) (clipboard : bool)
| Tick.

(** The persona select reads the tier from the table entry of the chosen
    id; for an id without an entry the handler throws before it sets
    anything. *)
Definition act (a : Action) (u : UI) : UI :=
  match a with
  | SetMode m => on_component (setMode m) u
  | SetPrompt p => on_component (setPrompt p) u
  | SetNegativePrompt p => on_component (setNegativePrompt p) u
  | SelectPersona p =>
      match persona_premium p with
      | Some requiredTier => gated requiredTier (setPersona p) u
      | None => u
      end
  | SelectAspectRatio a =>
      if aspectRatio_premium a then gated golden (setAspectRatio a) u
      else on_component (setAspectRatio a) u
  | SelectFps f =>
      if videoFPS_premium f then gated golden (setFps f) u
      else on_component (setFps f) u
  | SetLanguage l => on_component (setLanguage l) u
  | SelectQuality q =>
      if videoQuality_premium q then gated golden (setQuality q) u
      else on_component (setQuality q) u
  | SelectDuration d => gated (videoDuration_premium d) (setDuration d) u
  | SelectAudioMood m => gated golden (setAudioMood m) u
  | SetCameraMovement c => on_component (setCameraMovement c) u
  | SelectMotionIntensity i => gated golden (setMotionIntensity i) u
  | SetFraming f => on_component (setFraming f) u
  | SetStyle v => on_component (setStyle v) u
  | ToggleLoop =>
      gated diamond (setLoopVideo (negb (loopVideo (ui_component u)))) u
  | FileSelect toastId objectURL file => handleFileSelect toastId objectURL file u
  | ClearImage => clearImage u
  | ResetForm => resetForm u
  | Copy toastId clipboard => handleCopy toastId clipboard u
  | Tick => if isLoading (ui_component u) then on_component tick u else u
  end.

Definition run (acts : list Action) (u : UI) : UI := fold_left (fun u a => act a u) acts u.

(** The component at its first render under an [App] state: every
    [useState] has its initial value.  The history that the mount effect of
    [usePromptHistory] loads after that render is [load_history]. *)
Definition mount (st : AppState) : UI :=
  {| ui_component := initial_state; imagePreview := None; ui_app := st |}.

(** What the tier allows among the settings behind [handlePremiumFeature];
    the persona on offer at the start is 'cinematographer' for every
    tier. *)
Definition allowed (t : SubscriptionTier) (s : State) : Prop :=
  tierLevels (videoDuration_premium (duration s)) <= tierLevels t
  /\ (aspectRatio_premium (aspectRatio s) = true -> tierLevels golden <= tierLevels t)
  /\ (videoFPS_premium (fps s) = true -> tierLevels golden <= tierLevels t)
  /\ (videoQuality_premium (quality s) = true -> tierLevels golden <= tierLevels t)
  /\ (audioMood s <> am_none -> tierLevels golden <= tierLevels t)
  /\ (motionIntensity s <> balanced -> tierLevels golden <= tierLevels t)
  /\ (loopVideo s = true -> tierLevels diamond <= tierLevels t)
  /\ (persona s = p_cinematographer
      \/ exists r, persona_premium (persona s) = Some r /\ tierLevels r <= tierLevels t).

(** Prompts added to the history one after the other. *)
Definition add_all (key : str) (prompts : list str) (hl : list str * Storage)
    : list str * Storage :=
  fold_left (fun hl p => addPromptToHistory key p (fst hl) (snd hl)) prompts hl.

End VideoGenerator.

Import VideoGenerator.

(** ** What [JSON.stringify] keeps of a value *)

(** ** [ImageTools]: the prompt fields and the checks of a submission *)

Module ImageTools.

Inductive ImageToolMode := text_to_image | image_transform.

(** The part of the component's state that the prompt fields, the upload
    and the checks of [handleSubmit] read and write. *)
Record Form := {
  mode : ImageToolMode;
  prompts : list str;
  imageFile : option File;
  isLoading : bool;
  error_state : option str
}.

(** The initial values of the [useState] calls. *)
Definition initial_form : Form :=
  {| mode := text_to_image; prompts := [[]]; imageFile := None;
     isLoading := false; error_state := None |}.

Definition setMode (m : ImageToolMode) (f : Form) : Form :=
  {| mode := m; prompts := prompts f; imageFile := imageFile f;
     isLoading := isLoading f; error_state := error_state f |}.

Definition setPrompts (ps : list str) (f : Form) : Form :=
  {| mode := mode f; prompts := ps; imageFile := imageFile f;
     isLoading := isLoading f; error_state := error_state f |}.

Definition setImageFile (file : option File) (f : Form) : Form :=
  {| mode := mode f; prompts := prompts f; imageFile := file;
     isLoading := isLoading f; error_state := error_state f |}.

Definition setError (e : option str) (f : Form) : Form :=
  {| mode := mode f; prompts := prompts f; imageFile := imageFile f;
     isLoading := isLoading f; error_state := e |}.

(** [handlePromptChange(index, value)], called from the text area of an
    existing field: the copy of the array with [value] at [index]. *)
Definition handlePromptChange (index : nat) (value : str) (f : Form) : Form :=
  setPrompts (<[index := value]> (prompts f)) f.

(** [prompts.filter((_, i) => i !== index)] *)
Definition removePromptField (index : nat) (f : Form) : Form :=
  setPrompts (delete index (prompts f)) f.

(** [addPromptField]: [handlePremiumFeature('diamond', () =>
    setPrompts([...prompts, '']))], on the form and the [App] state. *)
Definition addPromptField (w : Form * AppState) : Form * AppState :=
  match premium_branch (subscriptionTier (snd w)) diamond with
  | InvokedPromptUpgrade => (fst w, promptUpgrade (snd w))
  | InvokedAction => (setPrompts (prompts (fst w) ++ [[]]) (fst w), snd w)
  end.

(** [p.trim() === ''] *)
Definition blank (p : str) : bool := str_eqb (trim p) [].

(** [prompts.filter(p => p.trim() !== '')] *)
Definition validPrompts (f : Form) : list str :=
  List.filter (fun p => negb (blank p)) (prompts f).

(** The check at the start of [handleSubmit]:
    [validPrompts.length === 0 || (mode === 'image-transform' && !imageFile)]. *)
Definition submit_rejected (f : Form) : bool :=
  (List.length (validPrompts f) =? 0)%nat
  || match mode f, imageFile f with
     | image_transform, None => true
     | _, _ => false
     end.

(** What [handleSubmit] does when the check fails. *)
Definition rejected_submit (f : Form) : Form :=
  setError (Some (lit "A valid prompt and image (for transform) are required.")) f.

(** [isLoading || prompts.every(p => p.trim() === '')
     || (mode === 'image-transform' && !imageFile)] *)
Definition isSubmitDisabled (f : Form) : bool :=
  isLoading f || forallb blank (prompts f)
  || match mode f, imageFile f with
     | image_transform, None => true
     | _, _ => false
     end.

(** The events of the prompt fields, of the mode buttons, of the history
    list, of the upload and of the reset button.  A button that is not
    rendered cannot be clicked: a field has its remove button when there is
    more than one field, the add button shows in text-to-image mode below
    three fields, a text area exists for each field. *)
Inductive Event :=
| ClickTextToImage
| ClickImageTransform
| TypePrompt (index : nat) (value : str)
| ClickAddPrompt
| ClickRemovePrompt (index : nat)
| PickFromHistory (p : str)
| SelectFile (toastId : str) (file : File)
| ClearImage
| ResetForm.

Definition on_event (e : Event) (w : Form * AppState) : Form * AppState :=
  let f := fst w in
  match e with
  | ClickTextToImage => (setMode text_to_image f, snd w)
  | ClickImageTransform => (setPrompts [[]] (setMode image_transform f), snd w)
  | TypePrompt index value =>
      if (index <? List.length (prompts f))%nat
      then (handlePromptChange index value f, snd w) else w
  | ClickAddPrompt =>
      match mode f with
      | text_to_image =>
          if (List.length (prompts f) <? 3)%nat then addPromptField w else w
      | image_transform => w
      end
  | ClickRemovePrompt index =>
      if ((1 <? List.length (prompts f)) && (index <? List.length (prompts f)))%nat
      then (removePromptField index f, snd w) else w
  | PickFromHistory p => (setPrompts [p] f, snd w)
  | SelectFile toastId file =>
      if startsWith (lit "image/") (file_type file)
      then (setImageFile (Some file) f,
            addToast toastId (lit "Image loaded successfully.") success (snd w))
      else (setError (Some (lit "Please select a valid image file.")) f,
            addToast toastId (lit "Invalid file type.") error (snd w))
  | ClearImage => (setImageFile None f, snd w)
  | ResetForm => (setError None (setImageFile None (setPrompts [[]] f)), snd w)
  end.

Definition run_events (es : list Event) (w : Form * AppState) : Form * AppState :=
  fold_left (fun w e => on_event e w) es w.

End ImageTools.

(** ** [Profile]: counts and achievements *)

Module Profile.

Definition imageCount (libraryItems : list JsObj) : nat :=
  List.length
    (List.filter (fun item => strict_eq_str (obj_get (lit "type") item) (lit "IMAGE"))
       libraryItems).

Definition videoCount (libraryItems : list JsObj) : nat :=
  List.length
    (List.filter (fun item => strict_eq_str (obj_get (lit "type") item) (lit "VIDEO"))
       libraryItems).

Record Achievements := {
  first_creation : bool;
  video_virtuoso : bool;
  image_imitator : bool;
  diamond_club : bool;
  power_user : bool
}.

Definition achievements (subscriptionTier : SubscriptionTier)
    (libraryItems : list JsObj) : Achievements :=
  {| first_creation := (0 <? List.length libraryItems)%nat;
     video_virtuoso := (10 <=? videoCount libraryItems)%nat;
     image_imitator := (25 <=? imageCount libraryItems)%nat;
     diamond_club := match subscriptionTier with diamond => true | _ => false end;
     power_user := (50 <=? List.length libraryItems)%nat |}.

End Profile.

Module JsonShape.

(** Structural recursion over a value and the values inside it. *)
Fixpoint JsValue_induction (P : JsValue -> Prop)
    (Hundefined : P VUndefined) (Hnull : P VNull)
    (Hbool : forall b, P (VBool b)) (Hnum : forall l, P (VNum l))
    (Hstr : forall s, P (VStr s))
    (Harr : forall items, List.Forall P items -> P (VArr items))
    (Hobj : forall fields, List.Forall (fun f => P (snd f)) fields -> P (VObj fields))
    (v : JsValue) {struct v} : P v :=
  match v with
  | VUndefined => Hundefined
  | VNull => Hnull
  | VBool b => Hbool b
  | VNum l => Hnum l
  | VStr s => Hstr s
  | VArr items =>
      Harr items
        ((fix go (l : list JsValue) : List.Forall P l :=
            match l with
            | [] => @List.Forall_nil _ P
            | x :: l' =>
                @List.Forall_cons _ P x l'
                  (JsValue_induction P Hundefined Hnull Hbool Hnum Hstr Harr Hobj x)
                  (go l')
            end) items)
  | VObj fields =>
      Hobj fields
        ((fix go (l : list (str * JsValue)) : List.Forall (fun f => P (snd f)) l :=
            match l with
            | [] => @List.Forall_nil _ (fun f => P (snd f))
            | f :: l' =>
                @List.Forall_cons _ (fun f => P (snd f)) f l'
                  (JsValue_induction P Hundefined Hnull Hbool Hnum Hstr Harr Hobj (snd f))
                  (go l')
            end) fields)
  end.

Definition is_undefined (v : JsValue) : bool :=
  match v with VUndefined => true | _ => false end.

(** The value that [JSON.parse] gives back for the text of a value: a
    property whose value is [undefined] is left out, an [undefined] array
    element becomes [null]. *)
Fixpoint json_normal (v : JsValue) : JsValue :=
  match v with
  | VArr items =>
      VArr (List.map (fun x => if is_undefined x then VNull else json_normal x) items)
  | VObj fields =>
      VObj (List.flat_map
              (fun f => if is_undefined (snd f) then []
                        else [(fst f, json_normal (snd f))]) fields)
  | _ => v
  end.

(** A number literal: the whole of it is one JSON number. *)
Definition is_number_literal (l : str) : bool :=
  match parse_number l with
  | Some (_, []) => true
  | _ => false
  end.

Fixpoint distinct (keys : list str) : bool :=
  match keys with
  | [] => true
  | k :: ks => negb (existsb (str_eqb k) ks) && distinct ks
  end.

(** An integer of at most fifteen digits, which JavaScript prints digit by
    digit; [-0] is printed as [0]. *)
Definition printed_integer (l : str) : bool :=
  let digits := match l with 45 :: d => d | _ => l end in
  forallb is_digit digits && (List.length digits <=? 15)%nat
  && negb (str_eqb l (lit "-0")).

(** A property name that is not an array index: an object lists such names
    in the order they were added. *)
Definition plain_key (k : str) : bool :=
  match k with
  | c :: _ => negb (is_digit c)
  | [] => true
  end.

(** Values as the application holds them: a number is an integer written
    as JavaScript prints it, the property names of an object are distinct
    and none is an array index. *)
Fixpoint json_safe (v : JsValue) : bool :=
  match v with
  | VNum l => is_number_literal l && printed_integer l
  | VArr items => forallb json_safe items
  | VObj fields =>
      forallb plain_key (List.map fst fields)
      && distinct (List.map fst fields)
      && forallb (fun f => json_safe (snd f)) fields
  | _ => true
  end.

(** Values that [JSON.parse] can return: every number is a number literal
    and the property names of an object are distinct. *)
Fixpoint json_wf (v : JsValue) : bool :=
  match v with
  | VNum l => is_number_literal l
  | VArr items => forallb json_wf items
  | VObj fields =>
      distinct (List.map fst fields)
      && forallb (fun f => json_wf (snd f)) fields
  | _ => true
  end.

(** Fuel that parsing the text of a value takes. *)
Fixpoint json_size (v : JsValue) : nat :=
  match v with
  | VArr items => S (list_sum (List.map (fun x => S (json_size x)) items))
  | VObj fields =>
      S (list_sum (List.map (fun f => if is_undefined (snd f) then O
                                      else S (json_size (snd f))) fields))
  | _ => 1
  end.

(** What may follow a value inside a JSON text. *)
Definition delimited (rest : str) : Prop :=
  match rest with
  | [] => True
  | c :: _ => c = 44 \/ c = 93 \/ c = 125
  end.

(** The text of an array element and of an object member in
    [JSON.stringify]. *)
Definition elem_text (x : JsValue) : str :=
  match stringify x with Some t => t | None => lit "null" end.

Definition member_texts (f : str * JsValue) : list str :=
  match stringify (snd f) with
  | Some t => [quote (fst f) ++ lit ":" ++ t]
  | None => []
  end.

(** The three optional parts of a number, as [parse_number] scans them. *)
Definition number_sign (s : str) : str * str :=
  match s with
  | c :: s' => if c =? 45 then ([c], s') else ([], s)
  | [] => ([], s)
  end.

Definition number_frac (s2 : str) : option (str * str) :=
  match s2 with
  | c :: s' =>
      if c =? 46 then
        let (f, r) := take_digits s' in
        match f with [] => None | _ => Some (c :: f, r) end
      else Some ([], s2)
  | [] => Some ([], s2)
  end.

Definition number_exp (s3 : str) : option (str * str) :=
  match s3 with
  | c :: s' =>
      if (c =? 101) || (c =? 69) then
        let (sg, s4) :=
          match s' with
          | g :: s'' =>
              if (g =? 43) || (g =? 45) then ([g], s'') else ([], s')
          | [] => ([], s')
          end in
        let (e, r) := take_digits s4 in
        match e with [] => None | _ => Some (c :: sg ++ e, r) end
      else Some ([], s3)
  | [] => Some ([], s3)
  end.

(** The element that [JSON.parse] gives back for an array element. *)
Definition elem_normal (x : JsValue) : JsValue :=
  if is_undefined x then VNull else json_normal x.

Definition kept (f : str * JsValue) : bool := negb (is_undefined (snd f)).

Definition member_text (f : str * JsValue) : str :=
  quote (fst f) ++ lit ":" ++ elem_text (snd f).

Definition member_normal (f : str * JsValue) : str * JsValue :=
  (fst f, json_normal (snd f)).

(** An object as it is read back: [json_normal (VObj o)] is
    [VObj (item_normal o)]. *)
Definition item_normal (o : JsObj) : JsObj :=
  List.map member_normal (List.filter kept o).

(** Where a run of digits ends, and how an exponent starts. *)
Definition digits_end (r : str) : Prop :=
  match r with
  | c :: _ => is_digit c = false
  | [] => True
  end.

Definition exp_start (e : str) : Prop :=
  match e with
  | c :: _ => (c =? 101) || (c =? 69) = true
  | [] => True
  end.

(** A text whose first character starts a JSON value. *)
Definition starts_value (s : str) : Prop :=
  match s with
  | c :: _ => is_json_ws c = false /\ c <> 93
  | [] => False
  end.

(** [v] is read back from its text, whatever delimiter follows. *)
Definition reads_back (v : JsValue) : Prop :=
  json_wf v = true ->
  forall text, stringify v = Some text ->
  forall fuel rest, (json_size v <= fuel)%nat -> delimited rest ->
  parse_value fuel (text ++ rest) = Some (json_normal v, rest).

End JsonShape.

Import JsonShape.

(** ** The settings: [App.tsx] with its settings state and [Settings] *)

Module AppSettings.

Inductive Theme := studio_dark | crimson | cyberpunk.

Definition Theme_str (t : Theme) : str :=
  match t with
  | studio_dark => lit "studio-dark" | crimson => lit "crimson"
  | cyberpunk => lit "cyberpunk"
  end.

Inductive NotificationKey := generationComplete | promotions.

Definition NotificationKey_str (k : NotificationKey) : str :=
  match k with
  | generationComplete => lit "generationComplete"
  | promotions => lit "promotions"
  end.

(** The settings of the type [AppSettings], as the object they are. *)
Definition settings_value (theme : Theme) (complete promo : bool) : JsValue :=
  VObj [ (lit "theme", VStr (Theme_str theme));
         (lit "notifications",
          VObj [ (lit "generationComplete", VBool complete);
                 (lit "promotions", VBool promo) ]) ].

Definition defaultSettings : JsValue := settings_value studio_dark true true.

(** The own properties that [{...v}] copies: those of an object, the
    elements of an array and the code units of a string under their
    indices, none of any other value. *)
Fixpoint indexed (i : nat) (items : list JsValue) : JsObj :=
  match items with
  | [] => []
  | x :: rest => (Clock.dec (Z.of_nat i), x) :: indexed (S i) rest
  end.

Definition spread (v : JsValue) : JsObj :=
  match v with
  | VObj o => o
  | VArr items => indexed 0 items
  | VStr s => indexed 0 (List.map (fun c => VStr [c]) s)
  | _ => []
  end.

Inductive SettingName := name_theme | name_notifications.

Definition SettingName_str (n : SettingName) : str :=
  match n with
  | name_theme => lit "theme" | name_notifications => lit "notifications"
  end.

(** [v.theme] and [v.notifications]; [None] is the [TypeError] of reading
    a property of [null] or [undefined]. *)
Definition read (v : JsValue) (n : SettingName) : option JsValue :=
  match v with
  | VUndefined | VNull => None
  | VObj o => Some (obj_get (SettingName_str n) o)
  | _ => Some VUndefined
  end.

(** [setSettings(s => ({...s, theme}))] *)
Definition handleThemeChange (theme : Theme) (s : JsValue) : JsValue :=
  VObj (obj_set (lit "theme") (VStr (Theme_str theme)) (spread s)).

(** [setSettings(s => ({...s, notifications: {...s.notifications, [key]: value}}))];
    [None] when the update throws. *)
Definition handleNotificationChange (key : NotificationKey) (value : bool)
    (s : JsValue) : option JsValue :=
  match read s name_notifications with
  | None => None
  | Some n =>
      Some (VObj (obj_set (lit "notifications")
                    (VObj (obj_set (NotificationKey_str key) (VBool value) (spread n)))
                    (spread s)))
  end.

(** The changes that the controls of [Settings] make, one after the
    other; an update that throws leaves the state. *)
Inductive Change :=
| ChangeTheme (theme : Theme)
| ChangeNotification (key : NotificationKey) (value : bool).

Definition apply_change (s : JsValue) (c : Change) : JsValue :=
  match c with
  | ChangeTheme theme => handleThemeChange theme s
  | ChangeNotification key value =>
      match handleNotificationChange key value s with
      | Some s' => s'
      | None => s
      end
  end.

Definition apply_changes (cs : list Change) (s : JsValue) : JsValue :=
  fold_left apply_change cs s.

(** *** Persistence *)

Definition SETTINGS_KEY : str := lit "creative-suite-settings".

Record Persisted := {
  p_libraryItems : JsValue;
  p_subscriptionTier : SubscriptionTier;
  p_settings : JsValue
}.

(** The start-up effect of this [App]: library, tier and settings are read
    inside one [try]; a [SyntaxError] ends the effect and keeps the updates
    made before it. *)
Definition load_effect (ls : Storage) (st : Persisted) : Persisted :=
  let after_library : option Persisted :=
    match getItem LIBRARY_KEY ls with
    | Some (c :: storedLibrary) =>
        match parse (c :: storedLibrary) with
        | Some v => Some {| p_libraryItems := v;
                            p_subscriptionTier := p_subscriptionTier st;
                            p_settings := p_settings st |}
        | None => None
        end
    | _ => Some st
    end in
  match after_library with
  | None => st
  | Some st1 =>
      let after_tier : option Persisted :=
        match getItem TIER_KEY ls with
        | Some (c :: storedTier) =>
            match parse (c :: storedTier) with
            | None => None
            | Some v =>
                match whitelisted v with
                | Some t => Some {| p_libraryItems := p_libraryItems st1;
                                    p_subscriptionTier := t;
                                    p_settings := p_settings st1 |}
                | None => Some st1
                end
            end
        | _ => Some st1
        end in
      match after_tier with
      | None => st1
      | Some st2 =>
          match getItem SETTINGS_KEY ls with
          | Some (c :: storedSettings) =>
              match parse (c :: storedSettings) with
              | Some v => {| p_libraryItems := p_libraryItems st2;
                             p_subscriptionTier := p_subscriptionTier st2;
                             p_settings := v |}
              | None => st2
              end
          | _ => st2
          end
      end
  end.

(** The text of a value in a template literal, for the values whose text
    the model has: not for numbers and arrays. *)
Definition to_text (v : JsValue) : option str :=
  match v with
  | VUndefined => Some (lit "undefined")
  | VNull => Some (lit "null")
  | VBool true => Some (lit "true")
  | VBool false => Some (lit "false")
  | VStr s => Some s
  | VObj _ => Some (lit "[object Object]")
  | VNum _ | VArr _ => None
  end.

(** The settings effect: the write of [JSON.stringify(settings)], then the
    class of the document body, both inside [try]: a refused write, and the
    [TypeError] of reading the theme of [null], leave the class as it was.
    [None]: the text of the theme is outside the model. *)
Definition save_settings_effect (settings : JsValue) (ls : Storage) (className : str)
    : option (Storage * str) :=
  let text := match stringify settings with Some t => t | None => lit "undefined" end in
  match setItem SETTINGS_KEY text ls with
  | Throw _ => Some (ls, className)
  | Ok ls' =>
      match read settings name_theme with
      | None => Some (ls', className)
      | Some theme =>
          match to_text theme with
          | Some t => Some (ls', lit "bg-black text-gray-300 theme-" ++ t)
          | None => None
          end
      end
  end.

(** *** Export and import *)

(** [JSON.stringify(v, null, gap)] for a gap that is not empty: members
    and elements on lines of their own, indented by one more gap than the
    value that holds them. *)
Fixpoint stringify_gap (gap indent : str) (v : JsValue) : option str :=
  match v with
  | VUndefined => None
  | VNull => Some (lit "null")
  | VBool true => Some (lit "true")
  | VBool false => Some (lit "false")
  | VNum l => Some l
  | VStr s => Some (quote s)
  | VArr items =>
      let inner := indent ++ gap in
      match items with
      | [] => Some (lit "[]")
      | _ :: _ =>
          Some (lit "[" ++ [10] ++ inner
                ++ join ([44; 10] ++ inner)
                     (List.map (fun x => match stringify_gap gap inner x with
                                         | Some t => t
                                         | None => lit "null"
                                         end) items)
                ++ [10] ++ indent ++ lit "]")
      end
  | VObj fields =>
      let inner := indent ++ gap in
      let partial :=
        List.flat_map
          (fun f => match stringify_gap gap inner (snd f) with
                    | Some t => [quote (fst f) ++ lit ": " ++ t]
                    | None => []
                    end) fields in
      match partial with
      | [] => Some (lit "{}")
      | _ :: _ =>
          Some (lit "{" ++ [10] ++ inner ++ join ([44; 10] ++ inner) partial
                ++ [10] ++ indent ++ lit "}")
      end
  end.

(** [JSON.stringify(settings, null, 2)] as the part of a [Blob]:
    [undefined] becomes the text "undefined". *)
Definition exported_text (settings : JsValue) : str :=
  match stringify_gap (lit "  ") [] settings with
  | Some t => t
  | None => lit "undefined"
  end.

(** What the browser does with the exported text: building the [Blob] and
    its URL and clicking the link may throw, and so may revoking the URL
    afterwards. *)
Record ExportEnv := {
  offer_download : str -> str -> Outcome unit;
  revokeObjectURL : Outcome unit;
  export_toast_id : str
}.

(** [handleExportSettings]: the download that was started, if any, as file
    name and text, and the [App] state with the toast. *)
Definition handleExportSettings (env : ExportEnv) (settings : JsValue) (app : AppState)
    : option (str * str) * AppState :=
  let name := lit "olivier-studio-settings.json" in
  let text := exported_text settings in
  let failed :=
    addToast (export_toast_id env) (lit "Failed to export settings.") error app in
  match offer_download env name text with
  | Throw _ => (None, failed)
  | Ok _ =>
      match revokeObjectURL env with
      | Throw _ => (Some (name, text), failed)
      | Ok _ =>
          (Some (name, text),
           addToast (export_toast_id env) (lit "Settings exported successfully!")
             success app)
      end
  end.

(** The digits of a number literal as a number, and the value
    [mantissa * 10 ^ exponent] that a JSON number literal denotes. *)
Definition digits_value (ds : str) : Z :=
  fold_left (fun acc c => (10 * acc + (Z.of_N c - 48))%Z) ds 0%Z.

Definition literal_parts (l : str) : Z * Z :=
  let (_, s1) := number_sign l in
  let (int, s2) := take_digits s1 in
  let (frac, s3) :=
    match s2 with
    | c :: s' => if c =? 46 then take_digits s' else ([], s2)
    | [] => ([], s2)
    end in
  let exp : Z :=
    match s3 with
    | c :: s' =>
        if (c =? 101) || (c =? 69) then
          match s' with
          | g :: s'' =>
              if g =? 45 then (- digits_value (fst (take_digits s'')))%Z
              else if g =? 43 then digits_value (fst (take_digits s''))
              else digits_value (fst (take_digits s'))
          | [] => 0%Z
          end
        else 0%Z
    | [] => 0%Z
    end in
  (digits_value (int ++ frac), (exp - Z.of_nat (List.length frac))%Z).

(** Whether the number that a literal is read as is not zero: the
    mantissa is not zero and the value does not round to zero, which the
    values up to 2^-1075, half the smallest positive number, do. *)
Definition number_truthy (l : str) : bool :=
  let (m, e) := literal_parts l in
  if (m =? 0)%Z then false
  else if (0 <=? e)%Z then true
  else (10 ^ (- e) <? m * 2 ^ 1075)%Z.

(** [ToBoolean]. *)
Definition truthy_value (v : JsValue) : bool :=
  match v with
  | VUndefined | VNull => false
  | VBool b => b
  | VNum l => number_truthy l
  | VStr s => truthy s
  | VArr _ | VObj _ => true
  end.

(** What the import reads from its environment: the messages of the
    [SyntaxError] of [JSON.parse] for a text and of the [TypeError] of
    reading a property of [null], and the identifier of its toast. *)
Record ImportEnv := {
  syntax_error : str -> str;
  type_error : str;
  import_toast_id : str
}.

(** The [onload] handler of [handleImportSettings]; [result] is
    [e.target?.result] when it is a string. *)
Definition handleImportSettings (env : ImportEnv) (result : option str)
    (w : JsValue * AppState) : JsValue * AppState :=
  let refuse (msg : str) :=
    (fst w, addToast (import_toast_id env) msg error (snd w)) in
  match result with
  | None => refuse (lit "Invalid file content")
  | Some text =>
      match parse text with
      | None => refuse (syntax_error env text)
      | Some importedSettings =>
          match read importedSettings name_theme with
          | None => refuse (type_error env)
          | Some theme =>
              if truthy_value theme then
                match read importedSettings name_notifications with
                | None => refuse (type_error env)
                | Some notifications =>
                    if truthy_value notifications then
                      (importedSettings,
                       addToast (import_toast_id env)
                         (lit "Settings imported successfully!") success (snd w))
                    else refuse (lit "Invalid settings file format.")
                end
              else refuse (lit "Invalid settings file format.")
          end
      end
  end.

End AppSettings.

(** * Properties *)

Import PromptSpec.

(** ** The definitions on concrete inputs *)

Section Examples.

Example trim_example :
  trim (9 :: 160 :: lit "  a  b " ++ [8232; 65279]) = lit "a  b".
Proof. vm_compute. reflexivity. Qed.

Example collapse_example :
  collapse (lit " a" ++ [9; 10; 32] ++ lit "b  c ") = lit " a b c ".
Proof. vm_compute. reflexivity. Qed.

Example replace_first_example :
  replace_first HYPHEN [SP] (lit "sci-fi-artist") = lit "sci fi-artist".
Proof. vm_compute. reflexivity. Qed.

Example constructImagePrompt_single :
  constructImagePrompt [lit "a red fox"] (lit "none") (lit "blur") english
    p_photographer balanced
  = lit "As a world-renowned photographer known for capturing stunning detail and emotion, create the following image: a red fox.   Avoid the following: blur.".
Proof. vm_compute. reflexivity. Qed.

Example constructVideoPrompt_example :
  constructVideoPrompt (lit "a  red" ++ [10] ++ lit " fox") vs_vintage [] d_long
    cm_drone_shot q_standard english fr_none p_none true ar_16_9 fps30 strong
    am_cinematic_tension
  = lit "As a versatile master artist, create a video based on this scene: "
    ++ quoted (lit "a red fox")
    ++ lit ". Visual Style: vintage. Camera Movement: A dynamic and fast-paced drone shot. Duration Goal: a long clip, aiming for 30 seconds.. Aspect Ratio: The final video must be in 16:9 format. Frame Rate: The video must be rendered at 30 frames per second. The overall mood of the scene should be appropriate for a soundtrack that is cinematic tension. The video must be a perfect, seamless loop.".
Proof. vm_compute. reflexivity. Qed.

Example toISOString_examples :
  List.map Clock.toISOString
    [0; 1700000000000; 951782400000; -1; 253402300800000]%Z
  = [ lit "1970-01-01T00:00:00.000Z"; lit "2023-11-14T22:13:20.000Z";
      lit "2000-02-29T00:00:00.000Z"; lit "1969-12-31T23:59:59.999Z";
      lit "+010000-01-01T00:00:00.000Z" ].
Proof. vm_compute. reflexivity. Qed.

Example stringify_example :
  stringify (VObj [ (lit "a", VArr [VStr [DQUOTE; 10]; VUndefined; VNull]);
                    (lit "b", VUndefined); (lit "c", VBool true) ])
  = Some (lit "{" ++ quoted (lit "a") ++ lit ":[" ++ quoted (lit "\" ++ [DQUOTE] ++ lit "\n")
          ++ lit ",null,null]," ++ quoted (lit "c") ++ lit ":true}").
Proof. vm_compute. reflexivity. Qed.

Example parse_examples :
  parse (lit " [1, -2.5e3 ,true, null, [ ], {}] ")
  = Some (VArr [VNum (lit "1"); VNum (lit "-2.5e3"); VBool true; VNull;
                VArr []; VObj []])
  /\ parse (lit "{" ++ quoted (lit "k") ++ lit ": " ++ quoted (lit "a\u0041\n") ++ lit "}")
     = Some (VObj [(lit "k", VStr (lit "aA" ++ [10]))])
  /\ parse (lit "{") = None
  /\ parse (lit "[1,]") = None
  /\ parse (lit "01") = None
  /\ parse (lit "free") = None
  /\ parse [] = None.
Proof. vm_compute. repeat split; reflexivity. Qed.

Example load_effect_examples :
  let store l := {| entries := list_to_map l; refuses := fun _ _ => false |} in
  p_subscriptionTier
    (load_effect (store [(TIER_KEY, quoted (lit "silver"))]) p_initial) = silver
  /\ p_subscriptionTier
       (load_effect (store [(TIER_KEY, quoted (lit "platinum"))]) p_initial) = free
  /\ p_subscriptionTier
       (load_effect (store [(TIER_KEY, lit "golden")]) p_initial) = free
  /\ p_subscriptionTier
       (load_effect (store [(TIER_KEY, lit "3")]) p_initial) = free.
Proof. vm_compute. repeat split; reflexivity. Qed.

End Examples.

Section StringFacts.

Lemma is_space_SP : is_space SP = true.
Proof. reflexivity. Qed.

Lemma trimStart_nonspace c s : is_space c = false -> trimStart (c :: s) = c :: s.
Proof. intros H. simpl. now rewrite H. Qed.

Lemma trimStart_app a b :
  trimStart (a ++ b) =
  match trimStart a with [] => trimStart b | _ => trimStart a ++ b end.
Proof.
  induction a as [|c a IH]; simpl.
  - reflexivity.
  - destruct (is_space c); [exact IH | reflexivity].
Qed.

Lemma trimEnd_app a b :
  trimEnd (a ++ b) =
  match trimEnd b with [] => trimEnd a | _ => a ++ trimEnd b end.
Proof.
  unfold trimEnd. rewrite rev_app_distr, trimStart_app.
  destruct (trimStart (rev b)) as [|c t] eqn:E.
  - reflexivity.
  - rewrite rev_app_distr, rev_involutive.
    destruct (rev (c :: t)) eqn:E2; [|reflexivity].
    apply (f_equal (@List.length N)) in E2. rewrite length_rev in E2. discriminate.
Qed.

Lemma trimEnd_nil : trimEnd [] = [].
Proof. reflexivity. Qed.

Lemma trimEnd_snoc_nonspace a c :
  is_space c = false -> trimEnd (a ++ [c]) = a ++ [c].
Proof.
  intros H. rewrite trimEnd_app.
  replace (trimEnd [c]) with [c] by (unfold trimEnd; simpl; now rewrite H).
  reflexivity.
Qed.

Lemma trimEnd_snoc_space a c :
  is_space c = true -> trimEnd (a ++ [c]) = trimEnd a.
Proof.
  intros H. rewrite trimEnd_app.
  replace (trimEnd [c]) with (@nil N) by (unfold trimEnd; simpl; now rewrite H).
  reflexivity.
Qed.

(** [trimStart] keeps a suffix and [trimEnd] a prefix. *)
Lemma trimStart_suffix s : exists w, s = w ++ trimStart s.
Proof.
  induction s as [|c s [w IH]]; simpl.
  - now exists [].
  - destruct (is_space c).
    + exists (c :: w). simpl. now f_equal.
    + now exists [].
Qed.

Lemma trimEnd_prefix s : exists w, s = trimEnd s ++ w.
Proof.
  unfold trimEnd. destruct (trimStart_suffix (rev s)) as [w Hw].
  exists (rev w). rewrite <- rev_app_distr, <- Hw. now rewrite rev_involutive.
Qed.

Lemma trimStart_head s c : first_char (trimStart s) = Some c -> is_space c = false.
Proof.
  induction s as [|d s IH]; simpl; [discriminate|].
  destruct (is_space d) eqn:E; [exact IH|].
  simpl. intros [= <-]. exact E.
Qed.

Lemma last_rev_head {A} (l : list A) : last (rev l) = head l.
Proof.
  destruct l as [|a l]; [reflexivity|]. simpl. now rewrite last_snoc.
Qed.

Lemma trimEnd_last s c : last_char (trimEnd s) = Some c -> is_space c = false.
Proof.
  unfold last_char, trimEnd. rewrite last_rev_head. apply trimStart_head.
Qed.

Lemma trimEnd_head s c :
  first_char (trimEnd s) = Some c -> first_char s = Some c.
Proof.
  destruct (trimEnd_prefix s) as [w Hw]. intros H.
  rewrite Hw. destruct (trimEnd s); [discriminate | exact H].
Qed.

(** The result of [trim] never starts or ends with white space. *)
Lemma trim_trimmed s : trimmed (trim s).
Proof.
  split; intros c H.
  - apply trimEnd_head in H. eapply trimStart_head, H.
  - eapply trimEnd_last, H.
Qed.

End StringFacts.

Section SlotFacts.

Lemma ends_nonspace_app a b : ends_nonspace b -> ends_nonspace (a ++ b).
Proof.
  intros (s' & c & -> & H). exists (a ++ s'), c. split; [|exact H].
  now rewrite <- app_assoc.
Qed.

Lemma ends_nonspace_last s c :
  last s = Some c -> is_space c = false -> ends_nonspace s.
Proof. intros [s' ->]%last_Some H. now exists s', c. Qed.

Lemma ends_nonspace_dot a : ends_nonspace (a ++ lit ".").
Proof. exists a, 46. split; reflexivity. Qed.

Lemma trimEnd_ends_nonspace s : ends_nonspace s -> trimEnd s = s.
Proof. intros (s' & c & -> & H). now apply trimEnd_snoc_nonspace. Qed.

Lemma ends_nonspace_nonnil s : ends_nonspace s -> s <> [].
Proof. intros (s' & c & -> & _). now destruct s'. Qed.

Lemma all_empty_sep_tail parts : all_empty parts = true -> sep_tail parts = [].
Proof. destruct parts; simpl; [reflexivity|]. intros H. now rewrite H. Qed.

Lemma all_empty_trimEnd parts :
  all_empty parts = true ->
  trimEnd (concat (List.map (fun p => [SP] ++ p) parts)) = [].
Proof.
  induction parts as [|p ps IH]; [reflexivity|].
  intros H. apply andb_true_iff in H as [Hp Hps].
  cbn [List.map concat]. rewrite trimEnd_app, (IH Hps).
  destruct p; [reflexivity | discriminate].
Qed.

Lemma some_slot_trimEnd parts :
  Forall (fun p => p = [] \/ ends_nonspace p) parts ->
  all_empty parts = false ->
  trimEnd (concat (List.map (fun p => [SP] ++ p) parts)) = sep_tail parts
  /\ sep_tail parts <> [].
Proof.
  induction 1 as [|p ps Hp Hps IH]; [discriminate|].
  intros Hne. cbn [List.map concat sep_tail]. rewrite Hne.
  rewrite trimEnd_app.
  destruct (all_empty ps) eqn:E.
  - rewrite (all_empty_trimEnd _ E), (all_empty_sep_tail _ E), app_nil_r.
    destruct Hp as [-> | Hp]; [simpl in Hne; rewrite E in Hne; discriminate|].
    split; [|discriminate].
    apply trimEnd_ends_nonspace. now apply ends_nonspace_app.
  - destruct (IH eq_refl) as [-> Hn].
    split; [|discriminate].
    destruct (sep_tail ps); [contradiction|]. now rewrite <- app_assoc.
Qed.

(** [trimEnd] of a head followed by space-separated slots. *)
Lemma trimEnd_slots X parts :
  ends_nonspace X ->
  Forall (fun p => p = [] \/ ends_nonspace p) parts ->
  trimEnd (X ++ concat (List.map (fun p => [SP] ++ p) parts)) = X ++ sep_tail parts.
Proof.
  intros HX Hparts. rewrite trimEnd_app.
  destruct (all_empty parts) eqn:E.
  - rewrite (all_empty_trimEnd _ E), (all_empty_sep_tail _ E), app_nil_r.
    now apply trimEnd_ends_nonspace.
  - destruct (some_slot_trimEnd _ Hparts E) as [-> Hn].
    destruct (sep_tail parts); [contradiction | reflexivity].
Qed.

Lemma infix_refl_app u a v : infix a (u ++ a ++ v).
Proof. now exists u, v. Qed.

Lemma infix_app_l a b u : infix a b -> infix a (u ++ b).
Proof. intros (x & y & ->). exists (u ++ x), y. now rewrite <- app_assoc. Qed.

Lemma infix_app_r a b v : infix a b -> infix a (b ++ v).
Proof.
  intros (x & y & ->). exists x, (y ++ v). now rewrite <- !app_assoc.
Qed.

Lemma infix_nil b : infix [] b.
Proof. now exists [], b. Qed.

(** Each slot occurs in the tail built from the slots. *)
Lemma infix_sep_tail parts p : In p parts -> infix p (sep_tail parts).
Proof.
  induction parts as [|q qs IH]; [intros []|].
  intros Hin. destruct (all_empty (q :: qs)) eqn:E.
  - assert (p = []) as ->; [|apply infix_nil].
    unfold all_empty in E. rewrite forallb_forall in E.
    specialize (E p Hin). now destruct p.
  - cbn [sep_tail]. rewrite E. destruct Hin as [-> | Hin].
    + apply (infix_refl_app [SP]).
    + apply (infix_app_l _ _ [SP]), infix_app_l, IH, Hin.
Qed.

End SlotFacts.

(** ** The image prompt *)

Section ImagePrompt.

Lemma trimStart_starts a b : starts_nonspace a -> trimStart (a ++ b) = a ++ b.
Proof. intros (c & a' & -> & H). now apply trimStart_nonspace. Qed.

Lemma persona_starts persona : starts_nonspace (personaInstructions persona).
Proof. destruct persona; eexists 65, _; split; reflexivity. Qed.

Lemma image_mainPrompt_ends prompts : ends_nonspace (image_mainPrompt prompts).
Proof.
  unfold image_mainPrompt.
  destruct (1 <? List.length prompts)%nat; rewrite !app_assoc; apply ends_nonspace_dot.
Qed.

Lemma intensityMap_ends i : ends_nonspace (intensityMap i).
Proof. destruct i; apply (ends_nonspace_last _ 46); reflexivity. Qed.

Lemma image_slots_ok style si neg language :
  Forall (fun p => p = [] \/ ends_nonspace p)
    [image_languageInstruction language; image_styleInstruction style si;
     image_negativeInstruction neg].
Proof.
  apply Forall_cons_2; [|apply Forall_cons_2; [|apply Forall_cons_2; [|apply Forall_nil_2]]].
  - destruct language; [now left | right].
    apply (ends_nonspace_last _ 46); reflexivity.
  - unfold image_styleInstruction.
    destruct (negb _); [right | now left].
    rewrite !app_assoc. apply ends_nonspace_app, intensityMap_ends.
  - unfold image_negativeInstruction.
    destruct (truthy neg); [right | now left].
    rewrite !app_assoc. apply ends_nonspace_dot.
Qed.

(** The returned string without [trim]: persona, main sentence, then the
    optional sentences up to the last one present. *)
Lemma constructImagePrompt_closed prompts style neg language persona si :
  constructImagePrompt prompts style neg language persona si =
  personaInstructions persona ++ [SP] ++ image_mainPrompt prompts
  ++ sep_tail [image_languageInstruction language;
               image_styleInstruction style si;
               image_negativeInstruction neg].
Proof.
  unfold constructImagePrompt, trim. cbv zeta.
  rewrite trimStart_starts by apply persona_starts.
  set (L := image_languageInstruction language).
  set (S := image_styleInstruction style si).
  set (Ng := image_negativeInstruction neg).
  transitivity (trimEnd ((personaInstructions persona ++ [SP] ++ image_mainPrompt prompts)
                         ++ concat (List.map (fun p => [SP] ++ p) [L; S; Ng]))).
  - f_equal. cbn [List.map concat]. rewrite app_nil_r. now rewrite <- !app_assoc.
  - rewrite trimEnd_slots.
    + now rewrite <- !app_assoc.
    + rewrite app_assoc. apply ends_nonspace_app, image_mainPrompt_ends.
    + apply image_slots_ok.
Qed.

End ImagePrompt.

Section ImagePromptClaim.

Lemma image_languageInstruction_eq language :
  image_languageInstruction language =
  match language with
  | kinyarwanda =>
      lit "The user is providing the prompt in Kinyarwanda; interpret it accordingly."
  | english => []
  end.
Proof. now destruct language. Qed.

Lemma image_styleInstruction_eq style si :
  image_styleInstruction style si =
  if decide (style = lit "none") then []
  else lit "Style: " ++ replace_first HYPHEN [SP] style
       ++ lit ". Style Intensity: " ++ intensityMap si.
Proof.
  unfold image_styleInstruction, str_eqb.
  destruct (decide (style = lit "none")) as [E|E].
  - now rewrite (bool_decide_eq_true_2 _ E).
  - now rewrite (bool_decide_eq_false_2 _ E).
Qed.

Lemma image_negativeInstruction_eq neg :
  image_negativeInstruction neg =
  if decide (neg = []) then []
  else lit "Avoid the following: " ++ neg ++ lit ".".
Proof.
  unfold image_negativeInstruction.
  destruct neg; [reflexivity|]. now destruct (decide _).
Qed.

Lemma image_mainPrompt_eq prompts :
  prompts <> [] ->
  image_mainPrompt prompts =
  match prompts with
  | [p] => lit "create the following image: " ++ p ++ lit "."
  | _ => lit "expertly blend the following distinct concepts into a single, cohesive, and beautiful image: "
         ++ join (lit " and ") (List.map (fun p => DQUOTE :: p ++ [DQUOTE]) prompts)
         ++ lit "."
  end.
Proof.
  destruct prompts as [|p [|q ps]]; [congruence | reflexivity | reflexivity].
Qed.

(** C1: for a non-empty prompt list, [constructImagePrompt] returns one
    string that begins with the persona's instruction text followed by the
    main sentence: for more than one prompt the request to blend the prompts,
    each in double quotes and joined by " and "; for a single prompt the
    request to create the image it describes.  The Kinyarwanda sentence
    occupies its slot iff the language is Kinyarwanda, the style sentence
    (with the intensity text) iff the style is not "none", the avoid
    sentence iff the negative prompt is non-empty; a present sentence occurs
    in the result, an absent one contributes nothing.  The result neither
    starts nor ends with white space. *)
Theorem constructImagePrompt_spec
    (prompts : list str) (style neg : str) (language : Language)
    (persona : AIPersona) (styleIntensity : Intensity) :
  prompts <> [] ->
  let r := constructImagePrompt prompts style neg language persona styleIntensity in
  let main :=
    match prompts with
    | [p] => lit "create the following image: " ++ p ++ lit "."
    | _ => lit "expertly blend the following distinct concepts into a single, cohesive, and beautiful image: "
           ++ join (lit " and ") (List.map (fun p => DQUOTE :: p ++ [DQUOTE]) prompts)
           ++ lit "."
    end in
  let kinyarwandaSentence :=
    lit "The user is providing the prompt in Kinyarwanda; interpret it accordingly." in
  let styleSentence :=
    lit "Style: " ++ replace_first HYPHEN [SP] style
    ++ lit ". Style Intensity: " ++ intensityMap styleIntensity in
  let avoidSentence := lit "Avoid the following: " ++ neg ++ lit "." in
  r = personaInstructions persona ++ [SP] ++ main
      ++ sep_tail
           [ match language with kinyarwanda => kinyarwandaSentence | english => [] end;
             if decide (style = lit "none") then [] else styleSentence;
             if decide (neg = []) then [] else avoidSentence ]
  /\ (exists rest, r = personaInstructions persona ++ rest)
  /\ infix main r
  /\ (language = kinyarwanda -> infix kinyarwandaSentence r)
  /\ (style <> lit "none" -> infix styleSentence r)
  /\ (neg <> [] -> infix avoidSentence r)
  /\ trimmed r.
Proof.
  intros Hne r main kin sty avo.
  assert (Hr : r = personaInstructions persona ++ [SP] ++ main
      ++ sep_tail
           [ match language with kinyarwanda => kin | english => [] end;
             if decide (style = lit "none") then [] else sty;
             if decide (neg = []) then [] else avo ]).
  { subst r. rewrite constructImagePrompt_closed, (image_mainPrompt_eq _ Hne).
    now rewrite image_languageInstruction_eq, image_styleInstruction_eq,
      image_negativeInstruction_eq. }
  split; [exact Hr|].
  split; [eexists; exact Hr|].
  split; [rewrite Hr; apply infix_app_l, (infix_refl_app [SP])|].
  assert (Htail : forall p,
    In p [ match language with kinyarwanda => kin | english => [] end;
           if decide (style = lit "none") then [] else sty;
           if decide (neg = []) then [] else avo ] -> infix p r).
  { intros p Hp. rewrite Hr. rewrite !app_assoc. apply infix_app_l.
    now apply infix_sep_tail. }
  split; [intros ->; apply Htail; now left|].
  split.
  { intros Hs. apply Htail. right; left.
    destruct (decide (style = lit "none")); [contradiction | reflexivity]. }
  split.
  { intros Hn. apply Htail. right; right; left.
    destruct (decide (neg = [])); [contradiction | reflexivity]. }
  apply trim_trimmed.
Qed.

(** The claim at a two-prompt request in Kinyarwanda with a style and no
    negative prompt. *)
Lemma constructImagePrompt_spec_witness :
  [lit "a cat"; lit "a dog"] <> [] /\
  constructImagePrompt [lit "a cat"; lit "a dog"] (lit "pixel-art") []
    kinyarwanda p_illustrator strong =
  lit "As a master illustrator with a distinct and creative style, expertly blend the following distinct concepts into a single, cohesive, and beautiful image: "
  ++ quoted (lit "a cat") ++ lit " and " ++ quoted (lit "a dog")
  ++ lit ". The user is providing the prompt in Kinyarwanda; interpret it accordingly. Style: pixel art. Style Intensity: with an extremely strong, dominant, and stylized representation of the specified style.".
Proof.
  split; [discriminate|].
  pose proof (constructImagePrompt_spec [lit "a cat"; lit "a dog"]
                (lit "pixel-art") [] kinyarwanda p_illustrator strong) as H.
  destruct H as [H _]; [discriminate|].
  rewrite H. vm_compute. reflexivity.
Defined.

End ImagePromptClaim.

(** ** White-space collapsing *)

Section CollapseFacts.

Lemma run_after_cons p c s : run_after p (c :: s) = run_after (is_space c) s.
Proof.
  unfold run_after. destruct s as [|d s]; [reflexivity|].
  rewrite last_cons_cons.
  destruct (last (d :: s)) eqn:E; [reflexivity|].
  apply last_None in E. discriminate.
Qed.

Lemma run_after_app p a b : run_after p (a ++ b) = run_after (run_after p a) b.
Proof.
  revert p. induction a as [|c a IH]; intros p; [reflexivity|].
  cbn [app]. now rewrite !run_after_cons, IH.
Qed.

Lemma run_after_ends p s : ends_nonspace s -> run_after p s = false.
Proof.
  intros (s' & c & -> & H). unfold run_after. now rewrite last_snoc.
Qed.

(** The eager and the lazy scanner differ by where the separating space of
    a run is emitted. *)
Lemma collapse_from_lazy p s :
  pend p ++ collapse_from p s = collapse_lazy p s ++ pend (run_after p s).
Proof.
  revert p. induction s as [|c s IH]; intros p.
  - cbn. now rewrite app_nil_r.
  - rewrite run_after_cons. cbn [collapse_from collapse_lazy].
    destruct (is_space c) eqn:E.
    + rewrite <- IH. now destruct p.
    + rewrite <- app_assoc. cbn [app]. f_equal. f_equal.
      specialize (IH false). cbn [pend app] in IH. exact IH.
Qed.

Lemma collapse_lazy_last p s c :
  last (collapse_lazy p s) = Some c -> is_space c = false.
Proof.
  revert p. induction s as [|d s IH]; intros p; [discriminate|].
  cbn [collapse_lazy]. destruct (is_space d) eqn:E; [apply IH|].
  destruct (collapse_lazy false s) as [|e t] eqn:Ht.
  - destruct p; cbn; intros [= <-]; exact E.
  - specialize (IH false). rewrite Ht in IH.
    intros H. apply IH. rewrite <- H.
    destruct p; cbn [app pend]; now rewrite ?last_cons_cons.
Qed.

Lemma trimEnd_id s :
  (forall c, last s = Some c -> is_space c = false) -> trimEnd s = s.
Proof.
  intros H. destruct (last s) as [c|] eqn:E.
  - apply trimEnd_ends_nonspace, (ends_nonspace_last _ c); auto.
  - apply last_None in E. now subst.
Qed.

(** On a string that starts with a non-space code unit, collapsing and
    trimming is the lazy scanner. *)
Lemma trim_collapse_lazy s :
  starts_nonspace s -> trim (collapse s) = collapse_lazy false s.
Proof.
  intros (c & s' & -> & Hc). unfold trim, collapse.
  assert (H := collapse_from_lazy false (c :: s')). cbn [pend app] in H.
  assert (Hs : trimStart (collapse_from false (c :: s')) = collapse_from false (c :: s')).
  { cbn [collapse_from]. rewrite Hc. now apply trimStart_nonspace. }
  rewrite Hs, H.
  destruct (run_after false (c :: s')); cbn [pend].
  - rewrite trimEnd_snoc_space by reflexivity.
    apply trimEnd_id, collapse_lazy_last.
  - rewrite app_nil_r. apply trimEnd_id, collapse_lazy_last.
Qed.

Lemma collapse_lazy_app p a b :
  collapse_lazy p (a ++ b) = collapse_lazy p a ++ collapse_lazy (run_after p a) b.
Proof.
  revert p. induction a as [|c a IH]; intros p; [reflexivity|].
  rewrite run_after_cons. cbn [app collapse_lazy].
  destruct (is_space c); [apply IH|].
  rewrite IH, <- app_assoc. reflexivity.
Qed.

Lemma collapse_lazy_spaces p w :
  forallb is_space w = true -> collapse_lazy p w = [].
Proof.
  revert p. induction w as [|c w IH]; intros p H; [reflexivity|].
  apply andb_true_iff in H as [Hc Hw]. cbn [collapse_lazy]. rewrite Hc. now apply IH.
Qed.

Lemma run_after_spaces p w :
  w <> [] -> forallb is_space w = true -> run_after p w = true.
Proof.
  intros Hne H. unfold run_after. destruct (last w) as [c|] eqn:E.
  - rewrite forallb_forall in H. apply H.
    apply last_Some in E as [w' ->]. apply in_or_app. right. now left.
  - apply last_None in E. contradiction.
Qed.

Lemma collapse_lazy_ends s :
  ends_nonspace s -> collapse_lazy false s = collapse s.
Proof.
  intros H. assert (E := collapse_from_lazy false s).
  rewrite (run_after_ends _ _ H) in E. cbn [pend app] in E.
  now rewrite app_nil_r in E.
Qed.

Lemma collapse_lazy_pending s :
  starts_nonspace s -> collapse_lazy true s = SP :: collapse_lazy false s.
Proof. intros (c & s' & -> & H). cbn [collapse_lazy]. now rewrite H. Qed.

(** A white-space run followed by one slot: nothing for an empty slot, one
    space and the collapsed slot otherwise. *)
Lemma collapse_lazy_slot p w s rest :
  w <> [] -> forallb is_space w = true ->
  s = [] \/ (starts_nonspace s /\ ends_nonspace s) ->
  exists q,
    collapse_lazy p (w ++ s ++ rest) =
    (if truthy s then SP :: collapse s else []) ++ collapse_lazy q rest.
Proof.
  intros Hne Hw Hs.
  rewrite collapse_lazy_app, (collapse_lazy_spaces _ _ Hw),
    (run_after_spaces _ _ Hne Hw), collapse_lazy_app. cbn [app].
  destruct Hs as [-> | [Hst Hen]].
  - now exists true.
  - exists false. rewrite (run_after_ends _ _ Hen).
    rewrite (collapse_lazy_pending _ Hst), (collapse_lazy_ends _ Hen).
    destruct Hst as (c & s' & -> & _). reflexivity.
Qed.

End CollapseFacts.

(** ** The video prompt *)

Section VideoPrompt.

Lemma slot_okb_ok s : slot_okb s = true -> slot_ok s.
Proof.
  destruct s as [|c s]; [now left|]. intros H. right.
  apply andb_true_iff in H as [H1 H2].
  split.
  - exists c, s. split; [reflexivity|]. now apply negb_true_iff.
  - destruct (last (c :: s)) as [d|] eqn:E; [|discriminate].
    apply (ends_nonspace_last _ d E). now apply negb_true_iff.
Qed.

Lemma truthy_collapse s : truthy (collapse s) = truthy s.
Proof.
  destruct s as [|c s]; [reflexivity|].
  unfold collapse. cbn [collapse_from]. now destruct (is_space c).
Qed.

Lemma spaced_cons s l :
  spaced (s :: l) = (if truthy s then SP :: s else []) ++ spaced l.
Proof. unfold spaced, spaced_all. cbn [List.filter]. now destruct (truthy s). Qed.

(** The lazy scanner over a template body leaves the non-empty slots, each
    collapsed and preceded by one space. *)
Lemma collapse_lazy_template items rest p :
  Forall (fun it => fst it <> [] /\ forallb is_space (fst it) = true
                    /\ slot_ok (snd it)) items ->
  exists q,
    collapse_lazy p (template items ++ rest) =
    spaced (List.map (fun it => collapse (snd it)) items) ++ collapse_lazy q rest.
Proof.
  intros H. revert p. induction H as [|[w s] items (Hne & Hw & Hs) _ IH]; intros p.
  - now exists p.
  - unfold template. cbn [List.map concat fst snd]. rewrite <- !app_assoc.
    destruct (collapse_lazy_slot p w s (template items ++ rest) Hne Hw Hs) as [q Hq].
    unfold template in Hq. rewrite Hq.
    destruct (IH q) as [q' Hq']. unfold template in Hq'. rewrite Hq'.
    exists q'. rewrite spaced_cons, truthy_collapse, <- app_assoc. reflexivity.
Qed.

Lemma collapse_lazy_through prompt c Y :
  is_space c = false ->
  collapse_lazy false (prompt ++ c :: Y) = collapse prompt ++ c :: collapse_lazy false Y.
Proof.
  intros Hc. rewrite collapse_lazy_app.
  assert (E := collapse_from_lazy false prompt). cbn [pend app] in E.
  unfold collapse. rewrite E, <- app_assoc. f_equal.
  cbn [collapse_lazy]. rewrite Hc. reflexivity.
Qed.

Lemma collapse_lazy_head persona X :
  collapse_lazy false
    (personaInstructions persona ++ lit " create a video based on this scene: "
     ++ DQUOTE :: X) =
  personaInstructions persona ++ lit " create a video based on this scene: "
  ++ DQUOTE :: collapse_lazy false X.
Proof.
  rewrite collapse_lazy_app.
  assert (Hp : collapse_lazy false (personaInstructions persona)
               = personaInstructions persona
               /\ run_after false (personaInstructions persona) = false)
    by (destruct persona; vm_compute; split; reflexivity).
  destruct Hp as [-> ->]. reflexivity.
Qed.

End VideoPrompt.

Section VideoPromptClosed.

Lemma filter_truthy_cons s l : List.filter truthy (s :: l) = opt s ++ List.filter truthy l.
Proof. unfold opt. cbn [List.filter]. now destruct (truthy s). Qed.

Ltac slot_cases := vm_compute; reflexivity.

Lemma opt_language language :
  opt (collapse (video_languageInstruction language)) =
  match language with kinyarwanda => [kinyarwandaSentence] | english => [] end.
Proof. destruct language; slot_cases. Qed.

Lemma opt_style style :
  opt (collapse (video_styleInstruction style)) =
  match style with vs_none => [] | _ => [styleSentence style] end.
Proof. destruct style; slot_cases. Qed.

Lemma opt_camera cm mi :
  opt (collapse (cameraInstruction cm mi)) =
  match cm with cm_none => [] | _ => [cameraSentence cm mi] end.
Proof. destruct cm, mi; slot_cases. Qed.

Lemma opt_framing framing :
  opt (collapse (framingInstruction framing)) =
  match framing with fr_none => [] | _ => [framingSentence framing] end.
Proof. destruct framing; slot_cases. Qed.

Lemma opt_duration d :
  opt (collapse (durationInstruction d)) = [durationSentence d].
Proof. destruct d; slot_cases. Qed.

Lemma opt_quality quality :
  opt (collapse (qualityInstruction quality)) =
  match quality with q_high => [qualitySentence] | q_standard => [] end.
Proof. destruct quality; slot_cases. Qed.

Lemma opt_aspect ar :
  opt (collapse (aspectInstruction ar)) = [aspectSentence ar].
Proof. destruct ar; slot_cases. Qed.

Lemma opt_fps fps : opt (collapse (fpsInstruction fps)) = [fpsSentence fps].
Proof. destruct fps; slot_cases. Qed.

Lemma opt_audio mood :
  opt (collapse (audioInstruction mood)) =
  match mood with am_none => [] | _ => [audioSentence mood] end.
Proof. destruct mood; slot_cases. Qed.

Lemma opt_negative neg :
  opt (collapse (video_negativeInstruction neg)) =
  match neg with [] => [] | _ => [collapse (avoidSentence neg)] end.
Proof.
  destruct neg as [|n neg]; [reflexivity|].
  unfold opt. rewrite truthy_collapse.
  change (video_negativeInstruction (n :: neg)) with (avoidSentence (n :: neg)).
  replace (truthy (avoidSentence (n :: neg))) with true by reflexivity.
  reflexivity.
Qed.

Lemma opt_loop loop :
  opt (collapse (loopInstruction loop)) = if loop then [loopSentence] else [].
Proof. destruct loop; slot_cases. Qed.

Lemma video_negativeInstruction_ok neg : slot_ok (video_negativeInstruction neg).
Proof.
  unfold video_negativeInstruction. destruct (truthy neg); [right | now left].
  split.
  - eexists 67, _. split; reflexivity.
  - rewrite app_assoc. apply ends_nonspace_dot.
Qed.

Ltac slot_ok_cases := apply slot_okb_ok; vm_compute; reflexivity.

Lemma video_slots_ok style neg duration cm quality language framing loop ar fps mi mood :
  Forall (fun it => fst it <> [] /\ forallb is_space (fst it) = true
                    /\ slot_ok (snd it))
    [ (SP :: NL, video_languageInstruction language);
      (NL, video_styleInstruction style);
      (SP :: NL, cameraInstruction cm mi);
      (NL, framingInstruction framing);
      (NL, durationInstruction duration);
      (NL, qualityInstruction quality);
      (NL, aspectInstruction ar);
      (NL, fpsInstruction fps);
      (NL, audioInstruction mood);
      (NL, video_negativeInstruction neg);
      (NL, loopInstruction loop) ].
Proof.
  repeat (apply Forall_cons_2; [split; [discriminate | split; [reflexivity|]]|]);
    [ destruct language | destruct style | destruct cm, mi | destruct framing
    | destruct duration | destruct quality | destruct ar | destruct fps
    | destruct mood | apply video_negativeInstruction_ok | destruct loop
    | apply Forall_nil_2 ]; slot_ok_cases.
Qed.

Lemma video_sentences_filter style neg duration cm quality language framing
    loop ar fps mi mood :
  List.filter truthy
    [collapse (video_languageInstruction language);
     collapse (video_styleInstruction style);
     collapse (cameraInstruction cm mi);
     collapse (framingInstruction framing);
     collapse (durationInstruction duration);
     collapse (qualityInstruction quality);
     collapse (aspectInstruction ar); collapse (fpsInstruction fps);
     collapse (audioInstruction mood);
     collapse (video_negativeInstruction neg);
     collapse (loopInstruction loop)] =
  video_sentences style neg duration cm quality language framing loop ar fps
    mi mood.
Proof.
  rewrite !filter_truthy_cons. cbn [List.filter].
  rewrite opt_language, opt_style, opt_camera, opt_framing, opt_duration,
    opt_quality, opt_aspect, opt_fps, opt_audio, opt_negative, opt_loop.
  unfold video_sentences. now rewrite app_nil_r.
Qed.

(** The video prompt without [trim] and without the regular expression. *)
Lemma constructVideoPrompt_closed prompt style neg duration cm quality language
    framing persona loop ar fps mi mood :
  constructVideoPrompt prompt style neg duration cm quality language framing
    persona loop ar fps mi mood =
  video_head persona prompt
  ++ spaced_all (video_sentences style neg duration cm quality language
                   framing loop ar fps mi mood).
Proof.
  unfold constructVideoPrompt. cbv zeta.
  rewrite trim_collapse_lazy.
  2:{ destruct (persona_starts persona) as (c & t & -> & H). now exists c, (t ++ lit " create a video based on this scene: " ++ quoted prompt ++
      lit ". " ++ NL ++ video_languageInstruction language ++ NL ++
      video_styleInstruction style ++ [SP] ++ NL ++ cameraInstruction cm mi ++
      NL ++ framingInstruction framing ++ NL ++ durationInstruction duration ++
      NL ++ qualityInstruction quality ++ NL ++ aspectInstruction ar ++ NL ++
      fpsInstruction fps ++ NL ++ audioInstruction mood ++ NL ++
      video_negativeInstruction neg ++ NL ++ loopInstruction loop). }
  unfold quoted. cbn [app]. rewrite collapse_lazy_head.
  rewrite <- app_assoc. cbn [app].
  rewrite collapse_lazy_through by reflexivity.
  change (lit ". " ++ NL ++ ?x) with (46 :: (SP :: NL) ++ x).
  cbn [collapse_lazy]. change (is_space 46) with false. cbv iota. cbn [app].
  destruct (collapse_lazy_template _ [] false
              (video_slots_ok style neg duration cm quality language framing
                 loop ar fps mi mood)) as [q Hq].
  unfold template in Hq. cbn [List.map concat fst snd] in Hq.
  rewrite <- !app_assoc in Hq. cbn [app] in Hq. rewrite !app_nil_r in Hq.
  rewrite Hq. unfold spaced. rewrite video_sentences_filter.
  unfold video_head, quoted. rewrite <- !app_assoc. cbn [app].
  rewrite <- !app_assoc. reflexivity.
Qed.

End VideoPromptClosed.

Section SingleSpaced.

Lemma collapse_from_head s :
  match collapse_from true s with [] => True | d :: _ => is_space d = false end.
Proof.
  induction s as [|c s IH]; [exact I|].
  cbn [collapse_from]. destruct (is_space c) eqn:E; [exact IH | exact E].
Qed.

(** Collapsing leaves no two adjacent white-space code units and no
    white space other than the plain space. *)
Lemma collapse_from_single_spaced r s : single_spaced (collapse_from r s).
Proof.
  revert r. induction s as [|c s IH]; intros r; [exact I|].
  cbn [collapse_from]. destruct (is_space c) eqn:E.
  - destruct r; [apply IH|].
    cbn [single_spaced]. split; [|apply IH].
    intros _. split; [reflexivity | apply collapse_from_head].
  - cbn [single_spaced]. split; [|apply IH]. intros H. congruence.
Qed.

Lemma single_spaced_app_r w t : single_spaced (w ++ t) -> single_spaced t.
Proof. induction w as [|c w IH]; [auto|]. intros [_ H]. auto. Qed.

Lemma single_spaced_app_l t w : single_spaced (t ++ w) -> single_spaced t.
Proof.
  induction t as [|c t IH]; [intros; exact I|].
  cbn [app single_spaced]. intros [H1 H2]. split; [|auto].
  intros Hc. destruct (H1 Hc) as [-> Hn]. split; [reflexivity|].
  destruct t; [exact I | exact Hn].
Qed.

Lemma trim_single_spaced s : single_spaced s -> single_spaced (trim s).
Proof.
  intros H. unfold trim.
  destruct (trimStart_suffix s) as [w Hw].
  destruct (trimEnd_prefix (trimStart s)) as [v Hv].
  rewrite Hw in H. apply single_spaced_app_r in H.
  rewrite Hv in H. now apply single_spaced_app_l in H.
Qed.

End SingleSpaced.

Section VideoSentences.

Context (style : VideoStyle) (neg : str) (duration : VideoDuration)
  (cm : CameraMovement) (quality : VideoQuality) (language : Language)
  (framing : VideoFraming) (loop : bool) (ar : AspectRatio) (fps : VideoFPS)
  (mi : Intensity) (mood : AudioMood).

Lemma In_cond (P : Prop) (l : list str) (X s : str) :
  (l = [s] /\ P) \/ (l = [] /\ ~ P) -> (In X l <-> P /\ X = s).
Proof.
  intros [[-> HP] | [-> HP]]; cbn [In]; intuition congruence.
Qed.

Ltac cond_case :=
  split;
  [ reflexivity
  | first [ reflexivity | discriminate
          | let H := fresh in intros H; apply H; reflexivity ] ].

(** Which sentence sits where. *)
Lemma video_sentences_In X :
  In X (video_sentences style neg duration cm quality language framing loop
          ar fps mi mood) <->
    (language = kinyarwanda /\ X = kinyarwandaSentence)
    \/ (style <> vs_none /\ X = styleSentence style)
    \/ (cm <> cm_none /\ X = cameraSentence cm mi)
    \/ (framing <> fr_none /\ X = framingSentence framing)
    \/ (True /\ X = durationSentence duration)
    \/ (quality = q_high /\ X = qualitySentence)
    \/ (True /\ X = aspectSentence ar)
    \/ (True /\ X = fpsSentence fps)
    \/ (mood <> am_none /\ X = audioSentence mood)
    \/ (neg <> [] /\ X = collapse (avoidSentence neg))
    \/ (loop = true /\ X = loopSentence).
Proof.
  unfold video_sentences. rewrite !in_app_iff.
  assert (H1 : In X match language with kinyarwanda => [kinyarwandaSentence] | english => [] end
               <-> language = kinyarwanda /\ X = kinyarwandaSentence)
    by (apply In_cond; destruct language; [right | left]; cond_case).
  assert (H2 : In X match style with vs_none => [] | _ => [styleSentence style] end
               <-> style <> vs_none /\ X = styleSentence style)
    by (apply In_cond; destruct style; [right | left ..]; cond_case).
  assert (H3 : In X match cm with cm_none => [] | _ => [cameraSentence cm mi] end
               <-> cm <> cm_none /\ X = cameraSentence cm mi)
    by (apply In_cond; destruct cm; [right | left ..]; cond_case).
  assert (H4 : In X match framing with fr_none => [] | _ => [framingSentence framing] end
               <-> framing <> fr_none /\ X = framingSentence framing)
    by (apply In_cond; destruct framing; [right | left ..]; cond_case).
  assert (H5 : In X match quality with q_high => [qualitySentence] | q_standard => [] end
               <-> quality = q_high /\ X = qualitySentence)
    by (apply In_cond; destruct quality; [right | left]; cond_case).
  assert (H6 : In X match mood with am_none => [] | _ => [audioSentence mood] end
               <-> mood <> am_none /\ X = audioSentence mood)
    by (apply In_cond; destruct mood; [right | left ..]; cond_case).
  assert (H7 : In X match neg with [] => [] | _ => [collapse (avoidSentence neg)] end
               <-> neg <> [] /\ X = collapse (avoidSentence neg))
    by (apply In_cond; destruct neg; [right | left]; cond_case).
  assert (H8 : In X (if loop then [loopSentence] else [])
               <-> loop = true /\ X = loopSentence)
    by (apply In_cond; destruct loop; [left | right]; cond_case).
  rewrite H1, H2, H3, H4, H5, H6, H7, H8. cbn [In].
  clear. intuition congruence.
Qed.

End VideoSentences.

Section VideoPromptClaim.

Lemma infix_spaced_all parts p : In p parts -> infix p (spaced_all parts).
Proof.
  unfold spaced_all. induction parts as [|q qs IH]; [intros []|].
  cbn [List.map concat]. intros [-> | H].
  - rewrite <- app_assoc. apply infix_refl_app.
  - apply infix_app_l, IH, H.
Qed.

(** The three sentences that are always present are the instructions the
    function builds. *)
Lemma durationInstruction_text duration :
  durationInstruction duration = durationSentence duration.
Proof. now destruct duration. Qed.

Lemma aspectInstruction_text aspectRatio :
  aspectInstruction aspectRatio = aspectSentence aspectRatio.
Proof. now destruct aspectRatio. Qed.

Lemma fpsInstruction_text fps : fpsInstruction fps = fpsSentence fps.
Proof. now destruct fps. Qed.

(** Two sentences with different opening words are different. *)
Ltac other_sentence H :=
  exfalso;
  rewrite <- ?durationInstruction_text, <- ?aspectInstruction_text,
    <- ?fpsInstruction_text in H;
  apply (f_equal (take 5)) in H; vm_compute in H; discriminate H.

Ltac sentence_iff :=
  rewrite video_sentences_In; split;
  [ intros H;
    repeat (destruct H as [[Hc H] | H]; [try assumption; other_sentence H|]);
    destruct H as [Hc H]; try assumption; other_sentence H
  | intros Hc; tauto ].

(** C6: [constructVideoPrompt] returns one string: the persona text and the
    quoted scene, followed by the sentences of the prompt, each after a
    single space.  The returned string always contains the duration-goal
    sentence of the given duration, the aspect-ratio sentence of the given
    ratio and the frame-rate sentence of the given rate, each with the text
    [durationSentence], [aspectSentence] and [fpsSentence] spell out; the
    camera, framing, style and audio-mood sentences are present iff their
    argument is not "none", the 8K quality sentence iff quality is "high",
    the seamless-loop sentence iff loop is true.  Every sentence occurs in
    the returned string, in which every run of white space is a single space
    and which neither starts nor ends with white space. *)
Theorem constructVideoPrompt_spec
    (prompt : str) (style : VideoStyle) (negativePrompt : str)
    (duration : VideoDuration) (cameraMovement : CameraMovement)
    (quality : VideoQuality) (language : Language) (framing : VideoFraming)
    (persona : AIPersona) (loop : bool) (aspectRatio : AspectRatio)
    (fps : VideoFPS) (motionIntensity : Intensity) (audioMood : AudioMood) :
  let r := constructVideoPrompt prompt style negativePrompt duration
             cameraMovement quality language framing persona loop aspectRatio
             fps motionIntensity audioMood in
  let sentences := video_sentences style negativePrompt duration
             cameraMovement quality language framing loop aspectRatio fps
             motionIntensity audioMood in
  r = video_head persona prompt ++ spaced_all sentences
  /\ (In (durationSentence duration) sentences
      /\ infix (durationSentence duration) r)
  /\ (In (aspectSentence aspectRatio) sentences
      /\ infix (aspectSentence aspectRatio) r)
  /\ (In (fpsSentence fps) sentences /\ infix (fpsSentence fps) r)
  /\ (In (cameraSentence cameraMovement motionIntensity) sentences
      <-> cameraMovement <> cm_none)
  /\ (In (framingSentence framing) sentences <-> framing <> fr_none)
  /\ (In (styleSentence style) sentences <-> style <> vs_none)
  /\ (In (audioSentence audioMood) sentences <-> audioMood <> am_none)
  /\ (In qualitySentence sentences <-> quality = q_high)
  /\ (In loopSentence sentences <-> loop = true)
  /\ (forall s, In s sentences -> infix s r)
  /\ single_spaced r
  /\ trimmed r.
Proof.
  intros r sentences.
  assert (Hr : r = video_head persona prompt ++ spaced_all sentences)
    by apply constructVideoPrompt_closed.
  assert (Hin : forall s, In s sentences -> infix s r).
  { intros s Hs. rewrite Hr. now apply infix_app_l, infix_spaced_all. }
  split; [exact Hr|].
  assert (Hd : In (durationSentence duration) sentences)
    by (apply video_sentences_In; tauto).
  assert (Ha : In (aspectSentence aspectRatio) sentences)
    by (apply video_sentences_In; tauto).
  assert (Hf : In (fpsSentence fps) sentences)
    by (apply video_sentences_In; tauto).
  split; [split; [exact Hd | exact (Hin _ Hd)]|].
  split; [split; [exact Ha | exact (Hin _ Ha)]|].
  split; [split; [exact Hf | exact (Hin _ Hf)]|].
  clear Hd Ha Hf Hin. subst sentences.
  split; [sentence_iff|]. split; [sentence_iff|]. split; [sentence_iff|].
  split; [sentence_iff|]. split; [sentence_iff|]. split; [sentence_iff|].
  split.
  { intros s Hs. rewrite Hr. now apply infix_app_l, infix_spaced_all. }
  split.
  - apply trim_single_spaced, collapse_from_single_spaced.
  - apply trim_trimmed.
Qed.

End VideoPromptClaim.

(** ** Objects *)

Section ObjectFacts.

Lemma str_eqb_eq a b : str_eqb a b = true <-> a = b.
Proof. unfold str_eqb. apply bool_decide_eq_true. Qed.

Lemma str_eqb_refl a : str_eqb a a = true.
Proof. now apply str_eqb_eq. Qed.

Lemma str_eqb_neq a b : a <> b -> str_eqb a b = false.
Proof. intros H. unfold str_eqb. now apply bool_decide_eq_false. Qed.

Lemma strict_eq_str_spec v s : strict_eq_str v s = true <-> v = VStr s.
Proof.
  destruct v; cbn; try (split; [discriminate | intros [=]]).
  rewrite str_eqb_eq. split; [now intros -> | now intros [= ->]].
Qed.

Lemma obj_get_set_eq k v o : obj_get k (obj_set k v o) = v.
Proof.
  induction o as [|[k' v'] o IH]; cbn [obj_set obj_get].
  - now rewrite str_eqb_refl.
  - destruct (str_eqb k k') eqn:E; cbn [obj_get]; rewrite E; auto.
Qed.

Lemma obj_get_set_ne k k' v o : k <> k' -> obj_get k (obj_set k' v o) = obj_get k o.
Proof.
  intros Hne. induction o as [|[k2 v2] o IH]; cbn [obj_set obj_get].
  - now rewrite (str_eqb_neq _ _ Hne).
  - destruct (str_eqb k' k2) eqn:E; cbn [obj_get].
    + apply str_eqb_eq in E. subst k2. now rewrite (str_eqb_neq _ _ Hne).
    + now rewrite IH.
Qed.

End ObjectFacts.

(** ** Deleting a library item *)

Section LibraryDelete.

Lemma keep_item_spec itemId item :
  negb (strict_eq_str (obj_get (lit "id") item) itemId) = true
  <-> ~ Library.has_id itemId item.
Proof.
  unfold Library.has_id. rewrite negb_true_iff, <- strict_eq_str_spec.
  destruct (strict_eq_str _ _); split; congruence.
Qed.

Lemma filter_sublist {A} (f : A -> bool) l : sublist (List.filter f l) l.
Proof.
  induction l as [|x l IH]; cbn [List.filter]; [constructor|].
  destruct (f x); now constructor.
Qed.

(** The filtered list is the largest sublist whose elements pass. *)
Lemma filter_sublist_max {A} (f : A -> bool) l k :
  sublist k l -> Forall (fun x => f x = true) k -> sublist k (List.filter f l).
Proof.
  induction 1 as [|x k l _ IH|x k l _ IH]; intros Hk; cbn [List.filter].
  - constructor.
  - apply Forall_cons_1 in Hk as [Hx Hk]. rewrite Hx. constructor. auto.
  - destruct (f x); [constructor|]; auto.
Qed.

Lemma filter_all {A} (f : A -> bool) l :
  (forall x, In x l -> f x = true) -> List.filter f l = l.
Proof.
  induction l as [|x l IH]; intros H; cbn [List.filter]; [reflexivity|].
  rewrite (H x (or_introl eq_refl)). f_equal. apply IH. intros y Hy. apply H. now right.
Qed.

(** C10: [Library.handleDelete(itemId)] leaves exactly the previous list
    without the items whose [id] is [itemId]: an item is kept iff it was
    there with another id; the kept items are a sublist of the previous
    list (unchanged, same relative order) and every sublist of the previous
    list without that id is a sublist of the result; when no item has the
    id the list is unchanged.  The tier, the mode and the upgrade dialog
    are untouched. *)
Theorem handleDelete_frame (toastId itemId : str) (l : Library.State) (st : AppState) :
  let prev := libraryItems st in
  let st' := snd (Library.handleDelete toastId itemId (l, st)) in
  let kept := libraryItems st' in
  (forall item, In item kept <-> In item prev /\ ~ Library.has_id itemId item)
  /\ sublist kept prev
  /\ (forall k, sublist k prev -> Forall (fun item => ~ Library.has_id itemId item) k ->
                sublist k kept)
  /\ ((forall item, In item prev -> ~ Library.has_id itemId item) -> kept = prev)
  /\ subscriptionTier st' = subscriptionTier st
  /\ activeMode st' = activeMode st
  /\ showUpgradeModal st' = showUpgradeModal st.
Proof.
  cbn zeta. unfold Library.handleDelete. cbn [snd libraryItems addToast
    setLibraryItems subscriptionTier activeMode showUpgradeModal].
  split; [|split; [|split; [|split; [|auto]]]].
  - intros item. rewrite filter_In, keep_item_spec. reflexivity.
  - apply filter_sublist.
  - intros k Hk Hall. apply filter_sublist_max; [exact Hk|].
    eapply Forall_impl; [exact Hall|]. intros item. apply keep_item_spec.
  - intros H. apply filter_all. intros item Hin. apply keep_item_spec. auto.
Qed.

(** Deleting the id of the middle item of three, and an id that no item
    has. *)
Lemma handleDelete_frame_witness :
  let a := [(lit "id", VStr (lit "item-1"))] in
  let b := [(lit "id", VStr (lit "item-2"))] in
  let st := setLibraryItems (fun _ => [a; b; a]) initial in
  let l := {| Library.selectedItem := Some b |} in
  libraryItems (snd (Library.handleDelete (lit "t") (lit "item-2") (l, st))) = [a; a]
  /\ libraryItems (snd (Library.handleDelete (lit "t") (lit "item-9") (l, st)))
     = [a; b; a].
Proof.
  intros a b st l. split.
  - reflexivity.
  - apply (handleDelete_frame (lit "t") (lit "item-9") l st).
    intros item [<- | [<- | [<- | []]]]; unfold Library.has_id; cbn; discriminate.
Defined.

End LibraryDelete.

(** ** The prompt history *)

Section PromptHistory.

Lemma newHistory_cons p h :
  newHistory p h = p :: firstn 9 (List.filter (fun q => negb (str_eqb q p)) h).
Proof. reflexivity. Qed.

Lemma In_firstn_inv {A} (x : A) n l : In x (firstn n l) -> In x l.
Proof.
  intros H. rewrite <- (firstn_skipn n l). apply in_or_app. now left.
Qed.

Lemma filter_none {A} (f : A -> bool) l :
  (forall x, In x l -> f x = false) -> List.filter f l = [].
Proof.
  induction l as [|x l IH]; intros H; cbn [List.filter]; [reflexivity|].
  rewrite (H x (or_introl eq_refl)). apply IH. intros y Hy. apply H. now right.
Qed.

Lemma not_In_newHistory_tail p h :
  ~ In p (firstn 9 (List.filter (fun q => negb (str_eqb q p)) h)).
Proof.
  intros Hin. apply In_firstn_inv in Hin. apply filter_In in Hin as [_ Hne].
  now rewrite str_eqb_refl in Hne.
Qed.

(** C9: [addPromptToHistory] leaves the history unchanged for a prompt that
    trims to the empty string; otherwise the new history is the prompt
    followed by the old history without the elements equal to the prompt,
    cut to at most ten entries: it has at most ten entries, starts with the
    prompt and contains the prompt exactly once. *)
Theorem addPromptToHistory_spec (key p : str) (h : list str) (ls : Storage) :
  let h' := fst (addPromptToHistory key p h ls) in
  (trim p = [] -> h' = h /\ snd (addPromptToHistory key p h ls) = ls)
  /\ (trim p <> [] ->
        h' = firstn 10 (p :: List.filter (fun q => negb (str_eqb q p)) h)
        /\ (List.length h' <= 10)%nat
        /\ head h' = Some p
        /\ List.length (List.filter (fun q => str_eqb q p) h') = 1%nat).
Proof.
  cbn zeta. unfold addPromptToHistory.
  destruct (trim p) as [|c t] eqn:E; cbn [truthy negb fst snd].
  - split; [auto | congruence].
  - split; [discriminate|]. intros _.
    split; [reflexivity|]. split; [apply firstn_le_length|].
    rewrite newHistory_cons. split; [reflexivity|].
    cbn [List.filter]. rewrite str_eqb_refl. cbn [List.length]. f_equal.
    rewrite filter_none; [reflexivity|].
    intros q Hq. apply str_eqb_neq. intros ->.
    now apply (not_In_newHistory_tail p h).
Qed.

(** A prompt already present in a full history moves to the front. *)
Lemma addPromptToHistory_spec_witness :
  let h := List.map (fun c => [c]) (lit "abcdefghij") in
  let ls := {| entries := ∅; refuses := fun _ _ => false |} in
  trim (lit "d") <> [] /\
  fst (addPromptToHistory HISTORY_KEY (lit "d") h ls)
  = List.map (fun c => [c]) (lit "dabcefghij").
Proof.
  intros h ls. split; [discriminate|].
  destruct (addPromptToHistory_spec HISTORY_KEY (lit "d") h ls) as [_ H].
  destruct H as [H _]; [discriminate|].
  rewrite H. reflexivity.
Defined.

End PromptHistory.

(** ** Premium features *)

Section PremiumGate.

(** C8: [handlePremiumFeature(requiredTier, action)] runs the action iff
    the level of the current tier is at least the level of the required
    tier, the levels being ordered free < silver < golden < diamond;
    otherwise it invokes [promptUpgrade], the action is not run and the
    component state, with every gated setting, is unchanged. *)
Theorem handlePremiumFeature_spec (requiredTier : SubscriptionTier)
    (action : State * AppState -> State * AppState)
    (s : State) (a : AppState) :
  (tierLevels free < tierLevels silver
   /\ tierLevels silver < tierLevels golden
   /\ tierLevels golden < tierLevels diamond)
  /\ (premium_branch (subscriptionTier a) requiredTier = InvokedAction
      <-> tierLevels requiredTier <= tierLevels (subscriptionTier a))
  /\ (tierLevels requiredTier <= tierLevels (subscriptionTier a) ->
      handlePremiumFeature requiredTier action (s, a) = action (s, a))
  /\ (tierLevels (subscriptionTier a) < tierLevels requiredTier ->
      premium_branch (subscriptionTier a) requiredTier = InvokedPromptUpgrade
      /\ handlePremiumFeature requiredTier action (s, a) = (s, promptUpgrade a)).
Proof.
  split; [repeat split; reflexivity|].
  unfold handlePremiumFeature, premium_branch. cbn [fst snd].
  destruct (tierLevels (subscriptionTier a) <? tierLevels requiredTier) eqn:E.
  - apply N.ltb_lt in E. repeat split; intros; try lia; try discriminate.
  - apply N.ltb_ge in E. repeat split; intros; try lia; try reflexivity.
Qed.

(** A silver subscriber may pick a silver duration and is sent to the
    upgrade dialog for a golden one. *)
Lemma handlePremiumFeature_spec_witness :
  let s := initial_state in
  let a := {| activeMode := VIDEO; libraryItems := []; subscriptionTier := silver;
              toasts := []; showUpgradeModal := false |} in
  let pick d := fun w : State * AppState => (setDuration d (fst w), snd w) in
  handlePremiumFeature silver (pick d_medium) (s, a) = (setDuration d_medium s, a)
  /\ handlePremiumFeature golden (pick d_long) (s, a) = (s, promptUpgrade a).
Proof.
  intros s a pick. split.
  - apply (handlePremiumFeature_spec silver (pick d_medium) s a). cbn. lia.
  - apply (handlePremiumFeature_spec golden (pick d_long) s a). cbn. lia.
Defined.

End PremiumGate.

(** ** Field presence in the library *)

Section LibraryFields.

Lemma toISOString_nonempty t : exists c s, Clock.toISOString t = c :: s.
Proof.
  unfold Clock.toISOString.
  destruct (Clock.civil_from_days (t / 86400000)) as [[y m] d].
  match goal with |- exists c s, ?year ++ ?rest = _ => destruct year as [|c s] end.
  - eexists _, _. reflexivity.
  - now exists c, (s ++ lit "-" ++ Clock.pad 2 m ++ lit "-" ++ Clock.pad 2 d ++ lit "T"
      ++ Clock.pad 2 (t mod 86400000 / 3600000) ++ lit ":"
      ++ Clock.pad 2 (t mod 86400000 / 60000 mod 60) ++ lit ":"
      ++ Clock.pad 2 (t mod 86400000 / 1000 mod 60) ++ lit "."
      ++ Clock.pad 3 ((t mod 86400000) mod 1000) ++ lit "Z").
Qed.

Ltac other_key := intros Hk; apply (f_equal (@List.length N)) in Hk; discriminate Hk.

(** What a stored item holds: the argument's fields, with [id] and
    [createdAt] from the clock readings of the insertion. *)
Lemma newItem_fields env item :
  obj_get (lit "id") (newItem env item) = VStr (lit "item-" ++ Clock.dec (now_id env))
  /\ obj_get (lit "createdAt") (newItem env item)
     = VStr (Clock.toISOString (now_created env))
  /\ obj_get (lit "type") (newItem env item) = obj_get (lit "type") item
  /\ obj_get (lit "src") (newItem env item) = obj_get (lit "src") item
  /\ obj_get (lit "settings") (newItem env item) = obj_get (lit "settings") item.
Proof.
  unfold newItem. repeat split.
  - rewrite obj_get_set_ne by other_key. apply obj_get_set_eq.
  - apply obj_get_set_eq.
  - now rewrite !obj_get_set_ne by other_key.
  - now rewrite !obj_get_set_ne by other_key.
  - now rewrite !obj_get_set_ne by other_key.
Qed.

Lemma newItem_fields_present env item :
  item_argument item = true -> fields_present (newItem env item) = true.
Proof.
  unfold item_argument, fields_present. intros H.
  destruct (newItem_fields env item) as (-> & -> & -> & -> & ->).
  destruct (toISOString_nonempty (now_created env)) as (c & s & ->).
  exact H.
Qed.

(** The library after a save, whatever the notification switch. *)
Lemma handleSaveToLibrary_library env item st :
  libraryItems (handleSaveToLibrary env item st)
  = newItem env item :: libraryItems st.
Proof. unfold handleSaveToLibrary. now destruct (notify_saved env). Qed.

Lemma apply_op_fields op st :
  well_typed_op op ->
  Forall (fun item => fields_present item = true) (libraryItems (app_part st)) ->
  Forall (fun item => fields_present item = true)
         (libraryItems (app_part (apply_op st op))).
Proof.
  intros Hop Hst. destruct op as [env item | toastId itemId | toastId];
    cbn [apply_op app_part Library.handleDelete
         Settings.handleClearLibrary addToast setLibraryItems libraryItems snd].
  - rewrite handleSaveToLibrary_library. apply Forall_cons_2; [now apply newItem_fields_present | exact Hst].
  - apply List.Forall_forall. intros item [Hin _]%filter_In.
    revert item Hin. now apply List.Forall_forall.
  - constructor.
Qed.

Lemma run_ops_fields ops st :
  Forall well_typed_op ops ->
  Forall (fun item => fields_present item = true) (libraryItems (app_part st)) ->
  Forall (fun item => fields_present item = true)
         (libraryItems (app_part (run_ops ops st))).
Proof.
  unfold run_ops. intros Hops. revert st.
  induction Hops as [|op ops Hop _ IH]; intros st Hst; [exact Hst|].
  cbn [fold_left]. apply IH. now apply apply_op_fields.
Qed.

(** C7: starting from the empty library, after any sequence of
    [handleSaveToLibrary] calls whose argument has the declared type,
    per-item deletions and clearings, every item of the library has a
    non-empty [id] and [createdAt], a [type] that is 'IMAGE' or 'VIDEO', a
    [src] and a [settings] object with a [prompts] array; [id] and
    [createdAt] are those made from the clock at the insertion. *)
Theorem library_fields_invariant (ops : list LibraryOp) :
  Forall well_typed_op ops ->
  Forall (fun item => fields_present item = true)
         (libraryItems (app_part (run_ops ops start)))
  /\ (forall env item st,
        exists rest,
          libraryItems (handleSaveToLibrary env item st) = newItem env item :: rest
          /\ rest = libraryItems st
          /\ obj_get (lit "id") (newItem env item)
             = VStr (lit "item-" ++ Clock.dec (now_id env))
          /\ obj_get (lit "createdAt") (newItem env item)
             = VStr (Clock.toISOString (now_created env))).
Proof.
  intros Hops. split.
  - apply run_ops_fields; [exact Hops | constructor].
  - intros env item st. exists (libraryItems st).
    destruct (newItem_fields env item) as (Hid & Hc & _).
    rewrite handleSaveToLibrary_library. repeat split; assumption.
Qed.

(** Two saves, a deletion of the first saved item and one more save. *)
Lemma library_fields_invariant_witness :
  let item := [ (lit "type", VStr (lit "VIDEO")); (lit "src", VStr (lit "blob:1"));
                (lit "settings", VObj [(lit "prompts", VArr [VStr (lit "a fox")])]) ] in
  let env t := {| now_id := t; now_created := t; save_toast_id := lit "t"; notify_saved := true |} in
  let ops := [ OpSave (env 1700000000000%Z) item; OpSave (env 1700000000001%Z) item;
               OpDelete (lit "t") (lit "item-1700000000000");
               OpSave (env 1700000000002%Z) item ] in
  Forall well_typed_op ops
  /\ List.map (obj_get (lit "id")) (libraryItems (app_part (run_ops ops start)))
     = [VStr (lit "item-1700000000002"); VStr (lit "item-1700000000001")]
  /\ Forall (fun item => fields_present item = true)
            (libraryItems (app_part (run_ops ops start))).
Proof.
  intros item env ops.
  assert (Hops : Forall well_typed_op ops).
  { repeat (apply Forall_cons_2; [try exact I; reflexivity|]). constructor. }
  split; [exact Hops|]. split; [vm_compute; reflexivity|].
  apply (library_fields_invariant ops Hops).
Defined.

End LibraryFields.

(** ** The polling loop *)

Section Polling.

Context (api : Api).

Lemma poll_done fuel k op :
  done op = true -> poll api fuel k op = ([], Some (Ok op)).
Proof. intros H. destruct fuel; cbn [poll]; now rewrite H. Qed.

Lemma waits_S n : waits (S n) = EvSetTimeout 10000 :: EvGetVideosOperation :: waits n.
Proof. reflexivity. Qed.

(** The loop stops at the first finished answer, after one wait and one
    poll per unfinished answer. *)
Lemma poll_first_done d : forall k op fuel opd,
  answers api k = Ok op ->
  (forall j, (j < d)%nat -> exists o, answers api (k + j) = Ok o /\ done o = false) ->
  answers api (k + d) = Ok opd -> done opd = true ->
  (d <= fuel)%nat ->
  poll api fuel k op = (waits d, Some (Ok opd)).
Proof.
  induction d as [|d IH]; intros k op fuel opd Hk Hbefore Hd Hdone Hfuel.
  - rewrite Nat.add_0_r, Hk in Hd. injection Hd as ->. now apply poll_done.
  - destruct fuel as [|fuel]; [lia|].
    destruct (Hbefore 0%nat ltac:(lia)) as (o & Ho & Hnd).
    rewrite Nat.add_0_r, Hk in Ho. injection Ho as <-.
    cbn [poll]. rewrite Hnd.
    assert (Hnext : exists op', answers api (S k) = Ok op').
    { destruct d as [|d'].
      - exists opd. now rewrite <- Hd, Nat.add_1_r.
      - destruct (Hbefore 1%nat ltac:(lia)) as (o' & Ho' & _).
        exists o'. now rewrite <- Ho', Nat.add_1_r. }
    destruct Hnext as [op' Hop']. rewrite Hop'.
    rewrite (IH (S k) op' fuel opd); [now rewrite waits_S | exact Hop' | | | | lia].
    + intros j Hj. destruct (Hbefore (S j) ltac:(lia)) as (o' & Ho' & Hn').
      exists o'. split; [|exact Hn']. now rewrite <- Ho', Nat.add_succ_r.
    + now rewrite <- Hd, Nat.add_succ_r.
    + exact Hdone.
Qed.

Lemma done_before_or_not m :
  (forall k, (k < m)%nat -> exists op, answers api k = Ok op) ->
  (forall k, (k < m)%nat -> exists op, answers api k = Ok op /\ done op = false)
  \/ exists k, (k < m)%nat /\ exists op, answers api k = Ok op /\ done op = true.
Proof.
  induction m as [|m IH]; intros Hall.
  - left. intros k Hk. lia.
  - destruct IH as [Hnone | (k & Hk & Hex)].
    + intros k Hk. apply Hall. lia.
    + destruct (Hall m ltac:(lia)) as [op Hop].
      destruct (done op) eqn:E.
      * right. exists m. split; [lia|]. now exists op.
      * left. intros k Hk. destruct (Nat.eq_dec k m) as [-> | Hne].
        -- now exists op.
        -- apply Hnone. lia.
    + right. exists k. split; [lia | exact Hex].
Qed.

(** Some finished answer after answers only: there is a first one. *)
Lemma exists_first_done m :
  (forall k, (k <= m)%nat -> exists op, answers api k = Ok op) ->
  (exists op, answers api m = Ok op /\ done op = true) ->
  exists n, (n <= m)%nat /\ first_done api n.
Proof.
  induction m as [m IH] using lt_wf_ind. intros Hall Hm.
  destruct (done_before_or_not m) as [Hnone | (k & Hk & Hex)].
  - intros k Hk. apply Hall. lia.
  - exists m. split; [lia|]. now split.
  - destruct (IH k Hk) as (n & Hn & Hfirst).
    + intros j Hj. apply Hall. lia.
    + exact Hex.
    + exists n. split; [lia | exact Hfirst].
Qed.

Lemma download_link_cases op :
  (forall link videoResponse videoBlob,
      downloadLink op = Some link -> link <> [] ->
      fetch api (link ++ lit "&key=" ++ API_KEY api) = Ok videoResponse ->
      ok videoResponse = true -> blob videoResponse = Ok videoBlob ->
      snd (download api op) = Fulfilled (createObjectURL api videoBlob))
  /\ (downloadLink op = None \/ downloadLink op = Some [] ->
      snd (download api op) =
      Rejected (ErrorObject
                  (lit "Video generation failed or did not return a valid link."))).
Proof.
  unfold download. split.
  - intros link r b Hl Hne Hf Hok Hb. rewrite Hl.
    destruct link as [|c link]; [contradiction|].
    cbn [snd]. now rewrite Hf, Hok, Hb.
  - intros [-> | ->]; reflexivity.
Qed.

(** [generateVideoInternal] on a service whose [n]-th answer is the first
    finished one. *)
Lemma generateVideoInternal_first_done n op prompt image fuel :
  first_done api n -> answers api n = Ok op -> (n <= fuel)%nat ->
  let c := generateVideoInternal api fuel prompt image in
  events c = EvGenerateVideos prompt image :: waits n ++ fst (download api op)
  /\ result c = snd (download api op).
Proof.
  intros [Hbefore (opd & Hn & Hdone)] Hop Hfuel.
  rewrite Hop in Hn. injection Hn as <-.
  assert (H0 : exists op0, answers api 0%nat = Ok op0).
  { destruct n as [|n]; [now exists op|].
    destruct (Hbefore 0%nat ltac:(lia)) as (o & Ho & _). now exists o. }
  destruct H0 as [op0 H0].
  cbn zeta. unfold generateVideoInternal. rewrite H0.
  rewrite (poll_first_done n 0 op0 fuel op H0); [| |exact Hop|exact Hdone|exact Hfuel].
  - destruct (download api op) as [tr' p]. now split.
  - intros j Hj. apply Hbefore. exact Hj.
Qed.

(** While no answer is finished the loop goes on: whatever the fuel, the
    model has not left it. *)
Lemma poll_never_done fuel : forall k op,
  done op = false ->
  (forall j, exists o, answers api j = Ok o /\ done o = false) ->
  snd (poll api fuel k op) = None.
Proof.
  induction fuel as [|fuel IH]; intros k op Hop Hall; cbn [poll]; rewrite Hop.
  - reflexivity.
  - destruct (Hall (S k)) as (o & -> & Ho).
    specialize (IH (S k) o Ho Hall).
    destruct (poll api fuel (S k) o) as [tr r]. exact IH.
Qed.

Lemma generateVideoInternal_pending fuel prompt image :
  (forall j, exists o, answers api j = Ok o /\ done o = false) ->
  result (generateVideoInternal api fuel prompt image) = Pending.
Proof.
  intros Hall. unfold generateVideoInternal.
  destruct (Hall 0%nat) as (op & -> & Hop).
  pose proof (poll_never_done fuel 0 op Hop Hall) as H.
  destruct (poll api fuel 0 op) as [tr r]. cbn [snd] in H. now subst r.
Qed.

End Polling.

Section PollingClaim.



End PollingClaim.

(** ** Submitting a video request *)

Section Submit.

Lemma soundtrack_result m : exists a, result (soundtrack m) = Fulfilled a.
Proof. destruct m; eexists; reflexivity. Qed.

Lemma soundtrack_none : soundtrack am_none
  = {| issued := []; later := []; result := Fulfilled None |}.
Proof. reflexivity. Qed.

Lemma soundtrack_issued m :
  m <> am_none ->
  issued (soundtrack m) =
    [ EvGenerateSoundEffect
        (lit "A soundtrack for a video with an " ++ quoted (audioMood_label m) ++ lit " mood")
        (AudioMood_str m);
      EvConsoleLog
        (lit "Generate a sound effect for: "
         ++ (lit "A soundtrack for a video with an " ++ quoted (audioMood_label m) ++ lit " mood")
         ++ lit ". Style: " ++ AudioMood_str m);
      EvSetTimeout 3000 ]
  /\ later (soundtrack m) = []
  /\ result (soundtrack m) = Fulfilled (Some placeholderAudio).
Proof. destruct m; [contradiction|..]; intros _; repeat split. Qed.

(** With a never-rejecting second promise, [Promise.all] rejects exactly
    when the first one does, with its reason. *)
Lemma Promise_all2_right_fulfilled {A B} race (p : Promise A) (b : B) :
  Promise_all2 race p (Fulfilled b) =
  match p with
  | Fulfilled a => Fulfilled (a, b)
  | Rejected e => Rejected e
  | Pending => Pending
  end.
Proof. now destruct p. Qed.

(** [Promise.all] rejects with the reason of the promise that rejects
    first. *)
Lemma Promise_all2_first_rejection {A B} race (p : Promise A) (q : Promise B) e :
  Promise_all2 race p q = Rejected e ->
  (p = Rejected e /\ (forall e', q = Rejected e' -> race = LeftFirst))
  \/ (q = Rejected e /\ (forall e', p = Rejected e' -> race = RightFirst)).
Proof.
  destruct p as [a|e1|], q as [b|e2|]; cbn; try discriminate;
    try (intros [= ->];
         first [ left; split; [reflexivity | discriminate]
               | right; split; [reflexivity | discriminate] ]).
  destruct race; intros [= ->]; [left | right]; now split.
Qed.

(** The item [handleSubmit] saves has the type [handleSaveToLibrary]
    declares for its argument. *)
Lemma saved_item_argument s videoResult audioResult :
  item_argument (saved_item (currentSettings s) videoResult audioResult) = true.
Proof. reflexivity. Qed.

Lemma emit_nil w : emit [] w = w.
Proof. destruct w. unfold emit. cbn. now rewrite app_nil_r. Qed.

(** [handleSubmit] once the checks passed and the image, if any, is read. *)
Lemma handleSubmit_ready env w image :
  ready env (component w) = Some image ->
  handleSubmit env w =
  let s := component w in
  let hl := addPromptToHistory HISTORY_KEY (prompt s) (promptHistory s) (storage w) in
  let w2 := emit (file_events s)
              {| component := begin_submit (currentSettings s) (fst hl) s;
                 app_state := app_state w; storage := snd hl; trace := trace w |} in
  let videoPromise := video_call env s image in
  let audioPromise := soundtrack (audioMood s) in
  let w3 := emit (issued videoPromise ++ issued audioPromise ++ [EvPromiseAll]
                  ++ later videoPromise ++ later audioPromise) w2 in
  match Promise_all2 (race env) (result videoPromise) (result audioPromise) with
  | Pending => None
  | Rejected e => Some (on_rejection env e w3)
  | Fulfilled (videoResult, audioResult) =>
      Some (on_results env (currentSettings s) videoResult audioResult w3)
  end.
Proof.
  unfold ready, handleSubmit, file_events, video_call. cbv zeta.
  destruct (negb (truthy (prompt (component w)))); [discriminate|].
  destruct (addPromptToHistory HISTORY_KEY (prompt (component w))
              (promptHistory (component w)) (storage w)) as [history ls].
  cbn [fst snd].
  destruct (mode (component w)), (imageFile (component w)) as [f|];
    try discriminate.
  - intros [= <-]. now rewrite emit_nil.
  - intros [= <-]. now rewrite emit_nil.
  - destruct (fileToBase64 env) as [p| |]; try discriminate.
    intros [= <-]. reflexivity.
Qed.

Lemma poll_no_request api fuel : forall k op,
  List.filter is_video_request (fst (poll api fuel k op)) = [].
Proof.
  induction fuel as [|fuel IH]; intros k op; cbn [poll].
  - now destruct (done op).
  - destruct (done op); [reflexivity|].
    destruct (answers api (S k)) as [op'|e]; [|reflexivity].
    specialize (IH (S k) op'). destruct (poll api fuel (S k) op') as [tr r].
    exact IH.
Qed.

Lemma download_no_request api op :
  List.filter is_video_request (fst (download api op)) = [].
Proof.
  unfold download. destruct (downloadLink op) as [[|c l]|]; reflexivity.
Qed.

(** One call of [generateVideoInternal] sends one generation request. *)
Lemma generateVideoInternal_one_request api fuel prompt image :
  let c := generateVideoInternal api fuel prompt image in
  issued c = [EvGenerateVideos prompt image]
  /\ List.filter is_video_request (later c) = [].
Proof.
  cbn zeta. unfold generateVideoInternal.
  destruct (answers api 0%nat) as [op|e]; [|now split].
  pose proof (poll_no_request api fuel 0 op) as Hp.
  destruct (poll api fuel 0 op) as [tr [[fin|e]|]]; cbn [fst] in Hp;
    [|now split|now split].
  pose proof (download_no_request api fin) as Hd.
  destruct (download api fin) as [tr' p]. cbn [fst] in Hd.
  split; [reflexivity|]. cbn [later]. now rewrite List.filter_app, Hp, Hd.
Qed.

Lemma soundtrack_no_video_request m :
  List.filter is_video_request (issued (soundtrack m) ++ later (soundtrack m)) = [].
Proof. now destruct m. Qed.

End Submit.

Section SubmitClaims.

Lemma on_rejection_fields env e w :
  let w' := on_rejection env e w in
  let msg := message_or (lit "An unknown error occurred.") e in
  error_state (component w') = Some msg
  /\ toasts (app_state w')
     = toasts (app_state w)
       ++ [{| toast_id := error_toast_id env; message := msg; toast_type := error |}]
  /\ libraryItems (app_state w') = libraryItems (app_state w)
  /\ isLoading (component w') = false
  /\ trace w' = trace w.
Proof. repeat split. Qed.

(** The events of a submission whose checks passed, and its one video
    request. *)
Lemma submit_events env s image :
  let new := file_events s ++ issued (video_call env s image)
             ++ issued (soundtrack (audioMood s)) ++ [EvPromiseAll]
             ++ later (video_call env s image) ++ later (soundtrack (audioMood s)) in
  List.length (List.filter is_video_request new) = 1%nat.
Proof.
  cbn zeta. unfold video_call, generateVideo.
  match goal with |- context [generateVideoInternal ?a ?f ?p ?i] =>
    destruct (generateVideoInternal_one_request a f p i) as [Hi Hl];
    set (c := generateVideoInternal a f p i) in *
  end.
  rewrite !List.filter_app, Hi, Hl.
  replace (List.filter is_video_request (file_events s)) with (@nil Event)
    by (unfold file_events; destruct (mode s), (imageFile s); reflexivity).
  destruct (audioMood s); reflexivity.
Qed.

(** The other way out of the [try] block: when the video is generated, it
    is shown and saved on top of the library, and the loading flag is false
    again. *)
Lemma handleSubmit_success env w image url :
  ready env (component w) = Some image ->
  result (video_call env (component w) image) = Fulfilled url ->
  exists w' audio,
    handleSubmit env w = Some w'
    /\ result (soundtrack (audioMood (component w))) = Fulfilled audio
    /\ generatedVideo (component w') = Some url
    /\ error_state (component w') = None
    /\ isLoading (component w') = false
    /\ libraryItems (app_state w')
       = newItem (save_env env)
           (saved_item (currentSettings (component w)) url audio)
         :: libraryItems (app_state w).
Proof.
  intros Hready Hok.
  rewrite (handleSubmit_ready env w image Hready). cbv zeta.
  destruct (soundtrack_result (audioMood (component w))) as [a Ha].
  rewrite Ha, Promise_all2_right_fulfilled, Hok.
  eexists _, a. split; [reflexivity|].
  cbn [on_results app_state]. rewrite handleSaveToLibrary_library.
  repeat split.
Qed.

(** C4: when the video generation of a submission fails, the rejection is
    caught in [handleSubmit]: the error's message is stored and shown as an
    error toast, the generation request was sent once and is not repeated,
    no item is added to the library, whose list is what it was, and the
    loading flag is false again. *)
Theorem handleSubmit_failure (env : SubmitEnv) (w : World)
    (image : option ImagePayload) (e : Reason) :
  ready env (component w) = Some image ->
  result (video_call env (component w) image) = Rejected e ->
  exists w' new,
    handleSubmit env w = Some w'
    /\ error_state (component w')
       = Some (message_or (lit "An unknown error occurred.") e)
    /\ (forall m, e = ErrorObject m -> error_state (component w') = Some m)
    /\ toasts (app_state w')
       = toasts (app_state w)
         ++ [{| toast_id := error_toast_id env;
                message := message_or (lit "An unknown error occurred.") e;
                toast_type := error |}]
    /\ libraryItems (app_state w') = libraryItems (app_state w)
    /\ isLoading (component w') = false
    /\ trace w' = trace w ++ new
    /\ List.length (List.filter is_video_request new) = 1%nat.
Proof.
  intros Hready Hrej.
  rewrite (handleSubmit_ready env w image Hready). cbv zeta.
  destruct (soundtrack_result (audioMood (component w))) as [a Ha].
  rewrite Ha, Promise_all2_right_fulfilled, Hrej.
  eexists _, _. split; [reflexivity|].
  match goal with |- context [on_rejection env e ?w3] =>
    destruct (on_rejection_fields env e w3) as (He & Ht & Hl & Hi & Htr)
  end.
  cbv zeta in He, Ht, Hl, Hi, Htr.
  split; [exact He|]. split; [intros m ->; exact He|].
  split; [exact Ht|]. split; [exact Hl|]. split; [exact Hi|].
  split.
  - rewrite Htr. unfold emit. cbn [trace]. rewrite <- app_assoc. reflexivity.
  - apply submit_events.
Qed.

(** A submission whose generation request the service rejects. *)
Lemma handleSubmit_failure_witness :
  let env :=
    {| api := {| API_KEY := lit "K";
                 answers := fun _ => Throw (ErrorObject (lit "quota exceeded"));
                 fetch := fun _ => Throw (ErrorObject (lit "offline"));
                 createObjectURL := fun b => blob_data b |};
       fuel := 0; fileToBase64 := Pending; race := LeftFirst;
       save_env := {| now_id := 0; now_created := 0; save_toast_id := lit "s"; notify_saved := true |};
       error_toast_id := lit "e" |} in
  let w :=
    {| component := setAudioMood am_epic (setPrompt (lit "a fox") initial_state);
       app_state := initial;
       storage := {| entries := ∅; refuses := fun _ _ => false |};
       trace := [] |} in
  exists w',
    handleSubmit env w = Some w'
    /\ error_state (component w') = Some (lit "quota exceeded")
    /\ List.map message (toasts (app_state w')) = [lit "quota exceeded"]
    /\ libraryItems (app_state w') = []
    /\ isLoading (component w') = false.
Proof.
  intros env w.
  destruct (handleSubmit_failure env w None (ErrorObject (lit "quota exceeded")))
    as (w' & new & Hs & He & _ & Ht & Hl & Hi & _); [reflexivity | reflexivity |].
  exists w'. split; [exact Hs|]. split; [exact He|].
  split; [rewrite Ht; reflexivity|]. split; [exact Hl | exact Hi].
Defined.

End SubmitClaims.

Section ConcurrentRequests.

Lemma In_sound_request m p f :
  In (EvGenerateSoundEffect p f) (issued (soundtrack m) ++ later (soundtrack m))
  -> m <> am_none.
Proof. intros H ->. destruct H. Qed.

(** C3: in a submission that passed its checks, the video request and the
    soundtrack request are both issued before [Promise.all] awaits them
    together; the soundtrack request is issued iff the audio mood is not
    'none', and otherwise the result [null] is used.  When the awaited pair
    rejects, it does so with the reason of the request that rejected first
    (the soundtrack mock never rejects, so that is the video request); the
    message of that rejection is stored in the error state and shown as an
    error toast, and the generation request is not sent a second time. *)
Theorem handleSubmit_concurrent_requests (env : SubmitEnv) (w : World)
    (image : option ImagePayload) :
  ready env (component w) = Some image ->
  let s := component w in
  let videoPromise := video_call env s image in
  let audioPromise := soundtrack (audioMood s) in
  (forall w', handleSubmit env w = Some w' ->
     trace w' = trace w ++ file_events s
                ++ issued videoPromise ++ issued audioPromise ++ [EvPromiseAll]
                ++ later videoPromise ++ later audioPromise)
  /\ issued videoPromise
     = [EvGenerateVideos
          (constructVideoPrompt (prompt s) (style s) (negativePrompt s)
             (duration s) (cameraMovement s) (quality s) (language s)
             (framing s) (persona s) (loopVideo s) (aspectRatio s) (fps s)
             (motionIntensity s) (audioMood s)) image]
  /\ ((exists p f, In (EvGenerateSoundEffect p f)
                     (issued audioPromise ++ later audioPromise))
      <-> audioMood s <> am_none)
  /\ (audioMood s = am_none ->
      issued audioPromise = [] /\ result audioPromise = Fulfilled None)
  /\ (forall (p : Promise str) (q : Promise (option str)) r e,
        Promise_all2 r p q = Rejected e ->
        (p = Rejected e /\ (forall e', q = Rejected e' -> r = LeftFirst))
        \/ (q = Rejected e /\ (forall e', p = Rejected e' -> r = RightFirst)))
  /\ (forall e,
        Promise_all2 (race env) (result videoPromise) (result audioPromise)
        = Rejected e ->
        result videoPromise = Rejected e
        /\ exists w',
             handleSubmit env w = Some w'
             /\ error_state (component w')
                = Some (message_or (lit "An unknown error occurred.") e)
             /\ (forall m, e = ErrorObject m -> error_state (component w') = Some m)
             /\ toasts (app_state w')
                = toasts (app_state w)
                  ++ [{| toast_id := error_toast_id env;
                         message := message_or (lit "An unknown error occurred.") e;
                         toast_type := error |}]
             /\ List.length
                  (List.filter is_video_request
                     (file_events s ++ issued videoPromise ++ issued audioPromise
                      ++ [EvPromiseAll] ++ later videoPromise ++ later audioPromise))
                = 1%nat).
Proof.
  intros Hready s videoPromise audioPromise.
  pose proof (handleSubmit_ready env w image Hready) as Hs. cbv zeta in Hs.
  fold s videoPromise audioPromise in Hs.
  destruct (soundtrack_result (audioMood s)) as [a Ha]. fold audioPromise in Ha.
  split.
  { intros w' Hw'. rewrite Hs in Hw'.
    destruct (Promise_all2 (race env) (result videoPromise) (result audioPromise))
      as [[v au]|e|]; [| |discriminate]; injection Hw' as <-;
      cbn [on_results on_rejection emit trace]; now rewrite <- !app_assoc. }
  split.
  { subst videoPromise. unfold video_call, generateVideo.
    apply generateVideoInternal_one_request. }
  split.
  { split.
    - intros (p & f & Hin). now apply In_sound_request in Hin.
    - intros Hne. subst audioPromise.
      destruct (soundtrack_issued _ Hne) as (-> & _ & _).
      eexists _, _. left. reflexivity. }
  split.
  { intros Hnone. subst audioPromise. rewrite Hnone. now split. }
  split.
  { intros p q r e. apply Promise_all2_first_rejection. }
  intros e Hrej.
  assert (Hv : result videoPromise = Rejected e).
  { rewrite Ha, Promise_all2_right_fulfilled in Hrej.
    destruct (result videoPromise); congruence. }
  split; [exact Hv|].
  rewrite Hs, Hrej. eexists. split; [reflexivity|].
  match goal with |- context [on_rejection env e ?w3] =>
    destruct (on_rejection_fields env e w3) as (He & Ht & _)
  end.
  cbv zeta in He, Ht.
  split; [exact He|]. split; [intros m ->; exact He|]. split; [exact Ht|].
  apply submit_events.
Qed.

(** A submission with the mood 'epic' whose generation request is
    rejected: both requests were issued, then awaited together. *)
Lemma handleSubmit_concurrent_requests_witness :
  let env :=
    {| api := {| API_KEY := lit "K";
                 answers := fun _ => Throw (ErrorObject (lit "quota exceeded"));
                 fetch := fun _ => Throw (ErrorObject (lit "offline"));
                 createObjectURL := fun b => blob_data b |};
       fuel := 0; fileToBase64 := Pending; race := LeftFirst;
       save_env := {| now_id := 0; now_created := 0; save_toast_id := lit "s"; notify_saved := true |};
       error_toast_id := lit "e" |} in
  let w :=
    {| component := setAudioMood am_epic (setPrompt (lit "a fox") initial_state);
       app_state := initial;
       storage := {| entries := ∅; refuses := fun _ _ => false |};
       trace := [] |} in
  exists w',
    handleSubmit env w = Some w'
    /\ List.map (fun e => (is_video_request e, is_sound_request e,
                          match e with EvPromiseAll => true | _ => false end))
         (trace w')
       = [(true, false, false); (false, true, false); (false, false, false);
          (false, false, false); (false, false, true)]
    /\ error_state (component w') = Some (lit "quota exceeded").
Proof.
  intros env w.
  destruct (handleSubmit_concurrent_requests env w None eq_refl)
    as (Htr & _ & _ & _ & _ & Hrej).
  destruct (Hrej (ErrorObject (lit "quota exceeded")) eq_refl)
    as (_ & w' & Hs & He & _).
  exists w'. split; [exact Hs|]. split; [|exact He].
  rewrite (Htr w' Hs). reflexivity.
Defined.

End ConcurrentRequests.

(** ** Strings survive [JSON.stringify] and [JSON.parse] *)

Section StringRoundTrip.

Lemma hex_value_digit d : d < 16 -> hex_value (hex_digit d) = Some d.
Proof.
  intros H.
  assert (Hd : In d [0; 1; 2; 3; 4; 5; 6; 7; 8; 9; 10; 11; 12; 13; 14; 15]).
  { cbn [In]. lia. }
  cbn [In] in Hd.
  repeat (destruct Hd as [<- | Hd]; [reflexivity|]). destruct Hd.
Qed.

Lemma hex4_escape c :
  c < 65536 ->
  hex4 (hex_digit (c / 4096 mod 16)) (hex_digit (c / 256 mod 16))
       (hex_digit (c / 16 mod 16)) (hex_digit (c mod 16)) = Some c.
Proof.
  intros Hc. unfold hex4.
  rewrite !hex_value_digit by (apply N.mod_upper_bound; discriminate).
  f_equal.
  pose proof (N.div_mod c 16 ltac:(discriminate)) as H0.
  pose proof (N.div_mod (c / 16) 16 ltac:(discriminate)) as H1.
  pose proof (N.div_mod (c / 256) 16 ltac:(discriminate)) as H2.
  replace (c / 16 / 16) with (c / 256) in H1
    by (rewrite N.Div0.div_div; reflexivity).
  replace (c / 256 / 16) with (c / 4096) in H2
    by (rewrite N.Div0.div_div; reflexivity).
  assert (H3 : c / 4096 < 16)
    by (apply N.Div0.div_lt_upper_bound; exact Hc).
  rewrite (N.mod_small (c / 4096) 16 H3). lia.
Qed.

Lemma parse_escape c X acc :
  c < 65536 ->
  parse_string_body (unicode_escape c ++ X) acc = parse_string_body X (c :: acc).
Proof.
  intros Hc. unfold unicode_escape. cbn [app parse_string_body].
  change (92 =? 34) with false. change (92 =? 92) with true.
  change (117 =? 34) with false. change (117 =? 92) with false.
  change (117 =? 47) with false. change (117 =? 98) with false.
  change (117 =? 102) with false. change (117 =? 110) with false.
  change (117 =? 114) with false. change (117 =? 116) with false.
  change (117 =? 117) with true. cbv iota. now rewrite hex4_escape.
Qed.

Lemma parse_plain c X acc :
  (c =? 34) = false -> (c =? 92) = false -> (c <? 32) = false ->
  parse_string_body (c :: X) acc = parse_string_body X (c :: acc).
Proof. intros H1 H2 H3. cbn [parse_string_body]. now rewrite H1, H2, H3. Qed.

Lemma parse_short_escape e X acc :
  In e [34; 92; 98; 102; 110; 114; 116] ->
  parse_string_body (92 :: e :: X) acc =
  parse_string_body X
    ((if e =? 98 then 8 else if e =? 102 then 12 else if e =? 110 then 10
      else if e =? 114 then 13 else if e =? 116 then 9 else e) :: acc).
Proof.
  intros [<- | [<- | [<- | [<- | [<- | [<- | [<- | []]]]]]]]; reflexivity.
Qed.

Ltac surrogate_plain :=
  unfold is_high_surrogate, is_low_surrogate in *;
  repeat match goal with
         | H : (_ && _) = true |- _ => apply andb_true_iff in H as [? ?]
         | H : (_ <=? _) = true |- _ => apply N.leb_le in H
         end;
  first [ apply N.eqb_neq | apply N.ltb_ge ]; lia.

(** The body of a quoted string, followed by the closing quote, decodes to
    the string. *)
Lemma parse_quote_body s : forall b rest acc,
  parse_string_body (quote_body b s ++ 34 :: rest) acc = Some (rev acc ++ s, rest).
Proof.
  induction s as [|c s IH]; intros b rest acc.
  - cbn. now rewrite app_nil_r.
  - assert (Hnext : forall X d,
        X = quote_body false s \/ X = quote_body true s ->
        parse_string_body (X ++ 34 :: rest) (d :: acc)
        = Some (rev acc ++ d :: s, rest)).
    { intros X d [-> | ->]; rewrite IH; cbn [rev]; now rewrite <- app_assoc. }
    cbn [quote_body].
    change (lit "\b") with [92; 98]. change (lit "\t") with [92; 116].
    change (lit "\n") with [92; 110]. change (lit "\f") with [92; 102].
    change (lit "\r") with [92; 114].
    destruct (c =? 8) eqn:E8.
    { apply N.eqb_eq in E8. subst c. rewrite <- app_assoc. cbn [app].
      rewrite (parse_short_escape 98) by (cbn; tauto). apply Hnext. now left. }
    destruct (c =? 9) eqn:E9.
    { apply N.eqb_eq in E9. subst c. rewrite <- app_assoc. cbn [app].
      rewrite (parse_short_escape 116) by (cbn; tauto). apply Hnext. now left. }
    destruct (c =? 10) eqn:E10.
    { apply N.eqb_eq in E10. subst c. rewrite <- app_assoc. cbn [app].
      rewrite (parse_short_escape 110) by (cbn; tauto). apply Hnext. now left. }
    destruct (c =? 12) eqn:E12.
    { apply N.eqb_eq in E12. subst c. rewrite <- app_assoc. cbn [app].
      rewrite (parse_short_escape 102) by (cbn; tauto). apply Hnext. now left. }
    destruct (c =? 13) eqn:E13.
    { apply N.eqb_eq in E13. subst c. rewrite <- app_assoc. cbn [app].
      rewrite (parse_short_escape 114) by (cbn; tauto). apply Hnext. now left. }
    destruct (c =? 34) eqn:E34.
    { apply N.eqb_eq in E34. subst c. rewrite <- app_assoc. cbn [app].
      rewrite (parse_short_escape 34) by (cbn; tauto). apply Hnext. now left. }
    destruct (c =? 92) eqn:E92.
    { apply N.eqb_eq in E92. subst c. rewrite <- app_assoc. cbn [app].
      rewrite (parse_short_escape 92) by (cbn; tauto). apply Hnext. now left. }
    destruct (c <? 32) eqn:E32.
    { apply N.ltb_lt in E32. rewrite <- app_assoc, parse_escape by lia.
      apply Hnext. now left. }
    destruct (is_high_surrogate c) eqn:Eh.
    { assert (Hc : c < 65536) by
        (unfold is_high_surrogate in Eh; apply andb_true_iff in Eh as [_ Eh];
         apply N.leb_le in Eh; lia).
      destruct s as [|d s'].
      - rewrite parse_escape by exact Hc. apply (Hnext [] c). now left.
      - destruct (is_low_surrogate d).
        + cbn [app]. rewrite parse_plain by assumption. apply Hnext. now right.
        + rewrite <- app_assoc, parse_escape by exact Hc. apply Hnext. now left. }
    destruct (is_low_surrogate c) eqn:El.
    { assert (Hc : c < 65536) by
        (unfold is_low_surrogate in El; apply andb_true_iff in El as [_ El];
         apply N.leb_le in El; lia).
      rewrite <- app_assoc. destruct b.
      - cbn [app]. rewrite parse_plain by assumption. apply Hnext. now left.
      - rewrite parse_escape by exact Hc. apply Hnext. now left. }
    cbn [app]. rewrite parse_plain by assumption. apply Hnext. now left.
Qed.

(** [JSON.parse(JSON.stringify(s)) === s] for every string [s]. *)
Lemma parse_stringify_string s :
  exists text, stringify (VStr s) = Some text /\ parse text = Some (VStr s).
Proof.
  exists (quote s). split; [reflexivity|].
  unfold parse, quote. cbn [app skip_ws].
  change (is_json_ws 34) with false. cbv iota.
  set (n := List.length (34 :: quote_body false s ++ [34])).
  replace (2 * n + 2)%nat with (S (2 * n + 1)) by lia.
  cbn [parse_value].
  change (34 =? 110) with false. change (34 =? 116) with false.
  change (34 =? 102) with false. change (34 =? 34) with true. cbv iota.
  rewrite parse_quote_body. reflexivity.
Qed.

End StringRoundTrip.

(** ** Persistence of the subscription tier *)

Section TierPersistence.

Lemma tier_text_parses t :
  exists c text,
    quote (SubscriptionTier_str t) = c :: text
    /\ parse (c :: text) = Some (VStr (SubscriptionTier_str t))
    /\ whitelisted (VStr (SubscriptionTier_str t)) = Some t.
Proof.
  exists 34, (quote_body false (SubscriptionTier_str t) ++ [34]).
  split; [reflexivity|]. split.
  - destruct (parse_stringify_string (SubscriptionTier_str t)) as (text & [= <-] & Hp).
    exact Hp.
  - destruct t; reflexivity.
Qed.

Lemma keys_differ : TIER_KEY <> LIBRARY_KEY.
Proof. intros H. apply (f_equal (@List.length N)) in H. discriminate H. Qed.

(** What the store holds after an accepted write of the tier. *)
Lemma set_tier_stored t st ls :
  refuses ls TIER_KEY (quote (SubscriptionTier_str t)) = false ->
  getItem TIER_KEY (snd (set_tier t st ls)) = Some (quote (SubscriptionTier_str t))
  /\ getItem LIBRARY_KEY (snd (set_tier t st ls)) = getItem LIBRARY_KEY ls.
Proof.
  intros Hacc. unfold set_tier, save_tier_effect, save_entry, setItem, getItem.
  cbn [snd p_subscriptionTier stringify]. rewrite Hacc. cbn [entries]. split.
  - apply lookup_insert_eq.
  - apply lookup_insert_ne, keys_differ.
Qed.

(** The start-up load changes the tier only to a white-listed stored value. *)
Lemma load_effect_tier ls st :
  p_subscriptionTier (load_effect ls st) = p_subscriptionTier st
  \/ exists text v,
       getItem TIER_KEY ls = Some text /\ parse text = Some v
       /\ whitelisted v = Some (p_subscriptionTier (load_effect ls st)).
Proof.
  unfold load_effect.
  destruct (getItem LIBRARY_KEY ls) as [[|c lib]|];
    [ | destruct (parse (c :: lib)); [|now left] | ];
    (destruct (getItem TIER_KEY ls) as [[|d text]|] eqn:Et; [now left | | now left];
     destruct (parse (d :: text)) as [v|] eqn:Ep; [|now left];
     destruct (whitelisted v) as [t'|] eqn:Ew; [|now left];
     right; exists (d :: text), v; now repeat split).
Qed.

End TierPersistence.

(** ** Values survive [JSON.stringify] and [JSON.parse] *)

Section NumberLiterals.

Lemma parse_number_stages s :
  parse_number s =
  let (sign, s1) := number_sign s in
  let (int, s2) := take_digits s1 in
  match int with
  | [] => None
  | d :: ds =>
      if (d =? 48) && truthy ds then None
      else
        match number_frac s2 with
        | None => None
        | Some (f, s3) =>
            match number_exp s3 with
            | None => None
            | Some (e, s5) => Some (sign ++ int ++ f ++ e, s5)
            end
        end
  end.
Proof. reflexivity. Qed.

Lemma delimited_head rest c rest' :
  delimited rest -> rest = c :: rest' ->
  is_digit c = false /\ (c =? 45) = false /\ (c =? 46) = false
  /\ ((c =? 101) || (c =? 69)) = false /\ ((c =? 43) || (c =? 45)) = false
  /\ is_json_ws c = false.
Proof.
  intros H ->. cbn in H. destruct H as [-> | [-> | ->]]; repeat split.
Qed.

Lemma take_digits_app a rest :
  delimited rest ->
  take_digits (a ++ rest) = (fst (take_digits a), snd (take_digits a) ++ rest).
Proof.
  intros Hd. induction a as [|c a IH]; cbn [app take_digits].
  - destruct rest as [|x rest']; [reflexivity|].
    destruct (delimited_head _ x rest' Hd eq_refl) as (Hx & _).
    cbn [take_digits]. now rewrite Hx.
  - destruct (is_digit c); [|reflexivity].
    rewrite IH. now destruct (take_digits a).
Qed.

Lemma take_digits_consumed a :
  a = fst (take_digits a) ++ snd (take_digits a).
Proof.
  induction a as [|c a IH]; cbn [take_digits]; [reflexivity|].
  destruct (is_digit c); [|reflexivity].
  destruct (take_digits a) as [d r]. cbn [fst snd app] in *. now f_equal.
Qed.

Lemma number_sign_app s rest :
  delimited rest ->
  number_sign (s ++ rest) = (fst (number_sign s), snd (number_sign s) ++ rest).
Proof.
  intros Hd. destruct s as [|c s]; cbn [app number_sign].
  - destruct rest as [|x rest']; [reflexivity|].
    destruct (delimited_head _ x rest' Hd eq_refl) as (_ & Hx & _).
    cbn [number_sign]. now rewrite Hx.
  - now destruct (c =? 45).
Qed.

Lemma number_frac_app s f r rest :
  delimited rest -> number_frac s = Some (f, r) ->
  number_frac (s ++ rest) = Some (f, r ++ rest).
Proof.
  intros Hd. destruct s as [|c s]; cbn [app number_frac].
  - intros [= <- <-]. destruct rest as [|x rest']; [reflexivity|].
    destruct (delimited_head _ x rest' Hd eq_refl) as (_ & _ & Hx & _).
    cbn [number_frac]. now rewrite Hx.
  - destruct (c =? 46).
    + rewrite (take_digits_app _ _ Hd). destruct (take_digits s) as [d r'].
      cbn [fst snd]. destruct d; [discriminate|]. now intros [= <- <-].
    + now intros [= <- <-].
Qed.

Lemma number_exp_app s e r rest :
  delimited rest -> number_exp s = Some (e, r) ->
  number_exp (s ++ rest) = Some (e, r ++ rest).
Proof.
  intros Hd. destruct s as [|c s]; cbn [app number_exp].
  - intros [= <- <-]. destruct rest as [|x rest']; [reflexivity|].
    destruct (delimited_head _ x rest' Hd eq_refl) as (_ & _ & _ & Hx & _).
    cbn [number_exp]. now rewrite Hx.
  - destruct ((c =? 101) || (c =? 69)); [|now intros [= <- <-]].
    destruct s as [|g s]; cbn [app].
    + cbn [take_digits]. discriminate.
    + destruct ((g =? 43) || (g =? 45)).
      * rewrite (take_digits_app _ _ Hd). destruct (take_digits s) as [d r'].
        cbn [fst snd]. destruct d; [discriminate|]. now intros [= <- <-].
      * change (g :: s ++ rest) with ((g :: s) ++ rest).
        rewrite (take_digits_app _ _ Hd). destruct (take_digits (g :: s)) as [d r'].
        cbn [fst snd]. destruct d; [discriminate|]. now intros [= <- <-].
Qed.

(** What follows a number does not change how it is read. *)
Lemma parse_number_app s t r rest :
  delimited rest -> parse_number s = Some (t, r) ->
  parse_number (s ++ rest) = Some (t, r ++ rest).
Proof.
  intros Hd. rewrite !parse_number_stages, (number_sign_app _ _ Hd).
  destruct (number_sign s) as [sign s1]. cbn [fst snd].
  rewrite (take_digits_app _ _ Hd). destruct (take_digits s1) as [int s2].
  cbn [fst snd]. destruct int as [|d ds]; [discriminate|].
  destruct ((d =? 48) && truthy ds); [discriminate|].
  destruct (number_frac s2) as [[f s3]|] eqn:Ef; [|discriminate].
  rewrite (number_frac_app _ _ _ _ Hd Ef).
  destruct (number_exp s3) as [[e s5]|] eqn:Ee; [|discriminate].
  rewrite (number_exp_app _ _ _ _ Hd Ee). now intros [= <- <-].
Qed.

Lemma number_frac_consumed s f r : number_frac s = Some (f, r) -> s = f ++ r.
Proof.
  destruct s as [|c s]; cbn [number_frac]; [now intros [= <- <-]|].
  destruct (c =? 46); [|now intros [= <- <-]].
  pose proof (take_digits_consumed s) as H. destruct (take_digits s) as [d r'].
  destruct d; [discriminate|]. intros [= <- <-]. cbn [fst snd] in H. now rewrite H at 1.
Qed.

Lemma number_exp_consumed s e r : number_exp s = Some (e, r) -> s = e ++ r.
Proof.
  destruct s as [|c s]; cbn [number_exp]; [now intros [= <- <-]|].
  destruct ((c =? 101) || (c =? 69)); [|now intros [= <- <-]].
  destruct s as [|g s].
  - cbn [take_digits]. discriminate.
  - destruct ((g =? 43) || (g =? 45)).
    + pose proof (take_digits_consumed s) as H. destruct (take_digits s) as [d r'].
      destruct d; [discriminate|]. intros [= <- <-]. cbn [fst snd] in H.
      cbn [app]. now rewrite H at 1.
    + pose proof (take_digits_consumed (g :: s)) as H.
      destruct (take_digits (g :: s)) as [d r'].
      destruct d; [discriminate|]. intros [= <- <-]. cbn [fst snd] in H.
      cbn [app]. now rewrite H at 1.
Qed.

(** [parse_number] returns the text it read and the text it left. *)
Lemma parse_number_consumed s t r : parse_number s = Some (t, r) -> s = t ++ r.
Proof.
  rewrite parse_number_stages.
  assert (Hs : s = fst (number_sign s) ++ snd (number_sign s)).
  { destruct s as [|c s]; [reflexivity|]. cbn [number_sign]. now destruct (c =? 45). }
  destruct (number_sign s) as [sign s1]. cbn [fst snd] in Hs.
  pose proof (take_digits_consumed s1) as H1.
  destruct (take_digits s1) as [int s2]. cbn [fst snd] in H1.
  destruct int as [|d ds]; [discriminate|].
  destruct ((d =? 48) && truthy ds); [discriminate|].
  destruct (number_frac s2) as [[f s3]|] eqn:Ef; [|discriminate].
  destruct (number_exp s3) as [[e s5]|] eqn:Ee; [|discriminate].
  intros [= <- <-].
  apply number_frac_consumed in Ef. apply number_exp_consumed in Ee.
  rewrite Hs, H1, Ef, Ee. repeat (rewrite <- ?app_assoc; cbn [app]). reflexivity.
Qed.

(** A number starts with a minus sign or a digit. *)
Lemma parse_number_first c s t r :
  parse_number (c :: s) = Some (t, r) -> c = 45 \/ is_digit c = true.
Proof.
  rewrite parse_number_stages. cbn [number_sign].
  destruct (c =? 45) eqn:E; [apply N.eqb_eq in E; now left|].
  cbn [take_digits]. destruct (is_digit c); [now right|]. discriminate.
Qed.

Lemma number_literal_parses l fuel rest :
  is_number_literal l = true -> delimited rest ->
  l <> []
  /\ parse_value (S fuel) (l ++ rest) = Some (VNum l, rest).
Proof.
  unfold is_number_literal. intros Hl Hd.
  destruct (parse_number l) as [[t [|x r]]|] eqn:E; try discriminate.
  pose proof (parse_number_consumed _ _ _ E) as Hc. rewrite app_nil_r in Hc. subst t.
  pose proof (parse_number_app _ _ _ _ Hd E) as Ha. cbn [app] in Ha.
  destruct l as [|c l]; [discriminate E|]. split; [discriminate|].
  destruct (parse_number_first _ _ _ _ E) as [-> | Hdig].
  - cbn [app parse_value]. cbn [app] in Ha. now rewrite Ha.
  - cbn [app parse_value]. cbn [app] in Ha.
    unfold is_digit in Hdig. apply andb_true_iff in Hdig as [H1 H2].
    apply N.leb_le in H1, H2.
    replace (c =? 110) with false by (symmetry; apply N.eqb_neq; lia).
    replace (c =? 116) with false by (symmetry; apply N.eqb_neq; lia).
    replace (c =? 102) with false by (symmetry; apply N.eqb_neq; lia).
    replace (c =? 34) with false by (symmetry; apply N.eqb_neq; lia).
    replace (c =? 91) with false by (symmetry; apply N.eqb_neq; lia).
    replace (c =? 123) with false by (symmetry; apply N.eqb_neq; lia).
    now rewrite Ha.
Qed.

End NumberLiterals.

Section ValueRoundTrip.

Lemma parse_value_S g s :
  parse_value (S g) s =
  match s with
  | [] => None
  | c :: rest =>
      if c =? 110 then option_map (pair VNull) (expect (lit "ull") rest)
      else if c =? 116 then option_map (pair (VBool true)) (expect (lit "rue") rest)
      else if c =? 102 then option_map (pair (VBool false)) (expect (lit "alse") rest)
      else if c =? 34 then
        match parse_string_body rest [] with
        | Some (t, r) => Some (VStr t, r)
        | None => None
        end
      else if c =? 91 then
        match skip_ws rest with
        | d :: r => if d =? 93 then Some (VArr [], r)
                    else parse_elements g (d :: r) []
        | [] => None
        end
      else if c =? 123 then
        match skip_ws rest with
        | d :: r => if d =? 125 then Some (VObj [], r)
                    else parse_members g (d :: r) []
        | [] => None
        end
      else
        match parse_number s with
        | Some (l, r) => Some (VNum l, r)
        | None => None
        end
  end.
Proof. reflexivity. Qed.

Lemma parse_elements_S g s acc :
  parse_elements (S g) s acc =
  match parse_value g s with
  | None => None
  | Some (v, r) =>
      match skip_ws r with
      | d :: r' =>
          if d =? 44 then parse_elements g (skip_ws r') (v :: acc)
          else if d =? 93 then Some (VArr (rev (v :: acc)), r')
          else None
      | [] => None
      end
  end.
Proof. reflexivity. Qed.

Lemma parse_members_S g s acc :
  parse_members (S g) s acc =
  match s with
  | q :: s1 =>
      if q =? 34 then
        match parse_string_body s1 [] with
        | None => None
        | Some (k, r) =>
            match skip_ws r with
            | colon :: r1 =>
                if colon =? 58 then
                  match parse_value g (skip_ws r1) with
                  | None => None
                  | Some (v, r2) =>
                      match skip_ws r2 with
                      | d :: r3 =>
                          if d =? 44
                          then parse_members g (skip_ws r3) (obj_set k v acc)
                          else if d =? 125
                          then Some (VObj (obj_set k v acc), r3)
                          else None
                      | [] => None
                      end
                  end
                else None
            | [] => None
            end
        end
      else None
  | [] => None
  end.
Proof. reflexivity. Qed.

Lemma skip_ws_starts s : starts_value s -> skip_ws s = s.
Proof. destruct s as [|c s]; [easy|]. intros [H _]. cbn [skip_ws]. now rewrite H. Qed.

Lemma starts_value_app s r : starts_value s -> starts_value (s ++ r).
Proof. now destruct s. Qed.

Lemma stringify_starts_wf v text :
  json_wf v = true -> stringify v = Some text -> starts_value text.
Proof.
  destruct v as [| |[|]|l|s|items|fields]; cbn [stringify json_wf];
    intros Hs [= <-]; try (split; [reflexivity|discriminate]).
  unfold is_number_literal in Hs.
  destruct (parse_number l) as [[t r]|] eqn:E; [|discriminate].
  destruct l as [|c l]; [discriminate E|].
  destruct (parse_number_first _ _ _ _ E) as [-> | Hd];
    [split; [reflexivity|discriminate]|].
  unfold is_digit in Hd. apply andb_true_iff in Hd as [H1 H2].
  apply N.leb_le in H1, H2. split; [|lia].
  unfold is_json_ws.
  replace (c =? 32) with false by (symmetry; apply N.eqb_neq; lia).
  replace (c =? 9) with false by (symmetry; apply N.eqb_neq; lia).
  replace (c =? 10) with false by (symmetry; apply N.eqb_neq; lia).
  replace (c =? 13) with false by (symmetry; apply N.eqb_neq; lia).
  reflexivity.
Qed.

Lemma stringify_none v : stringify v = None -> v = VUndefined.
Proof. destruct v as [| |[|]| | | |]; now cbn. Qed.

Lemma stringify_some v : is_undefined v = false -> exists t, stringify v = Some t.
Proof. destruct v as [| |[|]| | | |]; cbn; intros; try discriminate; eauto. Qed.

Lemma elem_text_starts x : json_wf x = true -> starts_value (elem_text x).
Proof.
  intros Hs. unfold elem_text. destruct (stringify x) as [t|] eqn:E.
  - now apply (stringify_starts_wf x).
  - split; [reflexivity|discriminate].
Qed.

Lemma null_parses g rest :
  parse_value (S g) (lit "null" ++ rest) = Some (VNull, rest).
Proof. reflexivity. Qed.

Lemma elem_reads_back x :
  reads_back x -> json_wf x = true ->
  forall g rest, (json_size x <= g)%nat -> delimited rest ->
  parse_value g (elem_text x ++ rest) = Some (elem_normal x, rest).
Proof.
  intros Hx Hs g rest Hg Hd. unfold elem_text, elem_normal.
  destruct (stringify x) as [t|] eqn:E.
  - replace (is_undefined x) with false by (now destruct x).
    now apply Hx.
  - apply stringify_none in E. subst x. cbn [is_undefined].
    destruct g as [|g]; [cbn in Hg; lia|]. apply null_parses.
Qed.

Lemma elements_read_back items :
  items <> [] -> List.Forall reads_back items ->
  forallb json_wf items = true ->
  forall g acc rest,
    (list_sum (List.map (fun x => S (json_size x)) items) <= g)%nat ->
    parse_elements g (join (lit ",") (List.map elem_text items) ++ 93 :: rest) acc
    = Some (VArr (rev acc ++ List.map elem_normal items), rest).
Proof.
  induction items as [|x xs IH]; [easy|]. intros _ HF Hs g acc rest Hg.
  apply Forall_cons_1 in HF as [Hx HF].
  cbn [forallb] in Hs. apply andb_true_iff in Hs as [Hsx Hs].
  cbn [List.map list_sum fold_right] in Hg.
  destruct g as [|g]; [cbn in Hg; lia|]. rewrite parse_elements_S.
  destruct xs as [|y ys].
  - cbn [List.map join].
    rewrite (elem_reads_back x Hx Hsx g (93 :: rest)); [|cbn in Hg; lia|cbn; tauto].
    cbn [skip_ws]. change (is_json_ws 93) with false. cbv iota.
    change (93 =? 44) with false. change (93 =? 93) with true. cbv iota.
    cbn [rev]. reflexivity.
  - change (join (lit ",") (List.map elem_text (x :: y :: ys)))
      with (elem_text x ++ [44] ++ join (lit ",") (List.map elem_text (y :: ys))).
    rewrite <- !app_assoc. cbn [app].
    set (J := join (lit ",") (List.map elem_text (y :: ys)) ++ 93 :: rest) in *.
    rewrite (elem_reads_back x Hx Hsx g (44 :: J)); [|cbn in Hg |- *; lia|cbn; tauto].
    cbn [skip_ws]. change (is_json_ws 44) with false. cbv iota.
    change (44 =? 44) with true. cbv iota.
    rewrite (skip_ws_starts J).
    2:{ subst J. apply starts_value_app. cbn [List.map].
        cbn [forallb] in Hs. apply andb_true_iff in Hs as [Hsy _].
        pose proof (elem_text_starts y Hsy) as Hy.
        destruct ys; cbn [join]; [exact Hy|now apply starts_value_app]. }
    subst J. rewrite (IH ltac:(discriminate) HF Hs g (elem_normal x :: acc) rest).
    + cbn [rev List.map]. now rewrite <- app_assoc.
    + cbn [List.map list_sum fold_right] in Hg |- *. lia.
Qed.

Lemma members_read_back ms :
  ms <> [] ->
  List.Forall (fun f => reads_back (snd f)) ms ->
  forallb (fun f => json_wf (snd f)) ms = true ->
  forallb kept ms = true ->
  forall g acc rest,
    (list_sum (List.map (fun f => S (json_size (snd f))) ms) <= g)%nat ->
    parse_members g (join (lit ",") (List.map member_text ms) ++ 125 :: rest) acc
    = Some (VObj (fold_left (fun a f => obj_set (fst f) (json_normal (snd f)) a) ms acc),
            rest).
Proof.
  induction ms as [|[k x] ms IH]; [easy|]. intros _ HF Hs Hk g acc rest Hg.
  apply Forall_cons_1 in HF as [Hx HF]. cbn [snd] in Hx.
  cbn [forallb snd] in Hs, Hk.
  apply andb_true_iff in Hs as [Hsx Hs]. apply andb_true_iff in Hk as [Hkx Hk].
  unfold kept in Hkx. cbn [snd] in Hkx. apply negb_true_iff in Hkx.
  assert (Hn : elem_normal x = json_normal x) by (unfold elem_normal; now rewrite Hkx).
  cbn [List.map list_sum fold_right snd] in Hg.
  destruct g as [|g]; [cbn in Hg; lia|]. rewrite parse_members_S.
  assert (Hhead : forall R,
    (member_text (k, x) ++ R)
    = 34 :: (quote_body false k ++ 34 :: 58 :: elem_text x ++ R)).
  { intros R. unfold member_text, quote. cbn [fst snd].
    rewrite <- !app_assoc. reflexivity. }
  destruct ms as [|f fs].
  - cbn [List.map join]. rewrite Hhead.
    change (34 =? 34) with true. cbv iota.
    rewrite parse_quote_body. cbn [rev app skip_ws].
    change (is_json_ws 58) with false. cbv iota.
    change (58 =? 58) with true. cbv iota.
    rewrite (skip_ws_starts (elem_text x ++ 125 :: rest))
      by (apply starts_value_app, elem_text_starts, Hsx).
    rewrite (elem_reads_back x Hx Hsx g (125 :: rest)); [|cbn in Hg; lia|cbn; tauto].
    cbn [skip_ws]. change (is_json_ws 125) with false. cbv iota.
    change (125 =? 44) with false. change (125 =? 125) with true. cbv iota.
    rewrite Hn. reflexivity.
  - change (join (lit ",") (List.map member_text ((k, x) :: f :: fs)))
      with (member_text (k, x) ++ [44] ++ join (lit ",") (List.map member_text (f :: fs))).
    rewrite <- !app_assoc. cbn [app].
    set (J := join (lit ",") (List.map member_text (f :: fs)) ++ 125 :: rest) in *.
    rewrite Hhead.
    change (34 =? 34) with true. cbv iota.
    rewrite parse_quote_body. cbn [rev app skip_ws].
    change (is_json_ws 58) with false. cbv iota.
    change (58 =? 58) with true. cbv iota.
    rewrite (skip_ws_starts (elem_text x ++ 44 :: J))
      by (apply starts_value_app, elem_text_starts, Hsx).
    rewrite (elem_reads_back x Hx Hsx g (44 :: J)); [|cbn in Hg |- *; lia|cbn; tauto].
    cbn [skip_ws]. change (is_json_ws 44) with false. cbv iota.
    change (44 =? 44) with true. cbv iota.
    rewrite (skip_ws_starts J).
    2:{ subst J. apply starts_value_app. cbn [List.map].
        assert (Hm : starts_value (member_text f))
          by (split; [reflexivity|discriminate]).
        destruct fs; cbn [join]; [exact Hm|now apply starts_value_app]. }
    subst J. rewrite Hn.
    rewrite (IH ltac:(discriminate) HF Hs Hk g (obj_set k (json_normal x) acc) rest).
    + reflexivity.
    + cbn [List.map list_sum fold_right snd] in Hg |- *. lia.
Qed.

Lemma existsb_str_eqb k ks : existsb (str_eqb k) ks = true <-> In k ks.
Proof.
  rewrite existsb_exists. split.
  - intros (y & Hy & E). apply str_eqb_eq in E. now subst.
  - intros H. exists k. split; [exact H|apply str_eqb_refl].
Qed.

Lemma distinct_NoDup ks : distinct ks = true <-> List.NoDup ks.
Proof.
  induction ks as [|k ks IH]; cbn [distinct].
  - split; [constructor|reflexivity].
  - rewrite andb_true_iff, negb_true_iff, IH, List.NoDup_cons_iff.
    rewrite <- (existsb_str_eqb k ks). now destruct (existsb (str_eqb k) ks).
Qed.

Lemma obj_set_fresh k v o :
  ~ In k (List.map fst o) -> obj_set k v o = o ++ [(k, v)].
Proof.
  induction o as [|[k' v'] o IH]; cbn [List.map fst obj_set app]; [reflexivity|].
  intros H. destruct (str_eqb k k') eqn:E.
  - apply str_eqb_eq in E. subst. exfalso. apply H. now left.
  - rewrite IH; [reflexivity|]. intros Hin. apply H. now right.
Qed.

Lemma fold_obj_set ms : forall acc,
  List.NoDup (List.map fst (acc ++ ms)) ->
  fold_left (fun a f => obj_set (fst f) (json_normal (snd f)) a) ms acc
  = acc ++ List.map member_normal ms.
Proof.
  induction ms as [|f ms IH]; intros acc H; cbn [fold_left List.map].
  - now rewrite app_nil_r.
  - rewrite obj_set_fresh.
    + rewrite IH.
      * now rewrite <- app_assoc.
      * rewrite !List.map_app in *. cbn [List.map fst] in *.
        now rewrite <- app_assoc.
    + rewrite List.map_app in H. cbn [List.map] in H.
      apply List.NoDup_remove_2 in H. rewrite in_app_iff in H. tauto.
Qed.

Lemma NoDup_keys_filter (p : str * JsValue -> bool) fields :
  List.NoDup (List.map fst fields) ->
  List.NoDup (List.map fst (List.filter p fields)).
Proof.
  induction fields as [|f fs IH]; cbn [List.map List.filter]; [easy|].
  rewrite List.NoDup_cons_iff. intros [Hn Hd]. destruct (p f); [|tauto].
  cbn [List.map]. rewrite List.NoDup_cons_iff. split; [|tauto].
  intros Hin. apply Hn. apply in_map_iff in Hin as (g & Eg & Hg).
  apply List.filter_In in Hg as [Hg _]. apply in_map_iff. eauto.
Qed.

(** The members and elements that [JSON.stringify] writes, by the
    properties that are kept. *)
Lemma member_texts_kept fields :
  List.flat_map member_texts fields
  = List.map member_text (List.filter kept fields).
Proof.
  induction fields as [|[k x] fs IH]; [reflexivity|].
  cbn [List.flat_map List.filter]. rewrite IH.
  change (kept (k, x)) with (negb (is_undefined x)).
  change (member_texts (k, x))
    with (match stringify x with
          | Some t => [quote k ++ lit ":" ++ t]
          | None => []
          end).
  destruct (stringify x) as [t|] eqn:E.
  - replace (is_undefined x) with false by (now destruct x).
    cbn [negb List.map app].
    change (member_text (k, x)) with (quote k ++ lit ":" ++ elem_text x).
    unfold elem_text. now rewrite E.
  - apply stringify_none in E. now subst x.
Qed.

Lemma member_normal_kept fields :
  List.flat_map (fun f => if is_undefined (snd f) then []
                          else [(fst f, json_normal (snd f))]) fields
  = List.map member_normal (List.filter kept fields).
Proof.
  induction fields as [|[k x] fs IH]; [reflexivity|].
  cbn [List.flat_map List.filter]. rewrite IH.
  change (kept (k, x)) with (negb (is_undefined x)). cbn [fst snd].
  now destruct (is_undefined x).
Qed.

Lemma member_size_kept fields :
  list_sum (List.map (fun f => if is_undefined (snd f) then O
                               else S (json_size (snd f))) fields)
  = list_sum (List.map (fun f => S (json_size (snd f))) (List.filter kept fields)).
Proof.
  induction fields as [|[k x] fs IH]; [reflexivity|].
  unfold list_sum in *. cbn [List.map List.filter fold_right].
  change (kept (k, x)) with (negb (is_undefined x)). cbn [fst snd].
  destruct (is_undefined x); cbn [negb List.map fold_right snd]; lia.
Qed.

Lemma forallb_filter {A} (p q : A -> bool) l :
  forallb p l = true -> forallb p (List.filter q l) = true.
Proof.
  induction l as [|a l IH]; cbn [forallb List.filter]; [easy|].
  rewrite andb_true_iff. intros [Ha Hl]. destruct (q a); cbn [forallb]; [|tauto].
  rewrite Ha. tauto.
Qed.

Lemma forallb_filter_self {A} (q : A -> bool) l :
  forallb q (List.filter q l) = true.
Proof.
  induction l as [|a l IH]; cbn [forallb List.filter]; [easy|].
  destruct (q a) eqn:E; cbn [forallb]; [|tauto]. now rewrite E.
Qed.

Lemma Forall_filter_keep {A} (P : A -> Prop) (q : A -> bool) l :
  List.Forall P l -> List.Forall P (List.filter q l).
Proof.
  rewrite !List.Forall_forall. intros H x Hx. apply H.
  now apply List.filter_In in Hx.
Qed.

(** Every value whose numbers are number literals and whose objects have
    distinct property names is read back from its text. *)
Lemma json_reads_back v : reads_back v.
Proof.
  induction v as [| |b|l|s|items IH|fields IH] using JsValue_induction;
    intros Hs text Ht fuel rest Hg Hd.
  - discriminate.
  - injection Ht as <-. destruct fuel as [|g]; [cbn in Hg; lia|]. apply null_parses.
  - destruct fuel as [|g]; [cbn in Hg; lia|].
    destruct b; injection Ht as <-; reflexivity.
  - injection Ht as <-. destruct fuel as [|g]; [cbn in Hg; lia|].
    cbn [json_wf] in Hs. now apply number_literal_parses.
  - injection Ht as <-. destruct fuel as [|g]; [cbn in Hg; lia|].
    unfold quote. cbn [app]. rewrite parse_value_S.
    change (34 =? 110) with false. change (34 =? 116) with false.
    change (34 =? 102) with false. change (34 =? 34) with true. cbv iota.
    rewrite <- app_assoc. cbn [app]. rewrite parse_quote_body. reflexivity.
  - cbn [json_wf] in Hs. cbn [json_size] in Hg.
    change (stringify (VArr items))
      with (Some (91 :: join (lit ",") (List.map elem_text items) ++ [93])) in Ht.
    injection Ht as <-. destruct fuel as [|g]; [lia|].
    cbn [app]. rewrite <- app_assoc. cbn [app]. rewrite parse_value_S.
    change (91 =? 110) with false. change (91 =? 116) with false.
    change (91 =? 102) with false. change (91 =? 34) with false.
    change (91 =? 91) with true. cbv iota.
    change (json_normal (VArr items)) with (VArr (List.map elem_normal items)).
    destruct items as [|x xs]; [reflexivity|].
    set (J := join (lit ",") (List.map elem_text (x :: xs)) ++ 93 :: rest).
    assert (HJ : starts_value J).
    { subst J. apply starts_value_app. cbn [List.map].
      cbn [forallb] in Hs. apply andb_true_iff in Hs as [Hsx _].
      pose proof (elem_text_starts x Hsx) as Hx.
      destruct xs; cbn [join]; [exact Hx|now apply starts_value_app]. }
    rewrite (skip_ws_starts J HJ).
    destruct J as [|d r] eqn:EJ; [destruct HJ|].
    destruct HJ as [_ Hd93]. apply N.eqb_neq in Hd93. rewrite Hd93.
    rewrite <- EJ. subst J.
    rewrite (elements_read_back (x :: xs) ltac:(discriminate) IH Hs g [] rest); [reflexivity|lia].
  - cbn [json_wf] in Hs. apply andb_true_iff in Hs as [Hk Hs].
    apply distinct_NoDup in Hk. cbn [json_size] in Hg.
    change (stringify (VObj fields))
      with (Some (123 :: join (lit ",") (List.flat_map member_texts fields) ++ [125])) in Ht.
    injection Ht as <-. destruct fuel as [|g]; [lia|].
    cbn [app]. rewrite <- app_assoc. cbn [app]. rewrite parse_value_S.
    change (123 =? 110) with false. change (123 =? 116) with false.
    change (123 =? 102) with false. change (123 =? 34) with false.
    change (123 =? 91) with false. change (123 =? 123) with true. cbv iota.
    change (json_normal (VObj fields))
      with (VObj (List.flat_map (fun f => if is_undefined (snd f) then []
                                          else [(fst f, json_normal (snd f))]) fields)).
    rewrite member_texts_kept, member_normal_kept.
    rewrite member_size_kept in Hg.
    pose proof (NoDup_keys_filter kept fields Hk) as Hk'.
    pose proof (forallb_filter _ kept fields Hs) as Hs'.
    pose proof (forallb_filter_self kept fields) as Hkept.
    pose proof (Forall_filter_keep _ kept fields IH) as IH'.
    destruct (List.filter kept fields) as [|f ms]; [reflexivity|].
    set (J := join (lit ",") (List.map member_text (f :: ms)) ++ 125 :: rest).
    assert (HJ : exists r, J = 34 :: r).
    { subst J. cbn [List.map]. destruct ms; cbn [join]; unfold member_text, quote;
        cbn [app]; eauto. }
    destruct HJ as [r EJ]. rewrite EJ. cbn [skip_ws].
    change (is_json_ws 34) with false. cbv iota.
    change (34 =? 125) with false. cbv iota. rewrite <- EJ. subst J.
    rewrite (members_read_back (f :: ms) ltac:(discriminate) IH' Hs' Hkept g [] rest);
      [|lia].
    now rewrite (fold_obj_set (f :: ms) []).
Qed.

Lemma sum_bound {A} (f g : A -> nat) l :
  List.Forall (fun a => (f a <= 2 * g a)%nat) l ->
  (list_sum (List.map f l) <= 2 * list_sum (List.map g l))%nat.
Proof.
  induction 1 as [|a l Ha _ IH]; unfold list_sum in *; cbn [List.map fold_right]; lia.
Qed.

Lemma join_length c parts :
  parts <> [] ->
  S (List.length (join [c] parts))
  = list_sum (List.map (fun p => S (List.length p)) parts).
Proof.
  induction parts as [|p ps IH]; [easy|]. intros _.
  destruct ps as [|q qs].
  - unfold list_sum. cbn [join List.map fold_right]. lia.
  - change (join [c] (p :: q :: qs)) with (p ++ [c] ++ join [c] (q :: qs)).
    rewrite !length_app. specialize (IH ltac:(discriminate)).
    unfold list_sum in *. cbn [List.map fold_right List.length] in *. lia.
Qed.

(** The fuel that [JSON.parse] starts with is enough for the text of a
    value. *)
Lemma json_size_bound v :
  json_wf v = true -> forall text, stringify v = Some text ->
  (1 <= List.length text /\ json_size v <= 2 * List.length text)%nat.
Proof.
  induction v as [| |b|l|s|items IH|fields IH] using JsValue_induction;
    intros Hs text Ht.
  - discriminate.
  - injection Ht as <-. cbn. lia.
  - destruct b; injection Ht as <-; cbn; lia.
  - injection Ht as <-. cbn [json_wf] in Hs.
    unfold is_number_literal in Hs. destruct l; [discriminate Hs|].
    cbn [json_size List.length]. lia.
  - injection Ht as <-. unfold quote. cbn [json_size app List.length]. lia.
  - cbn [json_wf] in Hs. cbn [json_size].
    change (stringify (VArr items))
      with (Some (91 :: join [44] (List.map elem_text items) ++ [93])) in Ht.
    injection Ht as <-. cbn [List.length]. rewrite length_app. cbn [List.length].
    destruct items as [|x xs]; [cbn; lia|].
    pose proof (join_length 44 (List.map elem_text (x :: xs)) ltac:(discriminate)) as HJ.
    rewrite List.map_map in HJ.
    assert (HB : List.Forall (fun y => (S (json_size y)
                  <= 2 * S (List.length (elem_text y)))%nat) (x :: xs)).
    { rewrite List.Forall_forall in IH |- *. intros y Hy.
      rewrite forallb_forall in Hs. specialize (Hs y Hy). specialize (IH y Hy Hs).
      unfold elem_text. destruct (stringify y) as [t|] eqn:E.
      - specialize (IH t eq_refl). lia.
      - apply stringify_none in E. subst y. cbn. lia. }
    apply sum_bound in HB. lia.
  - cbn [json_wf] in Hs. apply andb_true_iff in Hs as [_ Hs]. cbn [json_size].
    change (stringify (VObj fields))
      with (Some (123 :: join [44] (List.flat_map member_texts fields) ++ [125])) in Ht.
    injection Ht as <-. cbn [List.length]. rewrite length_app. cbn [List.length].
    rewrite member_texts_kept, member_size_kept.
    pose proof (forallb_filter _ kept fields Hs) as Hs'.
    pose proof (Forall_filter_keep _ kept fields IH) as IH'.
    destruct (List.filter kept fields) as [|f ms]; [cbn; lia|].
    pose proof (join_length 44 (List.map member_text (f :: ms)) ltac:(discriminate)) as HJ.
    rewrite List.map_map in HJ.
    assert (HB : List.Forall (fun y => (S (json_size (snd y))
                  <= 2 * S (List.length (member_text y)))%nat) (f :: ms)).
    { rewrite List.Forall_forall in IH' |- *. intros y Hy.
      rewrite forallb_forall in Hs'. specialize (Hs' y Hy). specialize (IH' y Hy Hs').
      unfold member_text, elem_text. rewrite !length_app.
      destruct (stringify (snd y)) as [t|] eqn:E.
      - specialize (IH' t eq_refl). lia.
      - apply stringify_none in E. rewrite E. cbn. lia. }
    apply sum_bound in HB. lia.
Qed.

(** [JSON.parse(JSON.stringify(v))] for a value that [JSON.parse] can
    return. *)
Lemma parse_stringify_wf v text :
  json_wf v = true -> stringify v = Some text ->
  parse text = Some (json_normal v).
Proof.
  intros Hs Ht. unfold parse.
  rewrite (skip_ws_starts text (stringify_starts_wf v text Hs Ht)).
  destruct (json_size_bound v Hs text Ht) as [_ Hb].
  pose proof (json_reads_back v Hs text Ht (2 * List.length text + 2)%nat []
                ltac:(lia) I) as Hp.
  rewrite app_nil_r in Hp. now rewrite Hp.
Qed.

(** The values of the application are among them. *)
Lemma json_safe_wf v : json_safe v = true -> json_wf v = true.
Proof.
  induction v as [| |b|l|s|items IH|fields IH] using JsValue_induction;
    cbn [json_safe json_wf]; try reflexivity.
  - now intros [H _]%andb_true_iff.
  - rewrite !forallb_forall. rewrite List.Forall_forall in IH. auto.
  - intros [[_ Hk]%andb_true_iff Hs]%andb_true_iff. rewrite Hk. cbn [andb].
    rewrite forallb_forall in Hs |- *. rewrite List.Forall_forall in IH. auto.
Qed.

Lemma stringify_starts v text :
  json_safe v = true -> stringify v = Some text -> starts_value text.
Proof. intros H. apply stringify_starts_wf, json_safe_wf, H. Qed.

(** [JSON.parse(JSON.stringify(v))] for a value of the application. *)
Lemma parse_stringify v text :
  json_safe v = true -> stringify v = Some text ->
  parse text = Some (json_normal v).
Proof. intros H. apply parse_stringify_wf, json_safe_wf, H. Qed.

Lemma obj_get_absent k o : ~ In k (List.map fst o) -> obj_get k o = VUndefined.
Proof.
  induction o as [|[k' v] o IH]; cbn [List.map fst obj_get]; [reflexivity|].
  intros H. destruct (str_eqb k k') eqn:E.
  - apply str_eqb_eq in E. subst. exfalso. apply H. now left.
  - apply IH. intros Hin. apply H. now right.
Qed.

(** A property of the value read back is the normal form of the property
    written. *)
Lemma obj_get_normal k o :
  List.NoDup (List.map fst o) ->
  obj_get k (List.map member_normal (List.filter kept o)) = json_normal (obj_get k o).
Proof.
  induction o as [|[k' v] o IH]; [reflexivity|].
  cbn [List.map fst]. rewrite List.NoDup_cons_iff. intros [Hn Hd].
  cbn [List.filter obj_get]. change (kept (k', v)) with (negb (is_undefined v)).
  destruct (str_eqb k k') eqn:E.
  - apply str_eqb_eq in E. subst k'.
    destruct (is_undefined v) eqn:Ev; cbn [negb List.map].
    + destruct v; try discriminate. cbn [json_normal].
      apply obj_get_absent. intros Hin. apply Hn. rewrite List.map_map in Hin.
      apply in_map_iff in Hin as (g & Eg & Hg). apply List.filter_In in Hg as [Hg _].
      apply in_map_iff. exists g. now split.
    + cbn [member_normal fst snd obj_get]. now rewrite str_eqb_refl.
  - destruct (is_undefined v); cbn [negb List.map]; [now apply IH|].
    cbn [member_normal fst snd obj_get]. rewrite E. now apply IH.
Qed.

End ValueRoundTrip.

(** ** The library and the prompt history across a reload *)

Section Persistence.

Lemma save_entry_stored key v text ls :
  stringify v = Some text -> refuses ls key text = false ->
  getItem key (save_entry key v ls) = Some text
  /\ forall k', k' <> key -> getItem k' (save_entry key v ls) = getItem k' ls.
Proof.
  intros Ht Hacc. unfold save_entry, setItem, getItem. rewrite Ht, Hacc.
  cbn [entries]. split.
  - apply lookup_insert_eq.
  - intros k' Hk. now apply lookup_insert_ne.
Qed.

Lemma json_normal_obj o : json_normal (VObj o) = VObj (item_normal o).
Proof.
  change (json_normal (VObj o))
    with (VObj (List.flat_map (fun f => if is_undefined (snd f) then []
                                        else [(fst f, json_normal (snd f))]) o)).
  now rewrite member_normal_kept.
Qed.

Lemma json_normal_library items :
  json_normal (library_value items) = library_value (List.map item_normal items).
Proof.
  unfold library_value.
  change (json_normal (VArr (List.map VObj items)))
    with (VArr (List.map elem_normal (List.map VObj items))).
  rewrite !List.map_map. f_equal. apply List.map_ext. intros o.
  unfold elem_normal. cbn [is_undefined]. apply json_normal_obj.
Qed.

Lemma json_normal_strings l :
  json_normal (VArr (List.map VStr l)) = VArr (List.map VStr l).
Proof.
  change (json_normal (VArr (List.map VStr l)))
    with (VArr (List.map elem_normal (List.map VStr l))).
  rewrite List.map_map. f_equal.
Qed.

(** The library after the start-up effect, when its entry parses: what is
    stored under the tier key plays no part. *)
Lemma load_effect_library ls st c text v :
  getItem LIBRARY_KEY ls = Some (c :: text) -> parse (c :: text) = Some v ->
  p_libraryItems (load_effect ls st) = v.
Proof.
  intros Hg Hp. unfold load_effect. rewrite Hg, Hp.
  destruct (getItem TIER_KEY ls) as [[|d t]|]; try reflexivity.
  destruct (parse (d :: t)) as [w|]; [|reflexivity].
  now destruct (whitelisted w).
Qed.

Lemma obj_get_In k o :
  obj_get k o = VUndefined \/ exists k', In (k', obj_get k o) o.
Proof.
  induction o as [|[k' v] o IH]; [now left|]. cbn [obj_get].
  destruct (str_eqb k k').
  - right. exists k'. now left.
  - destruct IH as [IH | [k'' IH]]; [now left|]. right. exists k''. now right.
Qed.

Lemma json_safe_obj_get k o :
  json_safe (VObj o) = true -> json_safe (obj_get k o) = true.
Proof.
  intros Hs. destruct (obj_get_In k o) as [-> | [k' Hin]]; [reflexivity|].
  cbn [json_safe] in Hs. apply andb_true_iff in Hs as [_ Hs].
  rewrite forallb_forall in Hs. exact (Hs _ Hin).
Qed.

Lemma json_safe_keys o : json_safe (VObj o) = true -> List.NoDup (List.map fst o).
Proof.
  cbn [json_safe]. intros Hs. apply andb_true_iff in Hs as [Hs _].
  apply andb_true_iff in Hs as [_ Hs]. now apply distinct_NoDup.
Qed.

Lemma obj_get_item_normal k o :
  json_safe (VObj o) = true ->
  obj_get k (item_normal o) = json_normal (obj_get k o).
Proof. intros Hs. apply obj_get_normal, json_safe_keys, Hs. Qed.

(** Reading back keeps the fields that make a library item. *)
Lemma fields_present_normal item :
  json_safe (VObj item) = true -> fields_present item = true ->
  fields_present (item_normal item) = true.
Proof.
  intros Hs. unfold fields_present. rewrite !(obj_get_item_normal _ item Hs).
  pose proof (json_safe_obj_get (lit "settings") item Hs) as Hset.
  destruct (obj_get (lit "id") item) as [| | | |i| |]; try discriminate.
  destruct (obj_get (lit "createdAt") item) as [| | | |c| |];
    try (rewrite andb_false_r; discriminate).
  destruct (obj_get (lit "type") item) as [| | | |t| |];
    try (rewrite andb_false_r; discriminate).
  destruct (obj_get (lit "src") item) as [| | | |x| |];
    try (rewrite andb_false_r; discriminate).
  destruct (obj_get (lit "settings") item) as [| | | | | |settings];
    try (rewrite andb_false_r; discriminate).
  rewrite json_normal_obj. unfold has_prompts.
  rewrite (obj_get_item_normal _ settings Hset).
  destruct (obj_get (lit "prompts") settings); try (rewrite andb_false_r; discriminate).
  cbn [json_normal]. intros H. exact H.
Qed.

Lemma json_safe_library items :
  json_safe (library_value items) = true ->
  forall item, In item items -> json_safe (VObj item) = true.
Proof.
  unfold library_value. intros H item Hin. cbn [json_safe] in H.
  rewrite forallb_forall in H. apply (H (VObj item)). now apply in_map.
Qed.

End Persistence.

(** ** What [JSON.parse] returns can be written and read again *)

Section ParsedValues.

Lemma take_digits_all s : forallb is_digit (fst (take_digits s)) = true.
Proof.
  induction s as [|c s IH]; cbn [take_digits]; [reflexivity|].
  destruct (is_digit c) eqn:E; [|reflexivity].
  destruct (take_digits s) as [d r]. cbn [fst forallb] in *. now rewrite E.
Qed.

Lemma take_digits_exact d r :
  forallb is_digit d = true -> digits_end r -> take_digits (d ++ r) = (d, r).
Proof.
  induction d as [|c d IH]; cbn [app forallb].
  - intros _ Hr. destruct r as [|x r]; [reflexivity|].
    cbn [take_digits]. cbn in Hr. now rewrite Hr.
  - intros [Hc Hd]%andb_true_iff Hr. cbn [take_digits].
    now rewrite Hc, IH.
Qed.

Lemma take_digits_head s d ds r :
  take_digits s = (d :: ds, r) -> exists s', s = d :: s' /\ is_digit d = true.
Proof.
  destruct s as [|c s]; cbn [take_digits]; [discriminate|].
  destruct (is_digit c) eqn:E; [|discriminate].
  destruct (take_digits s). intros [= -> _ _]. eauto.
Qed.

Lemma exp_start_digits_end e : exp_start e -> digits_end e.
Proof.
  destruct e as [|c e]; [easy|]. cbn.
  intros [H | H]%orb_true_iff; apply N.eqb_eq in H; now subst.
Qed.

Lemma exp_start_no_point c e : exp_start (c :: e) -> (c =? 46) = false.
Proof.
  cbn. intros [H | H]%orb_true_iff; apply N.eqb_eq in H; now subst.
Qed.

(** The fraction and the exponent that were read are read again when they
    stand alone. *)
Lemma number_frac_self s f r e :
  number_frac s = Some (f, r) -> exp_start e ->
  number_frac (f ++ e) = Some (f, e) /\ digits_end (f ++ e).
Proof.
  assert (Hnone : exp_start e ->
            number_frac e = Some ([], e) /\ digits_end e).
  { intros He. split; [|now apply exp_start_digits_end].
    destruct e as [|x e]; [reflexivity|]. cbn [number_frac].
    now rewrite (exp_start_no_point _ _ He). }
  destruct s as [|c s]; cbn [number_frac].
  - intros [= <- <-]. exact Hnone.
  - destruct (c =? 46) eqn:E.
    + pose proof (take_digits_all s) as Hall.
      destruct (take_digits s) as [fd r']. cbn [fst] in Hall.
      destruct fd as [|a fd]; [discriminate|]. intros [= <- <-] He.
      split.
      * cbn [app number_frac]. rewrite E.
        change (a :: fd ++ e) with ((a :: fd) ++ e).
        now rewrite (take_digits_exact _ _ Hall (exp_start_digits_end _ He)).
      * cbn. apply N.eqb_eq in E. now subst c.
    + intros [= <- <-]. exact Hnone.
Qed.

Lemma number_exp_self s e r :
  number_exp s = Some (e, r) -> number_exp e = Some (e, []) /\ exp_start e.
Proof.
  destruct s as [|c s]; cbn [number_exp].
  - intros [= <- <-]. now split.
  - destruct ((c =? 101) || (c =? 69)) eqn:E; [|intros [= <- <-]; now split].
    destruct s as [|g s]; [cbn [take_digits]; discriminate|].
    destruct ((g =? 43) || (g =? 45)) eqn:G.
    + pose proof (take_digits_all s) as Hall.
      destruct (take_digits s) as [ed r']. cbn [fst] in Hall.
      destruct ed as [|a ed]; [discriminate|]. intros [= <- <-].
      split; [|exact E]. cbn [app number_exp]. rewrite E, G.
      rewrite <- (app_nil_r (a :: ed)) at 1.
      now rewrite (take_digits_exact _ [] Hall I).
    + pose proof (take_digits_all (g :: s)) as Hall.
      destruct (take_digits (g :: s)) as [ed r'] eqn:T. cbn [fst] in Hall.
      destruct ed as [|a ed]; [discriminate|]. intros [= <- <-].
      destruct (take_digits_head _ _ _ _ T) as (s' & [= -> ->] & _).
      split; [|exact E]. cbn [app number_exp]. rewrite E, G.
      rewrite <- (app_nil_r (a :: ed)) at 1.
      now rewrite (take_digits_exact _ [] Hall I).
Qed.

(** The text that [parse_number] read is a number literal. *)
Lemma parse_number_literal s l r :
  parse_number s = Some (l, r) -> is_number_literal l = true.
Proof.
  rewrite parse_number_stages. intros H.
  unfold is_number_literal. rewrite parse_number_stages.
  destruct (number_sign s) as [sign s1] eqn:Es.
  pose proof (take_digits_all s1) as Hall.
  destruct (take_digits s1) as [int s2] eqn:Et. cbn [fst] in Hall.
  destruct int as [|d ds]; [discriminate|].
  destruct ((d =? 48) && truthy ds) eqn:Ez; [discriminate|].
  destruct (number_frac s2) as [[f s3]|] eqn:Ef; [|discriminate].
  destruct (number_exp s3) as [[e s5]|] eqn:Ee; [|discriminate].
  injection H as <- <-.
  destruct (number_exp_self _ _ _ Ee) as [Hee Hes].
  destruct (number_frac_self _ _ _ e Ef Hes) as [Hff Hfe].
  assert (Hsign : number_sign (sign ++ (d :: ds) ++ f ++ e)
                  = (sign, (d :: ds) ++ f ++ e)).
  { destruct s as [|c s']; cbn [number_sign] in Es.
    - injection Es as <- <-. discriminate Et.
    - destruct (c =? 45) eqn:E45; injection Es as <- <-.
      + cbn [app number_sign]. now rewrite E45.
      + destruct (take_digits_head _ _ _ _ Et) as (t & [= -> ->] & _).
        cbn [app number_sign]. now rewrite E45. }
  pose proof (take_digits_exact _ _ Hall Hfe) as Hint.
  cbn [app] in Hsign, Hint. rewrite Hsign, Hint, Ez, Hff, Hee.
  reflexivity.
Qed.

Lemma obj_set_keys k v o k' :
  In k' (List.map fst (obj_set k v o)) <-> k' = k \/ In k' (List.map fst o).
Proof.
  induction o as [|[a x] o IH]; cbn [obj_set List.map fst In].
  - intuition congruence.
  - destruct (str_eqb k a) eqn:E; cbn [List.map fst In].
    + apply str_eqb_eq in E. subst a. intuition congruence.
    + rewrite IH. intuition congruence.
Qed.

Lemma obj_set_NoDup k v o :
  List.NoDup (List.map fst o) -> List.NoDup (List.map fst (obj_set k v o)).
Proof.
  induction o as [|[a x] o IH]; cbn [obj_set List.map fst].
  - intros _. repeat constructor. intros [].
  - rewrite List.NoDup_cons_iff. intros [Ha Ho].
    destruct (str_eqb k a) eqn:E; cbn [List.map fst].
    + now apply List.NoDup_cons.
    + apply List.NoDup_cons; [|now apply IH].
      rewrite obj_set_keys. intros [-> | H]; [|now apply Ha].
      now rewrite str_eqb_refl in E.
Qed.

Lemma obj_set_wf k v o :
  json_wf v = true -> json_wf (VObj o) = true ->
  json_wf (VObj (obj_set k v o)) = true.
Proof.
  cbn [json_wf]. intros Hv [Hk Ho]%andb_true_iff.
  apply andb_true_iff. split.
  - apply distinct_NoDup, obj_set_NoDup, distinct_NoDup, Hk.
  - clear Hk. induction o as [|[a x] o IH]; cbn [obj_set forallb snd].
    + now rewrite Hv.
    + cbn [forallb snd] in Ho. apply andb_true_iff in Ho as [Hx Ho].
      destruct (str_eqb k a); cbn [forallb snd].
      * now rewrite Hv, Ho.
      * now rewrite Hx, IH.
Qed.

(** What the parser returns has number literals for numbers and distinct
    property names, and is never [undefined]. *)
Lemma parse_value_wf fuel :
  (forall s v r, parse_value fuel s = Some (v, r) ->
     json_wf v = true /\ is_undefined v = false)
  /\ (forall s acc v r, parse_elements fuel s acc = Some (v, r) ->
        forallb json_wf acc = true ->
        json_wf v = true /\ is_undefined v = false)
  /\ (forall s acc v r, parse_members fuel s acc = Some (v, r) ->
        json_wf (VObj acc) = true ->
        json_wf v = true /\ is_undefined v = false).
Proof.
  induction fuel as [|g (IHv & IHe & IHm)]; [repeat split; discriminate|].
  split; [|split].
  - intros s v r. rewrite parse_value_S. destruct s as [|c rest]; [discriminate|].
    destruct (c =? 110).
    { destruct (expect (lit "ull") rest); cbn [option_map];
        [intros [= <- <-]; now split | discriminate]. }
    destruct (c =? 116).
    { destruct (expect (lit "rue") rest); cbn [option_map];
        [intros [= <- <-]; now split | discriminate]. }
    destruct (c =? 102).
    { destruct (expect (lit "alse") rest); cbn [option_map];
        [intros [= <- <-]; now split | discriminate]. }
    destruct (c =? 34).
    { destruct (parse_string_body rest []) as [[t r']|];
        [intros [= <- <-]; now split | discriminate]. }
    destruct (c =? 91).
    { destruct (skip_ws rest) as [|d r']; [discriminate|].
      destruct (d =? 93); [intros [= <- <-]; now split|].
      intros H. now apply (IHe _ _ _ _ H). }
    destruct (c =? 123).
    { destruct (skip_ws rest) as [|d r']; [discriminate|].
      destruct (d =? 125); [intros [= <- <-]; now split|].
      intros H. now apply (IHm _ _ _ _ H). }
    destruct (parse_number (c :: rest)) as [[l r']|] eqn:E; [|discriminate].
    intros [= <- <-]. split; [|reflexivity].
    cbn [json_wf]. exact (parse_number_literal _ _ _ E).
  - intros s acc v r. rewrite parse_elements_S.
    destruct (parse_value g s) as [[x r1]|] eqn:E; [|discriminate].
    destruct (IHv _ _ _ E) as [Hx _].
    destruct (skip_ws r1) as [|d r']; [discriminate|].
    destruct (d =? 44).
    { intros H Hacc. apply (IHe _ _ _ _ H). cbn [forallb]. now rewrite Hx. }
    destruct (d =? 93); [|discriminate].
    intros [= <- <-] Hacc. split; [|reflexivity]. cbn [json_wf].
    apply forallb_forall. intros y Hy.
    apply (proj2 (in_rev (x :: acc) y)) in Hy.
    destruct Hy as [<- | Hy]; [exact Hx|].
    rewrite forallb_forall in Hacc. now apply Hacc.
  - intros s acc v r. rewrite parse_members_S.
    destruct s as [|q s1]; [discriminate|].
    destruct (q =? 34); [|discriminate].
    destruct (parse_string_body s1 []) as [[k r0]|]; [|discriminate].
    destruct (skip_ws r0) as [|colon r1]; [discriminate|].
    destruct (colon =? 58); [|discriminate].
    destruct (parse_value g (skip_ws r1)) as [[x r2]|] eqn:E; [|discriminate].
    destruct (IHv _ _ _ E) as [Hx _].
    destruct (skip_ws r2) as [|d r3]; [discriminate|].
    destruct (d =? 44).
    { intros H Hacc. apply (IHm _ _ _ _ H). now apply obj_set_wf. }
    destruct (d =? 125); [|discriminate].
    intros [= <- <-] Hacc. split; [|reflexivity]. now apply obj_set_wf.
Qed.

(** [JSON.stringify] of a value that [JSON.parse] returned is a text, not
    empty, that [JSON.parse] reads. *)
Lemma parse_reparses text v :
  parse text = Some v ->
  exists c text',
    stringify v = Some (c :: text')
    /\ parse (c :: text') = Some (json_normal v).
Proof.
  unfold parse at 1.
  destruct (parse_value (2 * List.length text + 2) (skip_ws text))
    as [[x rest]|] eqn:E; [|discriminate].
  destruct (skip_ws rest); [|discriminate]. intros [= ->].
  destruct (parse_value_wf (2 * List.length text + 2)) as (H & _ & _).
  destruct (H _ _ _ E) as [Hwf Hdef].
  destruct (stringify_some v Hdef) as [t Ht].
  pose proof (stringify_starts_wf v t Hwf Ht) as Hs.
  destruct t as [|c t]; [destruct Hs|].
  exists c, t. split; [exact Ht|]. now apply parse_stringify_wf.
Qed.

End ParsedValues.

(** ** The subscription tier across a session and a reload *)

Section TierSession.

Lemma save_entry_refuses key v ls : refuses (save_entry key v ls) = refuses ls.
Proof.
  unfold save_entry, setItem.
  now destruct (refuses ls key _).
Qed.

Lemma same_tier_eq a b : same_tier a b = true <-> a = b.
Proof. destruct a, b; vm_compute; split; congruence. Qed.

(** The library that the load effect sets. *)
Lemma library_loaded_value ls st :
  library_loaded ls = true ->
  exists text v, getItem LIBRARY_KEY ls = Some text /\ parse text = Some v
                 /\ p_libraryItems (load_effect ls st) = v.
Proof.
  unfold library_loaded, load_effect.
  destruct (getItem LIBRARY_KEY ls) as [[|c lib]|]; try discriminate.
  destruct (parse (c :: lib)) as [v|] eqn:E; [|discriminate]. intros _.
  exists (c :: lib), v. split; [reflexivity|]. split; [exact E|].
  destruct (getItem TIER_KEY ls) as [[|d t]|]; try reflexivity.
  destruct (parse (d :: t)) as [x|]; [|reflexivity].
  now destruct (whitelisted x).
Qed.

(** The store after the effects of the start-up, when it accepts the
    writes: the tier entry is the text of the tier of the state, the
    library entry is a text that [JSON.parse] reads. *)
Lemma startup_store ls :
  (forall key value, refuses ls key value = false) ->
  (forall key value, refuses (snd (startup ls)) key value = false)
  /\ getItem TIER_KEY (snd (startup ls))
     = Some (quote (SubscriptionTier_str (p_subscriptionTier (fst (startup ls)))))
  /\ exists c text,
       getItem LIBRARY_KEY (snd (startup ls)) = Some (c :: text)
       /\ parse (c :: text) <> None.
Proof.
  intros Hacc. unfold startup. cbn [fst snd].
  set (st := load_effect ls p_initial).
  set (first := save_tier_effect p_initial (save_library_effect p_initial ls)).
  assert (Hfirst : (forall key value, refuses first key value = false)
                   /\ getItem TIER_KEY first = Some (quote (lit "free"))
                   /\ getItem LIBRARY_KEY first = Some (lit "[]")).
  { subst first. unfold save_tier_effect, save_library_effect.
    split; [intros; now rewrite !save_entry_refuses|].
    destruct (save_entry_stored LIBRARY_KEY (p_libraryItems p_initial) (lit "[]") ls
                eq_refl (Hacc _ _)) as [Hl _].
    destruct (save_entry_stored TIER_KEY
                (VStr (SubscriptionTier_str (p_subscriptionTier p_initial)))
                (quote (lit "free")) (save_entry LIBRARY_KEY (p_libraryItems p_initial) ls)
                eq_refl) as [Ht Ho].
    { rewrite save_entry_refuses. apply Hacc. }
    split; [exact Ht|]. rewrite Ho; [exact Hl|].
    intros E. symmetry in E. now apply keys_differ in E. }
  destruct Hfirst as (Ha1 & Ht1 & Hl1).
  set (second := if library_loaded ls then save_library_effect st first else first).
  assert (Hsecond : (forall key value, refuses second key value = false)
                    /\ getItem TIER_KEY second = Some (quote (lit "free"))
                    /\ exists c text,
                         getItem LIBRARY_KEY second = Some (c :: text)
                         /\ parse (c :: text) <> None).
  { subst second. destruct (library_loaded ls) eqn:El.
    - destruct (library_loaded_value ls p_initial El) as (text & v & _ & Hp & Hv).
      fold st in Hv.
      destruct (parse_reparses _ _ Hp) as (c & text' & Hs & Hp').
      unfold save_library_effect.
      destruct (save_entry_stored LIBRARY_KEY (p_libraryItems st) (c :: text') first)
        as [Hl Ho]; [now rewrite Hv | apply Ha1 |].
      split; [intros; rewrite save_entry_refuses; apply Ha1|].
      split; [rewrite Ho; [exact Ht1 | apply keys_differ]|].
      exists c, text'. split; [exact Hl|]. now rewrite Hp'.
    - split; [exact Ha1|]. split; [exact Ht1|].
      exists 91, [93]. split; [exact Hl1|]. vm_compute. discriminate. }
  destruct Hsecond as (Ha2 & Ht2 & Hl2).
  destruct (same_tier (p_subscriptionTier st) free) eqn:Efree.
  - apply same_tier_eq in Efree. rewrite Efree. now repeat split.
  - unfold save_tier_effect.
    destruct (save_entry_stored TIER_KEY
                (VStr (SubscriptionTier_str (p_subscriptionTier st)))
                (quote (SubscriptionTier_str (p_subscriptionTier st))) second
                eq_refl (Ha2 _ _)) as [Ht Ho].
    split; [intros; rewrite save_entry_refuses; apply Ha2|].
    split; [exact Ht|].
    destruct Hl2 as (c & text & Hl & Hp). exists c, text.
    split; [|exact Hp]. rewrite Ho; [exact Hl|].
    intros E. symmetry in E. now apply keys_differ in E.
Qed.




End TierSession.

Section LibraryReload.

(** X1: a library of values that JSON carries (numbers that are integers,
    distinct property names that are not array indices) survives a reload.
    When the store accepts the write of the library effect, the start-up
    effect of the next session reads back the same items in the same order,
    every property in its normal form (a property whose value is
    [undefined] is gone, every other value is unchanged up to such
    properties inside it), whatever is stored under the tier key; items that
    had the fields of a library item still have them. *)
Theorem library_reload (st : AppState) (ls : Storage) (st0 : Persisted) :
  json_safe (library_value (libraryItems st)) = true ->
  (forall text, refuses ls LIBRARY_KEY text = false) ->
  let ls' := save_library_effect (persisted st) ls in
  p_libraryItems (load_effect ls' st0)
  = library_value (List.map item_normal (libraryItems st))
  /\ (forall item k, In item (libraryItems st) ->
        obj_get k (item_normal item) = json_normal (obj_get k item))
  /\ (forallb fields_present (libraryItems st) = true ->
      forallb fields_present (List.map item_normal (libraryItems st)) = true).
Proof.
  intros Hs Hacc ls'. split; [|split].
  - destruct (stringify (library_value (libraryItems st))) as [text|] eqn:Ht;
      [|discriminate Ht].
    destruct (save_entry_stored LIBRARY_KEY _ text ls Ht (Hacc text)) as [Hg _].
    pose proof (parse_stringify _ _ Hs Ht) as Hp.
    pose proof (stringify_starts _ _ Hs Ht) as Hstart.
    destruct text as [|c text]; [destruct Hstart|].
    rewrite (load_effect_library ls' st0 c text _ Hg Hp).
    apply json_normal_library.
  - intros item k Hin. apply obj_get_item_normal.
    now apply (json_safe_library (libraryItems st)).
  - rewrite !forallb_forall. intros Hf item' Hin.
    apply in_map_iff in Hin as (item & <- & Hin).
    apply fields_present_normal; [|now apply Hf].
    now apply (json_safe_library (libraryItems st)).
Qed.

(** A first session saves one video without a soundtrack; the next session
    finds it. *)
Lemma library_reload_witness :
  let env := {| now_id := 1700000000000; now_created := 1700000000001;
                save_toast_id := lit "t1"; notify_saved := true |} in
  let item := newItem env (saved_item (currentSettings initial_state) (lit "blob:v") None) in
  let st := setLibraryItems (fun prev => item :: prev) App.initial in
  let fresh := {| entries := ∅; refuses := fun _ _ => false |} in
  json_safe (library_value (libraryItems st)) = true
  /\ p_libraryItems (load_effect (save_library_effect (persisted st) fresh) p_initial)
     = library_value (List.map item_normal (libraryItems st)).
Proof.
  intros env item st fresh.
  assert (Hs : json_safe (library_value (libraryItems st)) = true)
    by (vm_compute; reflexivity).
  split; [exact Hs|].
  exact (proj1 (library_reload st fresh p_initial Hs (fun _ => eq_refl))).
Defined.

Lemma newItem_saved_item env settings url audio :
  newItem env (saved_item settings url audio)
  = [ (lit "type", VStr (lit "VIDEO")); (lit "src", VStr url);
      (lit "settings", VObj settings);
      (lit "audioSrc", match audio with
                       | Some (c :: t) => VStr (c :: t)
                       | _ => VUndefined
                       end);
      (lit "id", VStr (lit "item-" ++ Clock.dec (now_id env)));
      (lit "createdAt", VStr (Clock.toISOString (now_created env))) ].
Proof. reflexivity. Qed.

(** X2: the item that a finished submission saves is a value that JSON
    carries, so the library that holds it survives a reload.  Read back,
    it has the fields of a library item and every property has the value it
    had; only the [audioSrc] property, which holds [undefined] when no
    soundtrack was made, is then no longer a property of the item. *)
Theorem saved_video_item_reload (env : SaveEnv) (s : State) (url : str)
    (audio : option str) :
  let item := newItem env (saved_item (currentSettings s) url audio) in
  json_safe (VObj item) = true
  /\ fields_present (item_normal item) = true
  /\ (forall k, obj_get k (item_normal item) = obj_get k item)
  /\ obj_has (lit "audioSrc") item = true
  /\ obj_has (lit "audioSrc") (item_normal item)
     = match audio with Some (_ :: _) => true | _ => false end.
Proof.
  intros item.
  assert (Hs : json_safe (VObj item) = true).
  { subst item. rewrite newItem_saved_item.
    unfold currentSettings. destruct (fps s), audio as [[|c t]|]; reflexivity. }
  split; [exact Hs|]. split; [|split; [|split]].
  - apply fields_present_normal; [exact Hs|].
    apply newItem_fields_present, saved_item_argument.
  - intros k. rewrite (obj_get_item_normal k item Hs).
    destruct (obj_get_In k item) as [-> | [k' Hin]]; [reflexivity|].
    revert Hin. generalize (obj_get k item). intros v Hin.
    subst item. rewrite newItem_saved_item in Hin. cbn [In] in Hin.
    repeat (destruct Hin as [[= <- <-] | Hin]; [try reflexivity|]);
      [|destruct Hin].
    now destruct audio as [[|c t]|].
  - reflexivity.
  - subst item. rewrite newItem_saved_item.
    now destruct audio as [[|c t]|].
Qed.

End LibraryReload.

Section HistoryReload.

(** X3: a prompt added to the history is found again when the component
    mounts the next time.  For a prompt that is not blank and a store that
    accepts the write, the mount effect of [usePromptHistory] reads back
    exactly the history that [addPromptToHistory] set, whatever history the
    hook held before the effect ran. *)
Theorem history_reload (key p : str) (h : list str) (ls : Storage) (h0 : JsValue) :
  truthy (trim p) = true ->
  (forall text, refuses ls key text = false) ->
  load_history key (snd (addPromptToHistory key p h ls)) h0
  = VArr (List.map VStr (fst (addPromptToHistory key p h ls)))
  /\ fst (addPromptToHistory key p h ls) = newHistory p h.
Proof.
  intros Hp Hacc. unfold addPromptToHistory. rewrite Hp. cbn [negb fst snd].
  split; [|reflexivity].
  set (v := VArr (List.map VStr (newHistory p h))).
  assert (Hs : json_safe v = true).
  { subst v. cbn [json_safe]. rewrite forallb_forall. intros x Hx.
    apply in_map_iff in Hx as (y & <- & _). reflexivity. }
  destruct (stringify v) as [text|] eqn:Ht; [|discriminate Ht].
  destruct (save_entry_stored key v text ls Ht (Hacc text)) as [Hg _].
  pose proof (parse_stringify v text Hs Ht) as Hparse.
  pose proof (stringify_starts v text Hs Ht) as Hstart.
  destruct text as [|c text]; [destruct Hstart|].
  unfold load_history. rewrite Hg, Hparse. subst v. apply json_normal_strings.
Qed.

Lemma history_reload_witness :
  let fresh := {| entries := ∅; refuses := fun _ _ => false |} in
  load_history HISTORY_KEY
    (snd (addPromptToHistory HISTORY_KEY (lit "a red fox") [lit "a cat"] fresh)) VUndefined
  = VArr [VStr (lit "a red fox"); VStr (lit "a cat")].
Proof.
  intros fresh.
  apply (history_reload HISTORY_KEY (lit "a red fox") [lit "a cat"] fresh VUndefined);
    reflexivity.
Defined.

End HistoryReload.

(** ** The prompt history over many additions *)

Section HistoryInvariant.

Lemma NoDup_firstn {A} n (l : list A) : List.NoDup l -> List.NoDup (firstn n l).
Proof.
  revert l. induction n as [|n IH]; intros [|a l] H; cbn [firstn]; try constructor.
  - apply List.NoDup_cons_iff in H as [Hn Hd]. intros Hin. apply Hn.
    now apply In_firstn_inv in Hin.
  - apply IH. now apply List.NoDup_cons_iff in H.
Qed.

Lemma newHistory_NoDup p h : List.NoDup h -> List.NoDup (newHistory p h).
Proof.
  intros H. unfold newHistory. apply NoDup_firstn. constructor.
  - intros Hin. apply List.filter_In in Hin as [_ Hp].
    now rewrite str_eqb_refl in Hp.
  - now apply List.NoDup_filter.
Qed.

Lemma newHistory_In p h q : In q (newHistory p h) -> q = p \/ In q h.
Proof.
  unfold newHistory. intros Hin. apply In_firstn_inv in Hin.
  destruct Hin as [<- | Hin]; [now left|].
  apply List.filter_In in Hin. tauto.
Qed.

Lemma addPromptToHistory_invariant key p h ls :
  List.NoDup h -> (List.length h <= 10)%nat ->
  List.Forall (fun q => truthy (trim q) = true) h ->
  let h' := fst (addPromptToHistory key p h ls) in
  List.NoDup h' /\ (List.length h' <= 10)%nat
  /\ List.Forall (fun q => truthy (trim q) = true) h'
  /\ (forall q, In q h' -> q = p \/ In q h).
Proof.
  intros Hd Hl Hb. unfold addPromptToHistory.
  destruct (truthy (trim p)) eqn:Hp; cbn [negb fst].
  - split; [now apply newHistory_NoDup|]. split; [apply List.firstn_le_length|]. split.
    + rewrite List.Forall_forall in Hb |- *. intros q Hq.
      apply newHistory_In in Hq as [-> | Hq]; [exact Hp|now apply Hb].
    + intros q. apply newHistory_In.
  - repeat split; try assumption. intros q Hq. now right.
Qed.

(** X4: whatever prompts are added to the history one after the other,
    blank ones among them, a history that holds each prompt once, at most
    ten prompts and no blank prompt stays so, and holds nothing but what it
    held and what was added. *)
Theorem history_invariant (key : str) (prompts h : list str) (ls : Storage) :
  List.NoDup h -> (List.length h <= 10)%nat ->
  List.Forall (fun q => truthy (trim q) = true) h ->
  let h' := fst (add_all key prompts (h, ls)) in
  List.NoDup h' /\ (List.length h' <= 10)%nat
  /\ List.Forall (fun q => truthy (trim q) = true) h'
  /\ (forall q, In q h' -> In q prompts \/ In q h).
Proof.
  revert h ls. induction prompts as [|p ps IH]; intros h ls Hd Hl Hb.
  - cbn. repeat split; try assumption. intros q Hq. now right.
  - unfold add_all. cbn [fold_left fst snd].
    destruct (addPromptToHistory_invariant key p h ls Hd Hl Hb) as (Hd1 & Hl1 & Hb1 & Hin1).
    destruct (addPromptToHistory key p h ls) as [h1 ls1] eqn:E. cbn [fst] in *.
    destruct (IH h1 ls1 Hd1 Hl1 Hb1) as (Hd2 & Hl2 & Hb2 & Hin2).
    unfold add_all in *. cbn zeta in *.
    repeat split; try assumption.
    intros q Hq. destruct (Hin2 q Hq) as [H | H]; [left; now right|].
    destruct (Hin1 q H) as [-> | H']; [left; now left|now right].
Qed.

Lemma history_invariant_witness :
  let fresh := {| entries := ∅; refuses := fun _ _ => false |} in
  let h' := fst (add_all HISTORY_KEY [lit "a cat"; lit "  "; lit "a dog"; lit "a cat"]
                   ([], fresh)) in
  h' = [lit "a cat"; lit "a dog"] /\ List.NoDup h'.
Proof.
  intros fresh h'. split; [vm_compute; reflexivity|].
  apply (history_invariant HISTORY_KEY
           [lit "a cat"; lit "  "; lit "a dog"; lit "a cat"] [] fresh).
  - constructor.
  - cbn. lia.
  - constructor.
Defined.

End HistoryInvariant.

(** ** The loading messages *)

Section LoadingMessages.

Lemma nextLoadingMessage_cases prev :
  exists i, (i < 6)%nat /\ nextLoadingMessage prev = nth i LOADING_MESSAGES []
            /\ (~ In prev LOADING_MESSAGES -> i = 0%nat).
Proof.
  unfold nextLoadingMessage, indexOf, LOADING_MESSAGES.
  cbn [indexOf_from List.length].
  repeat match goal with
         | |- context [str_eqb ?y ?x] =>
             let E := fresh "E" in destruct (str_eqb y x) eqn:E
         end.
  7: { exists 0%nat. repeat split; lia. }
  all: match goal with
       | E : str_eqb _ _ = true |- _ => apply str_eqb_eq in E
       end.
  - exists 1%nat. repeat split; [lia|]. intros H. exfalso. apply H. now left.
  - exists 2%nat. repeat split; [lia|]. intros H. exfalso. apply H. right. now left.
  - exists 3%nat. repeat split; [lia|]. intros H. exfalso. apply H.
    right. right. now left.
  - exists 4%nat. repeat split; [lia|]. intros H. exfalso. apply H.
    right. right. right. now left.
  - exists 5%nat. repeat split; [lia|]. intros H. exfalso. apply H.
    right. right. right. right. now left.
  - exists 0%nat. repeat split; lia.
Qed.

Lemma nextLoadingMessage_nth i :
  (i < 6)%nat ->
  nextLoadingMessage (nth i LOADING_MESSAGES []) = nth (S i mod 6) LOADING_MESSAGES [].
Proof.
  intros Hi.
  do 6 (destruct i as [|i]; [vm_compute; reflexivity|]). lia.
Qed.

Lemma loadingMessage_tick s :
  loadingMessage (tick s) = nextLoadingMessage (loadingMessage s).
Proof. reflexivity. Qed.

(** X5: while a video is generated the message on show walks through the
    six loading messages in order and starts again after the last: [n]
    timer ticks after a submission began, the message is the one at index
    [n mod 6].  The timer never shows anything but one of the six, and from
    a text that is none of them it goes to the first. *)
Theorem loading_message_cycle (settings : JsObj) (history : list str) (s : State)
    (n : nat) :
  loadingMessage (Nat.iter n tick (begin_submit settings history s))
  = nth (n mod 6) LOADING_MESSAGES []
  /\ (forall prev, In (nextLoadingMessage prev) LOADING_MESSAGES)
  /\ (forall prev, ~ In prev LOADING_MESSAGES ->
        nextLoadingMessage prev = LOADING_MESSAGES_0).
Proof.
  split; [|split].
  - induction n as [|n IH]; [reflexivity|].
    rewrite Nat.iter_succ, loadingMessage_tick, IH.
    rewrite nextLoadingMessage_nth by (apply Nat.mod_upper_bound; lia).
    f_equal. replace (S (n mod 6)) with (n mod 6 + 1)%nat by lia.
    replace (S n) with (n + 1)%nat by lia. apply Nat.Div0.add_mod_idemp_l.
  - intros prev. destruct (nextLoadingMessage_cases prev) as (i & Hi & -> & _).
    apply nth_In. exact Hi.
  - intros prev Hn. destruct (nextLoadingMessage_cases prev) as (i & Hi & -> & H0).
    now rewrite (H0 Hn).
Qed.

End LoadingMessages.

(** ** Submissions: blocked, finished, stopped by the file, never resumed *)

Section SubmitPaths.

Lemma app_neq_self {A} (l m : list A) : m <> [] -> l ++ m <> l.
Proof.
  intros Hm H. apply Hm. apply (f_equal (@List.length A)) in H.
  rewrite length_app in H. destruct m; [reflexivity|cbn in H; lia].
Qed.

(** X6: the flag that disables the submit button and the checks of
    [handleSubmit] agree.  While nothing is loading, a submission of a form
    whose button is disabled does nothing but set the error message of the
    first check that fails: no request is issued, the store, the history,
    the library and the toasts are what they were.  A submission of a form
    whose button is enabled passes both checks: when the handler returns it
    has recorded the settings and has issued at least one request. *)
Theorem handleSubmit_blocked (env : SubmitEnv) (w : World) :
  isLoading (component w) = false ->
  (isSubmitDisabled (component w) = true ->
   handleSubmit env w
   = Some {| component :=
               setError
                 (if truthy (prompt (component w))
                  then lit "An image is required for image-to-video generation."
                  else lit "A prompt is required to generate a video.")
                 (component w);
             app_state := app_state w; storage := storage w; trace := trace w |})
  /\ (isSubmitDisabled (component w) = false ->
      forall w', handleSubmit env w = Some w' ->
        trace w' <> trace w
        /\ lastSettings (component w') = Some (currentSettings (component w))).
Proof.
  intros Hload. unfold isSubmitDisabled. rewrite Hload. cbn [orb]. split.
  - intros Hd. unfold handleSubmit. cbv zeta.
    destruct (truthy (prompt (component w))); cbn [negb orb] in *; [|reflexivity].
    now rewrite Hd.
  - intros Hd w' Hw'. apply orb_false_iff in Hd as [Hp Hm].
    assert (Hfile : file_events (component w) = []
                    \/ file_events (component w) = [EvFileToBase64])
      by (unfold file_events; destruct (mode (component w)), (imageFile (component w));
          auto).
    unfold handleSubmit in Hw'. cbv zeta in Hw'. rewrite Hp, Hm in Hw'.
    destruct (addPromptToHistory HISTORY_KEY (prompt (component w))
                (promptHistory (component w)) (storage w)) as [history ls].
    destruct (mode (component w)) eqn:Emode, (imageFile (component w)) as [f|] eqn:Efile;
      try discriminate Hm.
    + match type of Hw' with
      | context [generateVideo ?a ?fu ?p ?i ?b ?c ?d ?e ?g ?h ?j ?k ?l ?m ?n ?o ?q] =>
          destruct (generateVideoInternal_one_request a fu
                      (constructVideoPrompt p b c d e g h j k l m n o q) i) as [Hi _];
          change (generateVideoInternal a fu
                    (constructVideoPrompt p b c d e g h j k l m n o q) i)
            with (generateVideo a fu p i b c d e g h j k l m n o q) in Hi;
          set (vc := generateVideo a fu p i b c d e g h j k l m n o q) in *
      end.
      destruct (Promise_all2 (race env) (result vc)
                  (result (soundtrack (audioMood (component w)))))
        as [[v a]|e|]; [| |discriminate Hw'];
        injection Hw' as <-; cbn [trace on_results on_rejection emit component
                                   setIsLoading setGenerated setError begin_submit
                                   lastSettings];
        (split; [|reflexivity]); apply app_neq_self; rewrite Hi; discriminate.
    + match type of Hw' with
      | context [generateVideo ?a ?fu ?p ?i ?b ?c ?d ?e ?g ?h ?j ?k ?l ?m ?n ?o ?q] =>
          destruct (generateVideoInternal_one_request a fu
                      (constructVideoPrompt p b c d e g h j k l m n o q) i) as [Hi _];
          change (generateVideoInternal a fu
                    (constructVideoPrompt p b c d e g h j k l m n o q) i)
            with (generateVideo a fu p i b c d e g h j k l m n o q) in Hi;
          set (vc := generateVideo a fu p i b c d e g h j k l m n o q) in *
      end.
      destruct (Promise_all2 (race env) (result vc)
                  (result (soundtrack (audioMood (component w)))))
        as [[v a]|e|]; [| |discriminate Hw'];
        injection Hw' as <-; cbn [trace on_results on_rejection emit component
                                   setIsLoading setGenerated setError begin_submit
                                   lastSettings];
        (split; [|reflexivity]); apply app_neq_self; rewrite Hi; discriminate.
    + destruct (fileToBase64 env) as [p|e|]; [| |discriminate Hw'].
      * match type of Hw' with
        | context [generateVideo ?a ?fu ?p ?i ?b ?c ?d ?e ?g ?h ?j ?k ?l ?m ?n ?o ?q] =>
            destruct (generateVideoInternal_one_request a fu
                        (constructVideoPrompt p b c d e g h j k l m n o q) i) as [Hi _];
            change (generateVideoInternal a fu
                      (constructVideoPrompt p b c d e g h j k l m n o q) i)
              with (generateVideo a fu p i b c d e g h j k l m n o q) in Hi;
            set (vc := generateVideo a fu p i b c d e g h j k l m n o q) in *
        end.
        destruct (Promise_all2 (race env) (result vc)
                    (result (soundtrack (audioMood (component w)))))
          as [[v a]|e|]; [| |discriminate Hw'];
          injection Hw' as <-; cbn [trace on_results on_rejection emit component
                                     setIsLoading setGenerated setError begin_submit
                                     lastSettings];
          (split; [|reflexivity]); rewrite <- app_assoc; apply app_neq_self;
          discriminate.
      * injection Hw' as <-. cbn [trace on_rejection emit component setIsLoading
                                   setError begin_submit lastSettings].
        split; [|reflexivity]. apply app_neq_self. discriminate.
Qed.

Lemma handleSubmit_blocked_witness :
  let w := {| component := initial_state; app_state := App.initial;
              storage := {| entries := ∅; refuses := fun _ _ => false |};
              trace := [] |} in
  let env := {| api := {| API_KEY := lit "k";
                          answers := fun _ => Throw (ErrorObject (lit "down"));
                          fetch := fun _ => Throw (ErrorObject (lit "offline"));
                          createObjectURL := fun _ => lit "blob:1" |};
                fuel := 0; fileToBase64 := Pending; race := LeftFirst;
                save_env := {| now_id := 0; now_created := 0; save_toast_id := []; notify_saved := true |};
                error_toast_id := [] |} in
  isSubmitDisabled (component w) = true
  /\ handleSubmit env w
     = Some {| component := setError (lit "A prompt is required to generate a video.")
                              initial_state;
               app_state := App.initial; storage := storage w; trace := [] |}.
Proof.
  intros w env. split; [reflexivity|].
  exact (proj1 (handleSubmit_blocked env w eq_refl) eq_refl).
Defined.

Lemma soundtrack_audio m :
  result (soundtrack m)
  = Fulfilled (match m with am_none => None | _ => Some placeholderAudio end).
Proof. now destruct m. Qed.

(** X7: a submission whose video is generated.  The item saved on top of
    the library has the fields of a library item, the URL of the video as
    [src], the settings of the form as [settings] and the placeholder
    soundtrack as [audioSrc] exactly when an audio mood was chosen; it is
    announced by one success toast when the notification switch
    [generationComplete] of the settings is on, and by none when it is off.
    The component shows the video and the
    soundtrack, has no error, is no longer loading and remembers the
    settings; history and store are those that [addPromptToHistory] made
    of the prompt. *)
Theorem handleSubmit_finished (env : SubmitEnv) (w : World)
    (image : option ImagePayload) (url : str) :
  ready env (component w) = Some image ->
  result (video_call env (component w) image) = Fulfilled url ->
  let s := component w in
  let audio := match audioMood s with am_none => None | _ => Some placeholderAudio end in
  let item := newItem (save_env env) (saved_item (currentSettings s) url audio) in
  let hl := addPromptToHistory HISTORY_KEY (prompt s) (promptHistory s) (storage w) in
  exists w',
    handleSubmit env w = Some w'
    /\ libraryItems (app_state w') = item :: libraryItems (app_state w)
    /\ fields_present item = true
    /\ obj_get (lit "src") item = VStr url
    /\ obj_get (lit "settings") item = VObj (currentSettings s)
    /\ obj_get (lit "audioSrc") item
       = match audioMood s with am_none => VUndefined | _ => VStr placeholderAudio end
    /\ toasts (app_state w')
       = toasts (app_state w)
         ++ (if notify_saved (save_env env)
             then [{| toast_id := save_toast_id (save_env env);
                      message := lit "Saved to Library!";
                      toast_type := success |}]
             else [])
    /\ generatedVideo (component w') = Some url
    /\ generatedAudio (component w') = audio
    /\ error_state (component w') = None
    /\ isLoading (component w') = false
    /\ lastSettings (component w') = Some (currentSettings s)
    /\ promptHistory (component w') = fst hl
    /\ storage w' = snd hl.
Proof.
  intros Hready Hok s audio item hl.
  rewrite (handleSubmit_ready env w image Hready). cbv zeta.
  rewrite soundtrack_audio, Hok. cbn [Promise_all2].
  eexists. split; [reflexivity|].
  fold s. fold audio. fold item.
  assert (Hitem : item
    = [ (lit "type", VStr (lit "VIDEO")); (lit "src", VStr url);
        (lit "settings", VObj (currentSettings s));
        (lit "audioSrc", match audio with
                         | Some (c :: t) => VStr (c :: t)
                         | _ => VUndefined
                         end);
        (lit "id", VStr (lit "item-" ++ Clock.dec (now_id (save_env env))));
        (lit "createdAt", VStr (Clock.toISOString (now_created (save_env env)))) ])
    by apply newItem_saved_item.
  split; [cbn [on_results app_state]; apply handleSaveToLibrary_library|].
  split; [apply newItem_fields_present, saved_item_argument|].
  split; [now rewrite Hitem|]. split; [now rewrite Hitem|].
  split; [rewrite Hitem; subst audio; now destruct (audioMood s)|].
  split.
  { cbn [on_results app_state]. unfold handleSaveToLibrary.
    destruct (notify_saved (save_env env)); [reflexivity|].
    cbn [toasts setLibraryItems emit app_state]. now rewrite app_nil_r. }
  split; [reflexivity|].
  split; [subst audio; cbn; now destruct (audioMood s)|].
  repeat split.
Qed.

Lemma handleSubmit_finished_witness :
  let op := {| done := true;
               response := Some {| generatedVideos :=
                 Some [{| video := Some {| uri := Some (lit "https://v") |} |}] |} |} in
  let env := {| api := {| API_KEY := lit "k";
                          answers := fun _ => Ok op;
                          fetch := fun _ => Ok {| ok := true;
                                                  blob := Ok {| blob_data := lit "b" |} |};
                          createObjectURL := fun _ => lit "blob:1" |};
                fuel := 0; fileToBase64 := Pending; race := LeftFirst;
                save_env := {| now_id := 5; now_created := 6; save_toast_id := lit "t"; notify_saved := true |};
                error_toast_id := [] |} in
  let w := {| component := setAudioMood am_epic (setPrompt (lit "a fox") initial_state);
              app_state := App.initial;
              storage := {| entries := ∅; refuses := fun _ _ => false |};
              trace := [] |} in
  exists w',
    handleSubmit env w = Some w'
    /\ List.length (libraryItems (app_state w')) = 1%nat
    /\ generatedAudio (component w') = Some placeholderAudio.
Proof.
  intros op env w.
  destruct (handleSubmit_finished env w None (lit "blob:1") eq_refl)
    as (w' & Hw & Hlib & _ & _ & _ & _ & _ & _ & Ha & _).
  - vm_compute. reflexivity.
  - exists w'. split; [exact Hw|]. split; [now rewrite Hlib|exact Ha].
Defined.

(** X8: a submission in image-to-video mode whose file cannot be read
    stops before any generation request: the only thing it did outside is
    the reading of the file.  The message of the reason, or 'An unknown
    error occurred.' for a reason that is no [Error], as the event of the
    file reader is, is shown as the error and as one error toast; the
    library is unchanged and the loading flag is false again, while the
    settings and the prompt were already recorded. *)
Theorem handleSubmit_file_rejected (env : SubmitEnv) (w : World) (f : File)
    (e : Reason) :
  truthy (prompt (component w)) = true ->
  mode (component w) = image_to_video ->
  imageFile (component w) = Some f ->
  fileToBase64 env = Rejected e ->
  let s := component w in
  let msg := message_or (lit "An unknown error occurred.") e in
  let hl := addPromptToHistory HISTORY_KEY (prompt s) (promptHistory s) (storage w) in
  exists w',
    handleSubmit env w = Some w'
    /\ trace w' = trace w ++ [EvFileToBase64]
    /\ error_state (component w') = Some msg
    /\ toasts (app_state w')
       = toasts (app_state w)
         ++ [{| toast_id := error_toast_id env; message := msg; toast_type := error |}]
    /\ libraryItems (app_state w') = libraryItems (app_state w)
    /\ generatedVideo (component w') = None
    /\ isLoading (component w') = false
    /\ lastSettings (component w') = Some (currentSettings s)
    /\ promptHistory (component w') = fst hl
    /\ storage w' = snd hl.
Proof.
  intros Hp Hm Hf He s msg hl. unfold handleSubmit. cbv zeta.
  rewrite Hp, Hm, Hf, He. cbn [negb].
  fold s. subst hl.
  destruct (addPromptToHistory HISTORY_KEY (prompt s) (promptHistory s) (storage w))
    as [history ls].
  eexists. split; [reflexivity|]. repeat split.
Qed.

Lemma handleSubmit_file_rejected_witness :
  let env := {| api := {| API_KEY := lit "k";
                          answers := fun _ => Throw (ErrorObject (lit "down"));
                          fetch := fun _ => Throw (ErrorObject (lit "offline"));
                          createObjectURL := fun _ => lit "blob:1" |};
                fuel := 0; fileToBase64 := Rejected (OtherReason (VObj []));
                race := LeftFirst;
                save_env := {| now_id := 0; now_created := 0; save_toast_id := []; notify_saved := true |};
                error_toast_id := lit "t" |} in
  let file := {| file_type := lit "image/png"; file_name := lit "a.png" |} in
  let w := {| component := setImageFile (Some file)
                             (setMode image_to_video (setPrompt (lit "a fox") initial_state));
              app_state := App.initial;
              storage := {| entries := ∅; refuses := fun _ _ => false |};
              trace := [] |} in
  exists w',
    handleSubmit env w = Some w'
    /\ trace w' = [EvFileToBase64]
    /\ error_state (component w') = Some (lit "An unknown error occurred.").
Proof.
  intros env file w.
  destruct (handleSubmit_file_rejected env w file (OtherReason (VObj []))
              eq_refl eq_refl eq_refl eq_refl)
    as (w' & Hw & Ht & He & _).
  exists w'. split; [exact Hw|]. split; [exact Ht|exact He].
Defined.

(** X9: nothing bounds the wait for the video.  When the service answers
    every request and never reports the video as done, the submission is
    never resumed, whatever number of rounds the loop is given: neither the
    [catch] block nor the [finally] block runs, so the loading flag that
    the start of the submission set is not reset. *)
Theorem handleSubmit_unfinished (env : SubmitEnv) (w : World)
    (image : option ImagePayload) :
  ready env (component w) = Some image ->
  (forall j, exists o, answers (api env) j = Ok o /\ done o = false) ->
  handleSubmit env w = None
  /\ forall n, handleSubmit
                 {| api := api env; fuel := n; fileToBase64 := fileToBase64 env;
                    race := race env; save_env := save_env env;
                    error_toast_id := error_toast_id env |} w = None.
Proof.
  intros Hready Hall.
  assert (H : forall env', api env' = api env -> fileToBase64 env' = fileToBase64 env ->
                handleSubmit env' w = None).
  { intros env' Hapi Hfile.
    assert (Hready' : ready env' (component w) = Some image)
      by (unfold ready in *; now rewrite Hfile).
    rewrite (handleSubmit_ready env' w image Hready'). cbv zeta.
    unfold video_call, generateVideo.
    rewrite generateVideoInternal_pending by (now rewrite Hapi).
    rewrite soundtrack_audio. reflexivity. }
  split; [now apply H|]. intros n. now apply H.
Qed.

Lemma handleSubmit_unfinished_witness :
  let env := {| api := {| API_KEY := lit "k";
                          answers := fun _ => Ok {| done := false; response := None |};
                          fetch := fun _ => Throw (ErrorObject (lit "offline"));
                          createObjectURL := fun _ => lit "blob:1" |};
                fuel := 100; fileToBase64 := Pending; race := LeftFirst;
                save_env := {| now_id := 0; now_created := 0; save_toast_id := []; notify_saved := true |};
                error_toast_id := [] |} in
  let w := {| component := setPrompt (lit "a fox") initial_state;
              app_state := App.initial;
              storage := {| entries := ∅; refuses := fun _ _ => false |};
              trace := [] |} in
  handleSubmit env w = None.
Proof.
  intros env w.
  refine (proj1 (handleSubmit_unfinished env w None eq_refl _)).
  intros j. eexists. split; reflexivity.
Defined.

End SubmitPaths.

(** ** The video job: failures and the order of what is done *)

Section VideoJob.

Variable api : Api.

Lemma poll_first_failure d : forall k op fuel e,
  answers api k = Ok op ->
  (forall j, (j <= d)%nat -> exists o, answers api (k + j) = Ok o /\ done o = false) ->
  answers api (k + S d) = Throw e ->
  (S d <= fuel)%nat ->
  poll api fuel k op = (waits (S d), Some (Throw e)).
Proof.
  induction d as [|d IH]; intros k op fuel e Hk Hbefore He Hfuel;
    (destruct fuel as [|fuel]; [lia|]);
    destruct (Hbefore 0%nat ltac:(lia)) as (o & Ho & Hnd);
    rewrite Nat.add_0_r, Hk in Ho; injection Ho as <-;
    cbn [poll]; rewrite Hnd.
  - rewrite Nat.add_1_r in He. now rewrite He.
  - destruct (Hbefore 1%nat ltac:(lia)) as (o' & Ho' & Hn').
    rewrite Nat.add_1_r in Ho'. rewrite Ho'.
    rewrite (IH (S k) o' fuel e); [now rewrite (waits_S (S d)) | exact Ho' | | | lia].
    + intros j Hj. destruct (Hbefore (S j) ltac:(lia)) as (o2 & Ho2 & Hn2).
      exists o2. split; [|exact Hn2]. now rewrite <- Ho2, Nat.add_succ_r.
    + rewrite <- He. f_equal. lia.
Qed.

(** X10: a failure of the service ends the job at once.  When answer [n]
    is the first failure and no earlier answer reports the video as done,
    the job is rejected with that failure after the generation request and
    exactly [n] rounds of waiting 10000 ms and asking once; nothing is
    downloaded and nothing is asked again. *)
Theorem generateVideoInternal_failure (n : nat) (e : Reason) (prompt : str)
    (image : option ImagePayload) (fuel : nat) :
  first_failure api n e -> (n <= fuel)%nat ->
  let c := generateVideoInternal api fuel prompt image in
  events c = EvGenerateVideos prompt image :: waits n
  /\ result c = Rejected e
  /\ List.filter is_fetch (events c) = [].
Proof.
  intros [Hbefore He] Hfuel. cbn zeta.
  assert (Hw : forall m, List.filter is_fetch (waits m) = []).
  { induction m as [|m IH]; [reflexivity|]. rewrite waits_S. exact IH. }
  assert (H : events (generateVideoInternal api fuel prompt image)
              = EvGenerateVideos prompt image :: waits n
              /\ result (generateVideoInternal api fuel prompt image) = Rejected e).
  { unfold generateVideoInternal, events. destruct n as [|n].
    - rewrite He. now split.
    - destruct (Hbefore 0%nat ltac:(lia)) as (op0 & H0 & _). rewrite H0.
      rewrite (poll_first_failure n 0 op0 fuel e H0); [now split| |exact He|exact Hfuel].
      intros j Hj. apply Hbefore. lia. }
  destruct H as [Hev Hres]. rewrite Hev. repeat split; [exact Hres|].
  cbn [List.filter is_fetch]. apply Hw.
Qed.

Lemma poll_shape fuel : forall k op,
  exists n, (n <= fuel)%nat
    /\ fst (poll api fuel k op) = waits n
    /\ (snd (poll api fuel k op) = None -> n = fuel).
Proof.
  induction fuel as [|fuel IH]; intros k op; cbn [poll].
  - exists 0%nat. destruct (done op); repeat split; lia.
  - destruct (done op).
    + exists 0%nat. repeat split; [lia|discriminate].
    + destruct (answers api (S k)) as [op'|e].
      * destruct (IH (S k) op') as (n & Hn & Hf & Hs).
        destruct (poll api fuel (S k) op') as [tr r]. cbn [fst snd] in *.
        exists (S n). rewrite waits_S, Hf. repeat split; [lia|].
        intros Hr. now rewrite (Hs Hr).
      * exists 1%nat. repeat split; [lia|discriminate].
Qed.

(** X11: what one video job does outside, in order, whatever the service
    answers: one generation request, then rounds of waiting 10000 ms and
    asking once, then at most one download, of the link followed by
    [&key=] and the API key.  While the job has not settled there was no
    download. *)
Theorem generateVideoInternal_order (prompt : str) (image : option ImagePayload)
    (fuel : nat) :
  let c := generateVideoInternal api fuel prompt image in
  exists n tail,
    (n <= fuel)%nat
    /\ events c = EvGenerateVideos prompt image :: waits n ++ tail
    /\ (tail = []
        \/ exists link, tail = [EvFetch (link ++ lit "&key=" ++ API_KEY api)])
    /\ (result c = Pending -> tail = [] /\ n = fuel).
Proof.
  cbn zeta. unfold generateVideoInternal, events.
  destruct (answers api 0%nat) as [op|e].
  - destruct (poll_shape fuel 0 op) as (n & Hn & Hf & Hs).
    destruct (poll api fuel 0 op) as [tr [[fin|e]|]]; cbn [fst snd] in *; subst tr.
    + unfold download.
      destruct (downloadLink fin) as [[|ch link]|]; cbn [issued later result app].
      * exists n, []. split; [exact Hn|]. split; [reflexivity|].
        split; [now left|discriminate].
      * exists n, [EvFetch ((ch :: link) ++ lit "&key=" ++ API_KEY api)].
        split; [exact Hn|]. split; [reflexivity|].
        split; [right; now exists (ch :: link)|].
        match goal with
        | |- context [fetch api ?u] => destruct (fetch api u) as [r|ef]
        end; [destruct (ok r); [destruct (blob r)|]|]; discriminate.
      * exists n, []. split; [exact Hn|]. split; [reflexivity|].
        split; [now left|discriminate].
    + exists n, []. cbn [issued later result app].
      split; [exact Hn|]. split; [now rewrite app_nil_r|].
      split; [now left|discriminate].
    + exists n, []. cbn [issued later result app].
      split; [exact Hn|]. split; [now rewrite app_nil_r|].
      split; [now left|]. intros _. split; [reflexivity|now apply Hs].
  - exists 0%nat, []. cbn [issued later result app].
    split; [lia|]. split; [reflexivity|]. split; [now left|discriminate].
Qed.

End VideoJob.

Section VideoJobWitness.

Lemma generateVideoInternal_failure_witness :
  let api := {| API_KEY := lit "k";
                answers := fun k => match k with
                                    | 2%nat => Throw (ErrorObject (lit "quota"))
                                    | _ => Ok {| done := false; response := None |}
                                    end;
                fetch := fun _ => Throw (ErrorObject (lit "offline"));
                createObjectURL := fun _ => lit "blob:1" |} in
  result (generateVideoInternal api 5 (lit "p") None)
  = Rejected (ErrorObject (lit "quota")).
Proof.
  intros api.
  refine (proj1 (proj2 (generateVideoInternal_failure api 2 (ErrorObject (lit "quota"))
                          (lit "p") None 5 _ _))); [|lia].
  split; [|reflexivity]. intros k Hk.
  destruct k as [|[|k]]; [eexists; split; reflexivity ..|lia].
Defined.

End VideoJobWitness.

(** ** The form under any sequence of its handlers *)

Section FormRuns.

Lemma gated_cases r f u :
  (tierLevels (subscriptionTier (ui_app u)) < tierLevels r
   /\ gated r f u = {| ui_component := ui_component u; imagePreview := imagePreview u;
                       ui_app := promptUpgrade (ui_app u) |})
  \/ (tierLevels r <= tierLevels (subscriptionTier (ui_app u))
      /\ gated r f u = on_component f u).
Proof.
  unfold gated, handlePremiumFeature, premium_branch. cbn [fst snd].
  destruct (tierLevels (subscriptionTier (ui_app u)) <? tierLevels r) eqn:E.
  - left. apply N.ltb_lt in E. now split.
  - right. apply N.ltb_ge in E. now split.
Qed.

Lemma allowed_initial t : allowed t initial_state.
Proof.
  unfold allowed. cbn. repeat split; try discriminate; try congruence; try lia.
  now left.
Qed.

Lemma act_allowed a u :
  allowed (subscriptionTier (ui_app u)) (ui_component u) ->
  allowed (subscriptionTier (ui_app u)) (ui_component (act a u))
  /\ subscriptionTier (ui_app (act a u)) = subscriptionTier (ui_app u).
Proof.
  intros H. set (t := subscriptionTier (ui_app u)) in *.
  destruct a; cbn [act]; try (split; [exact H|reflexivity]).
  - (* persona *)
    destruct (persona_premium p) as [r|] eqn:E; [|now split].
    destruct (gated_cases r (setPersona p) u) as [[_ ->] | [Hle ->]];
      [now split|]. split; [|reflexivity].
    unfold allowed in *. cbn [on_component ui_component setPersona duration aspectRatio
      fps quality audioMood motionIntensity loopVideo persona].
    destruct H as (H1 & H2 & H3 & H4 & H5 & H6 & H7 & H8).
    repeat split; try assumption. right. now exists r.
  - (* aspect ratio *)
    destruct (aspectRatio_premium a) eqn:E.
    + destruct (gated_cases golden (setAspectRatio a) u) as [[_ ->] | [Hle ->]];
        [now split|]. split; [|reflexivity].
      unfold allowed in *. destruct H as (H1 & H2 & H3 & H4 & H5 & H6 & H7 & H8).
      repeat split; try assumption. intros _. exact Hle.
    + split; [|reflexivity].
      unfold allowed in *. destruct H as (H1 & H2 & H3 & H4 & H5 & H6 & H7 & H8).
      repeat split; try assumption.
      cbn [on_component ui_component aspectRatio setAspectRatio]. congruence.
  - (* fps *)
    destruct (videoFPS_premium f) eqn:E.
    + destruct (gated_cases golden (setFps f) u) as [[_ ->] | [Hle ->]];
        [now split|]. split; [|reflexivity].
      unfold allowed in *. destruct H as (H1 & H2 & H3 & H4 & H5 & H6 & H7 & H8).
      repeat split; try assumption. intros _. exact Hle.
    + split; [|reflexivity].
      unfold allowed in *. destruct H as (H1 & H2 & H3 & H4 & H5 & H6 & H7 & H8).
      repeat split; try assumption.
      cbn [on_component ui_component fps setFps]. congruence.
  - (* quality *)
    destruct (videoQuality_premium q) eqn:E.
    + destruct (gated_cases golden (setQuality q) u) as [[_ ->] | [Hle ->]];
        [now split|]. split; [|reflexivity].
      unfold allowed in *. destruct H as (H1 & H2 & H3 & H4 & H5 & H6 & H7 & H8).
      repeat split; try assumption. intros _. exact Hle.
    + split; [|reflexivity].
      unfold allowed in *. destruct H as (H1 & H2 & H3 & H4 & H5 & H6 & H7 & H8).
      repeat split; try assumption.
      cbn [on_component ui_component quality setQuality]. congruence.
  - (* duration *)
    destruct (gated_cases (videoDuration_premium d) (setDuration d) u)
      as [[_ ->] | [Hle ->]]; [now split|]. split; [|reflexivity].
    unfold allowed in *. destruct H as (H1 & H2 & H3 & H4 & H5 & H6 & H7 & H8).
    repeat split; try assumption.
  - (* audio mood *)
    destruct (gated_cases golden (setAudioMood m) u) as [[_ ->] | [Hle ->]];
      [now split|]. split; [|reflexivity].
    unfold allowed in *. destruct H as (H1 & H2 & H3 & H4 & H5 & H6 & H7 & H8).
    repeat split; try assumption. intros _. exact Hle.
  - (* motion intensity *)
    destruct (gated_cases golden (setMotionIntensity i) u) as [[_ ->] | [Hle ->]];
      [now split|]. split; [|reflexivity].
    unfold allowed in *. destruct H as (H1 & H2 & H3 & H4 & H5 & H6 & H7 & H8).
    repeat split; try assumption. intros _. exact Hle.
  - (* loop *)
    destruct (gated_cases diamond (setLoopVideo (negb (loopVideo (ui_component u)))) u)
      as [[_ ->] | [Hle ->]]; [now split|]. split; [|reflexivity].
    unfold allowed in *. destruct H as (H1 & H2 & H3 & H4 & H5 & H6 & H7 & H8).
    repeat split; try assumption. intros _. exact Hle.
  - (* file *)
    unfold handleFileSelect.
    destruct (startsWith (lit "image/") (file_type file)); split; try exact H; reflexivity.
  - (* reset *)
    split; [|reflexivity]. apply allowed_initial.
  - (* copy *)
    unfold handleCopy. destruct clipboard; split; try exact H; reflexivity.
  - (* tick *)
    destruct (isLoading (ui_component u)); split; try exact H; reflexivity.
Qed.

Lemma run_snoc acts a u : run (acts ++ [a]) u = act a (run acts u).
Proof. unfold run. now rewrite fold_left_app. Qed.

Lemma run_allowed st acts :
  subscriptionTier (ui_app (run acts (mount st))) = subscriptionTier st
  /\ allowed (subscriptionTier st) (ui_component (run acts (mount st))).
Proof.
  induction acts as [|a acts IH] using rev_ind.
  - split; [reflexivity|apply allowed_initial].
  - destruct IH as [Ht Ha]. rewrite run_snoc. rewrite <- Ht in Ha.
    destruct (act_allowed a _ Ha) as [Ha' Ht'].
    split; [now rewrite Ht', Ht|]. rewrite <- Ht. exact Ha'.
Qed.

(** X12: the tier bounds what the form can be set to.  From the mounted
    component and under any sequence of the form's handlers, the tier is
    what it was and every setting behind [handlePremiumFeature] has a value
    that the tier allows: the duration, a wide aspect ratio, 30 or 60
    frames per second, high quality, an audio mood, a motion intensity
    other than 'balanced' and the loop.  The persona is one that the tier
    allows or 'cinematographer', the persona that every form starts with
    and that [resetForm] sets, although the table asks the silver tier for
    it. *)
Theorem gated_settings_invariant (st : AppState) (acts : list Action) :
  let u := run acts (mount st) in
  subscriptionTier (ui_app u) = subscriptionTier st
  /\ allowed (subscriptionTier st) (ui_component u)
  /\ persona_premium (persona initial_state) = Some silver.
Proof.
  cbn zeta. destruct (run_allowed st acts) as [Ht Ha].
  split; [exact Ht|]. split; [exact Ha|reflexivity].
Qed.

(** What no handler of the form touches. *)
Lemma act_frame a u :
  let s := ui_component u in
  let s' := ui_component (act a u) in
  isLoading s' = isLoading s /\ lastSettings s' = lastSettings s
  /\ promptHistory s' = promptHistory s
  /\ (generatedVideo s' = generatedVideo s \/ generatedVideo s' = None)
  /\ (generatedAudio s' = generatedAudio s \/ generatedAudio s' = None)
  /\ libraryItems (ui_app (act a u)) = libraryItems (ui_app u)
  /\ (isLoading s = false -> loadingMessage s' = loadingMessage s).
Proof.
  cbn zeta. destruct a; cbn [act];
    repeat match goal with
    | |- context [gated ?r ?f u] =>
        destruct (gated_cases r f u) as [[_ ->] | [_ ->]]
    | |- context [persona_premium ?p] => destruct (persona_premium p)
    | |- context [aspectRatio_premium ?p] => destruct (aspectRatio_premium p)
    | |- context [videoFPS_premium ?p] => destruct (videoFPS_premium p)
    | |- context [videoQuality_premium ?p] => destruct (videoQuality_premium p)
    end;
    try (unfold handleFileSelect; destruct (startsWith (lit "image/") (file_type file)));
    try (unfold handleCopy; destruct clipboard);
    try (destruct (isLoading (ui_component u)) eqn:El);
    cbn; repeat split; auto; discriminate.
Qed.

Lemma run_frame st acts :
  let s := ui_component (run acts (mount st)) in
  isLoading s = false /\ lastSettings s = None /\ promptHistory s = []
  /\ generatedVideo s = None /\ generatedAudio s = None
  /\ libraryItems (ui_app (run acts (mount st))) = libraryItems st
  /\ loadingMessage s = LOADING_MESSAGES_0.
Proof.
  cbn zeta. induction acts as [|a acts IH] using rev_ind; [now repeat split|].
  rewrite run_snoc. destruct IH as (I1 & I2 & I3 & I4 & I5 & I6 & I7).
  destruct (act_frame a (run acts (mount st))) as (F1 & F2 & F3 & F4 & F5 & F6 & F7).
  cbn zeta in *. rewrite F1, F2, F3, F6, (F7 I1).
  repeat split; try assumption.
  - destruct F4 as [-> | ->]; [exact I4|reflexivity].
  - destruct F5 as [-> | ->]; [exact I5|reflexivity].
Qed.

Lemma waits_no_sound m : List.filter is_sound_request (waits m) = [].
Proof. induction m as [|m IH]; [reflexivity|]. rewrite waits_S. exact IH. Qed.

Lemma video_call_no_sound env s image :
  List.filter is_sound_request (issued (video_call env s image)) = []
  /\ List.filter is_sound_request (later (video_call env s image)) = [].
Proof.
  unfold video_call, generateVideo, generateVideoInternal.
  destruct (answers (api env) 0%nat) as [op|e]; [|now split].
  destruct (poll_shape (api env) (fuel env) 0 op) as (n & _ & Hf & _).
  destruct (poll (api env) (fuel env) 0 op) as [tr [[fin|e]|]]; cbn [fst] in Hf; subst tr;
    cbn [issued later]; try (split; [reflexivity|apply waits_no_sound]).
  unfold download. destruct (downloadLink fin) as [[|c l]|]; cbn [issued later];
    (split; [reflexivity|]); rewrite List.filter_app, waits_no_sound; reflexivity.
Qed.

(** The ways in which [handleSubmit] ends. *)
Lemma handleSubmit_cases env w :
  let s := component w in
  let hl := addPromptToHistory HISTORY_KEY (prompt s) (promptHistory s) (storage w) in
  (exists msg, handleSubmit env w
               = Some {| component := setError msg s; app_state := app_state w;
                         storage := storage w; trace := trace w |})
  \/ (exists e, handleSubmit env w
                = Some (on_rejection env e
                          (emit [EvFileToBase64]
                             {| component := begin_submit (currentSettings s) (fst hl) s;
                                app_state := app_state w; storage := snd hl;
                                trace := trace w |})))
  \/ handleSubmit env w = None
  \/ (exists image, ready env s = Some image).
Proof.
  cbn zeta. unfold handleSubmit, ready. cbv zeta.
  destruct (negb (truthy (prompt (component w)))); [left; eauto|].
  destruct (addPromptToHistory HISTORY_KEY (prompt (component w))
              (promptHistory (component w)) (storage w)) as [history ls].
  cbn [fst snd].
  destruct (mode (component w)), (imageFile (component w)) as [f|].
  - right. right. right. eauto.
  - right. right. right. eauto.
  - destruct (fileToBase64 env) as [p|e|].
    + right. right. right. eauto.
    + right. left. eauto.
    + right. right. now left.
  - left. eauto.
Qed.

(** X13: below the golden tier no soundtrack is ever made.  Under any
    sequence of the form's handlers from the mounted component, a
    submission that ends has issued no sound request, the component holds
    no soundtrack and no item of the library has gained one: the library
    grew by at most one item, whose [audioSrc] is [undefined]. *)
Theorem no_soundtrack_below_golden (st : AppState) (acts : list Action)
    (env : SubmitEnv) (ls : Storage) (w' : World) :
  tierLevels (subscriptionTier st) < tierLevels golden ->
  let u := run acts (mount st) in
  handleSubmit env {| component := ui_component u; app_state := ui_app u;
                      storage := ls; trace := [] |} = Some w' ->
  List.filter is_sound_request (trace w') = []
  /\ generatedAudio (component w') = None
  /\ (libraryItems (app_state w') = libraryItems st
      \/ exists item, libraryItems (app_state w') = item :: libraryItems st
                      /\ obj_get (lit "audioSrc") item = VUndefined).
Proof.
  intros Hlow u Hw'.
  destruct (run_allowed st acts) as [Ht (_ & _ & _ & _ & Hmood & _)].
  destruct (run_frame st acts) as (_ & _ & _ & _ & Haudio & Hlib & _).
  fold u in Ht, Hmood, Haudio, Hlib. cbn zeta in Haudio.
  assert (Hnone : audioMood (ui_component u) = am_none).
  { destruct (audioMood (ui_component u)); [reflexivity|..];
      (assert (Hg : tierLevels golden <= tierLevels (subscriptionTier st))
         by (apply Hmood; discriminate)); lia. }
  set (w := {| component := ui_component u; app_state := ui_app u;
               storage := ls; trace := [] |}) in *.
  destruct (handleSubmit_cases env w) as [[msg H] | [[e H] | [H | [image H]]]];
    cbn zeta in H.
  - rewrite H in Hw'. injection Hw' as <-. cbn. auto.
  - rewrite H in Hw'. injection Hw' as <-. cbn. auto.
  - rewrite H in Hw'. discriminate.
  - rewrite (handleSubmit_ready env w image H) in Hw'. cbv zeta in Hw'.
    destruct (video_call_no_sound env (ui_component u) image) as [Hi Hl].
    change (component w) with (ui_component u) in Hw'.
    rewrite Hnone in Hw'. cbn [soundtrack issued later result app] in Hw'.
    destruct (result (video_call env (ui_component u) image)) as [url|e|];
      cbn [Promise_all2] in Hw'; [| |discriminate Hw']; injection Hw' as <-.
    + cbn [on_results trace emit component setIsLoading setGenerated generatedAudio
             begin_submit app_state w file_events app].
      rewrite handleSaveToLibrary_library.
      split; [|split; [reflexivity|]].
      * rewrite app_nil_r, !List.filter_app, Hi.
        cbn [List.filter is_sound_request app]. rewrite Hl.
        unfold file_events.
        now destruct (mode (ui_component u)), (imageFile (ui_component u)).
      * right. eexists. split; [now rewrite Hlib|].
        rewrite newItem_saved_item. reflexivity.
    + cbn [on_rejection trace emit component setIsLoading setError generatedAudio
             begin_submit app_state addToast libraryItems w app].
      split; [|split; [reflexivity|now left]].
      rewrite app_nil_r, !List.filter_app, Hi.
      cbn [List.filter is_sound_request app]. rewrite Hl.
      unfold file_events.
      now destruct (mode (ui_component u)), (imageFile (ui_component u)).
Qed.

Lemma no_soundtrack_below_golden_witness :
  let op := {| done := true;
               response := Some {| generatedVideos :=
                 Some [{| video := Some {| uri := Some (lit "https://v") |} |}] |} |} in
  let env := {| api := {| API_KEY := lit "k";
                          answers := fun _ => Ok op;
                          fetch := fun _ => Ok {| ok := true;
                                                  blob := Ok {| blob_data := lit "b" |} |};
                          createObjectURL := fun _ => lit "blob:1" |};
                fuel := 0; fileToBase64 := Pending; race := LeftFirst;
                save_env := {| now_id := 5; now_created := 6; save_toast_id := lit "t"; notify_saved := true |};
                error_toast_id := [] |} in
  let fresh := {| entries := ∅; refuses := fun _ _ => false |} in
  let acts := [SetPrompt (lit "a fox"); SelectAudioMood am_epic] in
  exists w',
    handleSubmit env {| component := ui_component (run acts (mount App.initial));
                        app_state := ui_app (run acts (mount App.initial));
                        storage := fresh; trace := [] |} = Some w'
    /\ List.filter is_sound_request (trace w') = []
    /\ showUpgradeModal (app_state w') = true.
Proof.
  intros op env fresh acts. eexists. split; [vm_compute; reflexivity|].
  split; [|reflexivity].
  refine (proj1 (no_soundtrack_below_golden App.initial acts env fresh _ _ _));
    [reflexivity|vm_compute; reflexivity].
Defined.

(** X14: the file of the form is an image whenever there is one.  Under
    any sequence of the form's handlers from the mounted component, the
    form holds a file exactly when it shows a preview, and the type of the
    file starts with [image/]: a file of another type is never kept, it
    sets the error and leaves file and preview as they were. *)
Theorem image_file_invariant (st : AppState) (acts : list Action) :
  let u := run acts (mount st) in
  match imageFile (ui_component u), imagePreview u with
  | Some f, Some _ => startsWith (lit "image/") (file_type f) = true
  | None, None => True
  | _, _ => False
  end.
Proof.
  cbn zeta. induction acts as [|a acts IH] using rev_ind; [exact I|].
  rewrite run_snoc. set (u := run acts (mount st)) in *.
  destruct a; cbn [act];
    repeat match goal with
    | |- context [gated ?r ?f u] =>
        destruct (gated_cases r f u) as [[_ ->] | [_ ->]]
    | |- context [persona_premium ?p] => destruct (persona_premium p)
    | |- context [aspectRatio_premium ?p] => destruct (aspectRatio_premium p)
    | |- context [videoFPS_premium ?p] => destruct (videoFPS_premium p)
    | |- context [videoQuality_premium ?p] => destruct (videoQuality_premium p)
    end; try exact IH; try exact I.
  - unfold handleFileSelect.
    destruct (startsWith (lit "image/") (file_type file)) eqn:E; [exact E|exact IH].
  - unfold handleCopy. destruct clipboard; exact IH.
  - destruct (isLoading (ui_component u)); exact IH.
Qed.

(** X15: what [resetForm] sets and what it leaves, in any state of the
    form.  Every field it sets gets the initial value of its [useState]
    call; the mode, the loading flag, the loading message, the settings of
    the last submission and the prompt history stay as they are; the
    preview is gone, the [App] state is untouched and the submit button is
    disabled.  The reset component is the initial one (with the mode kept)
    exactly when it is not loading, shows the first loading message, has no
    last settings and no history.  After a submission that passed its two
    checks and ended, it never is: the reset removes the video, the
    soundtrack and the error, and keeps the settings and the history of
    that submission. *)
Theorem resetForm_fields (u : UI) :
  let s := ui_component u in
  let s' := ui_component (resetForm u) in
  s' = {| mode := mode s;
          prompt := prompt initial_state;
          negativePrompt := negativePrompt initial_state;
          style := style initial_state;
          duration := duration initial_state;
          cameraMovement := cameraMovement initial_state;
          quality := quality initial_state;
          language := language initial_state;
          framing := framing initial_state;
          persona := persona initial_state;
          loopVideo := loopVideo initial_state;
          aspectRatio := aspectRatio initial_state;
          fps := fps initial_state;
          motionIntensity := motionIntensity initial_state;
          audioMood := audioMood initial_state;
          imageFile := imageFile initial_state;
          generatedVideo := generatedVideo initial_state;
          generatedAudio := generatedAudio initial_state;
          isLoading := isLoading s;
          error_state := error_state initial_state;
          loadingMessage := loadingMessage s;
          lastSettings := lastSettings s;
          promptHistory := promptHistory s |}
  /\ imagePreview (resetForm u) = None
  /\ ui_app (resetForm u) = ui_app u
  /\ isSubmitDisabled s' = true
  /\ resetForm (resetForm u) = resetForm u
  /\ (s' = setMode (mode s) initial_state
      <-> isLoading s = false /\ loadingMessage s = LOADING_MESSAGES_0
          /\ lastSettings s = None /\ promptHistory s = [])
  /\ (forall env w w' image,
        ready env (component w) = Some image ->
        handleSubmit env w = Some w' ->
        component w' = s ->
        let hl := addPromptToHistory HISTORY_KEY (prompt (component w))
                    (promptHistory (component w)) (storage w) in
        lastSettings s' = Some (currentSettings (component w))
        /\ promptHistory s' = fst hl
        /\ generatedVideo s' = None /\ generatedAudio s' = None
        /\ error_state s' = None
        /\ s' <> setMode (mode s) initial_state).
Proof.
  cbn zeta. split; [reflexivity|]. split; [reflexivity|].
  split; [reflexivity|].
  split.
  { unfold isSubmitDisabled, resetForm, reset_state.
    cbn [ui_component isLoading prompt truthy negb]. apply orb_true_iff. left.
    apply orb_true_r. }
  split; [reflexivity|].
  assert (Hiff : ui_component (resetForm u)
                 = setMode (mode (ui_component u)) initial_state
                 <-> isLoading (ui_component u) = false
                     /\ loadingMessage (ui_component u) = LOADING_MESSAGES_0
                     /\ lastSettings (ui_component u) = None
                     /\ promptHistory (ui_component u) = []).
  { split.
    - intros H. repeat split.
      + exact (f_equal isLoading H).
      + exact (f_equal loadingMessage H).
      + exact (f_equal lastSettings H).
      + exact (f_equal promptHistory H).
    - intros (H1 & H2 & H3 & H4).
      unfold resetForm, reset_state, setMode, initial_state.
      cbn [ui_component]. now rewrite H1, H2, H3, H4. }
  split; [exact Hiff|].
  intros env w w' image Hready Hw' Hs.
  assert (Hlast : lastSettings (component w')
                  = Some (currentSettings (component w))
                  /\ promptHistory (component w')
                     = fst (addPromptToHistory HISTORY_KEY (prompt (component w))
                              (promptHistory (component w)) (storage w))).
  { rewrite (handleSubmit_ready env w image Hready) in Hw'. cbv zeta in Hw'.
    destruct (Promise_all2 (race env) (result (video_call env (component w) image))
                (result (soundtrack (audioMood (component w)))))
      as [[v a]|e|]; [| |discriminate Hw']; injection Hw' as <-; now split. }
  destruct Hlast as [Hl Hh]. rewrite Hs in Hl, Hh.
  split; [exact Hl|]. split; [exact Hh|].
  split; [reflexivity|]. split; [reflexivity|]. split; [reflexivity|].
  intros H. apply Hiff in H. destruct H as (_ & _ & H & _).
  rewrite H in Hl. discriminate Hl.
Qed.

(** A reset after a submission that generated a video. *)
Lemma resetForm_fields_witness :
  let op := {| done := true;
               response := Some {| generatedVideos :=
                 Some [{| video := Some {| uri := Some (lit "https://v") |} |}] |} |} in
  let env := {| api := {| API_KEY := lit "k";
                          answers := fun _ => Ok op;
                          fetch := fun _ => Ok {| ok := true;
                                                  blob := Ok {| blob_data := lit "b" |} |};
                          createObjectURL := fun _ => lit "blob:1" |};
                fuel := 0; fileToBase64 := Pending; race := LeftFirst;
                save_env := {| now_id := 5; now_created := 6;
                               save_toast_id := lit "t"; notify_saved := false |};
                error_toast_id := [] |} in
  let w := {| component := setPrompt (lit "a fox") initial_state;
              app_state := App.initial;
              storage := {| entries := ∅; refuses := fun _ _ => false |};
              trace := [] |} in
  exists w',
    handleSubmit env w = Some w'
    /\ generatedVideo (component w') = Some (lit "blob:1")
    /\ let u := {| ui_component := component w'; imagePreview := None;
                   ui_app := app_state w' |} in
       generatedVideo (ui_component (resetForm u)) = None
       /\ lastSettings (ui_component (resetForm u))
          = Some (currentSettings (component w))
       /\ promptHistory (ui_component (resetForm u)) = [lit "a fox"]
       /\ ui_component (resetForm u) <> initial_state.
Proof.
  intros op env w.
  destruct (handleSubmit env w) as [w'|] eqn:Hw;
    [|vm_compute in Hw; discriminate Hw].
  exists w'. split; [reflexivity|].
  split; [vm_compute in Hw; injection Hw as <-; reflexivity|].
  intros u.
  destruct (resetForm_fields u) as (_ & _ & _ & _ & _ & _ & H).
  destruct (H env w w' None eq_refl Hw eq_refl) as (Hl & Hh & Hv & _ & _ & Hne).
  split; [exact Hv|]. split; [exact Hl|]. split; [exact Hh|].
  intros E. apply Hne. rewrite E.
  vm_compute in Hw. injection Hw as <-. reflexivity.
Defined.

End FormRuns.

(** ** Identifiers of library items *)

Section ItemIds.

Lemma lit_inj a b : lit a = lit b -> a = b.
Proof.
  unfold lit. intros H.
  rewrite <- (string_of_list_ascii_of_string a), <- (string_of_list_ascii_of_string b).
  f_equal. revert H. generalize (list_ascii_of_string a) (list_ascii_of_string b).
  induction l as [|x l IH]; intros [|y l']; cbn [List.map]; try discriminate;
    [reflexivity|].
  intros [= Hxy Hl]. f_equal; [|now apply IH].
  rewrite <- (ascii_N_embedding x), <- (ascii_N_embedding y). now rewrite Hxy.
Qed.

(** Different numbers have different decimal renderings. *)
Lemma dec_inj a b : Clock.dec a = Clock.dec b -> a = b.
Proof.
  unfold Clock.dec. intros H. apply lit_inj in H.
  assert (Hn : forall z, Z.to_int z <> Decimal.Pos Decimal.Nil
                         /\ Z.to_int z <> Decimal.Neg Decimal.Nil).
  { intros [|p|p]; cbn [Z.to_int]; split; try discriminate;
      intros [= E]; now apply DecimalPos.Unsigned.to_uint_nonnil in E. }
  apply DecimalZ.to_int_inj.
  pose proof (NilZero.isi (Z.to_int a) (proj1 (Hn a)) (proj2 (Hn a))) as Ha.
  pose proof (NilZero.isi (Z.to_int b) (proj1 (Hn b)) (proj2 (Hn b))) as Hb.
  rewrite H in Ha. rewrite Ha in Hb. now injection Hb.
Qed.

Lemma newItem_id env item :
  obj_get (lit "id") (newItem env item) = VStr (lit "item-" ++ Clock.dec (now_id env)).
Proof.
  unfold newItem. rewrite obj_get_set_ne by discriminate. apply obj_get_set_eq.
Qed.

Lemma item_id_inj a b : lit "item-" ++ Clock.dec a = lit "item-" ++ Clock.dec b -> a = b.
Proof. intros H. apply app_inv_head in H. now apply dec_inj. Qed.

(** X16: items saved in the same millisecond share their identifier and
    are deleted together.  After two saves, deleting by the identifier of
    the second item removes the first item too exactly when both saves read
    the same time; the rest of the library loses the items of that
    identifier and nothing else, so a save that is followed by the deletion
    of its item gives back a library that held no item of that
    identifier. *)
Theorem items_of_one_instant (env1 env2 : SaveEnv) (item1 item2 : JsObj)
    (toastId : str) (l : Library.State) (st : AppState) :
  let saved := handleSaveToLibrary env2 item2 (handleSaveToLibrary env1 item1 st) in
  let id2 := lit "item-" ++ Clock.dec (now_id env2) in
  let keep := fun item => negb (strict_eq_str (obj_get (lit "id") item) id2) in
  libraryItems saved = newItem env2 item2 :: newItem env1 item1 :: libraryItems st
  /\ (obj_get (lit "id") (newItem env1 item1) = obj_get (lit "id") (newItem env2 item2)
      <-> now_id env1 = now_id env2)
  /\ libraryItems (snd (Library.handleDelete toastId id2 (l, saved)))
     = (if Z.eq_dec (now_id env1) (now_id env2) then [] else [newItem env1 item1])
       ++ List.filter keep (libraryItems st)
  /\ ((forall item, In item (libraryItems st) -> obj_get (lit "id") item <> VStr id2) ->
      libraryItems
        (snd (Library.handleDelete toastId id2
                (l, handleSaveToLibrary env2 item2 st)))
      = libraryItems st).
Proof.
  cbn zeta. split; [now rewrite !handleSaveToLibrary_library|].
  split; [|split].
  - rewrite !newItem_id. split.
    + intros [= H]. now apply dec_inj.
    + now intros ->.
  - unfold Library.handleDelete. cbn [snd libraryItems addToast setLibraryItems].
    rewrite !handleSaveToLibrary_library. cbn [List.filter].
    rewrite !newItem_id. cbn [strict_eq_str]. rewrite str_eqb_refl. cbn [negb].
    destruct (Z.eq_dec (now_id env1) (now_id env2)) as [E | E].
    + rewrite E, str_eqb_refl. reflexivity.
    + rewrite str_eqb_neq; [reflexivity|]. intros H. apply E. now apply item_id_inj.
  - intros Hfresh. unfold Library.handleDelete.
    cbn [snd libraryItems addToast setLibraryItems].
    rewrite handleSaveToLibrary_library. cbn [List.filter].
    rewrite newItem_id. cbn [strict_eq_str]. rewrite str_eqb_refl. cbn [negb].
    apply filter_all. intros item Hin. apply negb_true_iff.
    destruct (strict_eq_str (obj_get (lit "id") item)
                (lit "item-" ++ Clock.dec (now_id env2))) eqn:E; [|reflexivity].
    apply strict_eq_str_spec in E. now apply Hfresh in E.
Qed.

End ItemIds.

(** ** Toasts *)

Section Toasts.

(** X17: dismissing a toast removes the toasts of its identifier and keeps
    the others in their order; nothing else of the state changes.  A toast
    that is added and then dismissed leaves the toasts that it found, when
    none of them has its identifier; toasts that share an identifier are
    dismissed together. *)
Theorem removeToast_spec (id msg : str) (type : ToastType) (st : AppState) :
  let st' := removeToast id st in
  (forall t, In t (toasts st') <-> In t (toasts st) /\ toast_id t <> id)
  /\ sublist (toasts st') (toasts st)
  /\ libraryItems st' = libraryItems st
  /\ subscriptionTier st' = subscriptionTier st
  /\ activeMode st' = activeMode st
  /\ showUpgradeModal st' = showUpgradeModal st
  /\ toasts (removeToast id (addToast id msg type st)) = toasts st'
  /\ ((forall t, In t (toasts st) -> toast_id t <> id) ->
      toasts (removeToast id (addToast id msg type st)) = toasts st).
Proof.
  cbn zeta. unfold removeToast, addToast. cbn [toasts libraryItems subscriptionTier
    activeMode showUpgradeModal].
  assert (Hlast : List.filter (fun t => negb (str_eqb (toast_id t) id))
                    (toasts st ++ [{| toast_id := id; message := msg; toast_type := type |}])
                  = List.filter (fun t => negb (str_eqb (toast_id t) id)) (toasts st)).
  { rewrite List.filter_app. cbn [List.filter toast_id].
    rewrite str_eqb_refl. cbn [negb]. apply app_nil_r. }
  split; [|split; [apply filter_sublist|]].
  - intros t. rewrite List.filter_In, negb_true_iff. split.
    + intros [Hin E]. split; [exact Hin|]. intros <-. now rewrite str_eqb_refl in E.
    + intros [Hin Hne]. split; [exact Hin|]. now apply str_eqb_neq.
  - repeat split; try exact Hlast.
    intros Hfresh. rewrite Hlast. apply filter_all. intros t Hin.
    apply negb_true_iff, str_eqb_neq. now apply Hfresh.
Qed.

End Toasts.

(** ** The counts of the profile *)

Section ProfileCounts.

Import Profile.

Lemma type_split items :
  forallb fields_present items = true ->
  (imageCount items + videoCount items)%nat = List.length items.
Proof.
  unfold imageCount, videoCount.
  induction items as [|item items IH]; [reflexivity|].
  cbn [forallb List.filter]. intros H. apply andb_true_iff in H as [Hf H].
  specialize (IH H).
  assert (Ht : is_media_type (obj_get (lit "type") item) = true).
  { unfold fields_present in Hf. repeat (apply andb_true_iff in Hf as [Hf ?]).
    assumption. }
  unfold is_media_type in Ht.
  destruct (strict_eq_str (obj_get (lit "type") item) (lit "IMAGE")) eqn:Ei.
  - apply strict_eq_str_spec in Ei. rewrite Ei. cbn [strict_eq_str].
    rewrite str_eqb_neq by discriminate. cbn [List.length]. lia.
  - cbn [orb] in Ht. rewrite Ht. cbn [List.length]. lia.
Qed.

(** X18: the profile counts every item once.  In a library whose items
    have the fields of a library item, images and videos together are all
    the items, so the achievements hang together: the power user, with 50
    items, has made a first creation and has 10 videos or 25 images. *)
Theorem profile_counts (tier : SubscriptionTier) (items : list JsObj) :
  forallb fields_present items = true ->
  (imageCount items + videoCount items)%nat = List.length items
  /\ (power_user (achievements tier items) = true ->
      first_creation (achievements tier items) = true
      /\ (video_virtuoso (achievements tier items) = true
          \/ image_imitator (achievements tier items) = true))
  /\ (video_virtuoso (achievements tier items) = true
      \/ image_imitator (achievements tier items) = true ->
      first_creation (achievements tier items) = true).
Proof.
  intros H. pose proof (type_split items H) as Hs. split; [exact Hs|].
  unfold achievements. cbn [power_user first_creation video_virtuoso image_imitator].
  split.
  - intros Hp. apply Nat.leb_le in Hp. split; [apply Nat.ltb_lt; lia|].
    destruct (Nat.leb_spec 10 (videoCount items)) as [Hv | Hv]; [now left|].
    right. apply Nat.leb_le. lia.
  - intros [Hv | Hi]; apply Nat.leb_le in Hv || apply Nat.leb_le in Hi;
      apply Nat.ltb_lt; lia.
Qed.

Lemma profile_counts_witness :
  let env := {| now_id := 5; now_created := 6; save_toast_id := lit "t"; notify_saved := true |} in
  let item := newItem env (saved_item (currentSettings initial_state) (lit "blob:v") None) in
  (imageCount [item; item] + videoCount [item; item])%nat = 2%nat.
Proof.
  intros env item.
  exact (proj1 (profile_counts free [item; item] eq_refl)).
Defined.

End ProfileCounts.

(** ** The start-up effect on entries that are missing or broken *)

Section StartupEdges.


End StartupEdges.

(** ** The request of a submission *)

Section SubmitRequest.

(** X20: what a submission asks the video service for.  A submission that
    passed its checks sends one generation request: the prompt that
    [constructVideoPrompt] builds from the settings of the form, with the
    image payload in image-to-video mode and without an image in
    text-to-video mode, where a file that the form still holds is neither
    read nor sent. *)
Theorem handleSubmit_request (env : SubmitEnv) (w w' : World)
    (image : option ImagePayload) :
  ready env (component w) = Some image ->
  handleSubmit env w = Some w' ->
  let s := component w in
  let finalPrompt :=
    constructVideoPrompt (prompt s) (style s) (negativePrompt s) (duration s)
      (cameraMovement s) (quality s) (language s) (framing s) (persona s)
      (loopVideo s) (aspectRatio s) (fps s) (motionIntensity s) (audioMood s) in
  exists rest,
    trace w' = trace w ++ file_events s ++ EvGenerateVideos finalPrompt image :: rest
    /\ List.filter is_video_request rest = []
    /\ (mode s = text_to_video -> image = None /\ file_events s = [])
    /\ (mode s = image_to_video ->
        exists f p, imageFile s = Some f /\ fileToBase64 env = Fulfilled p
                    /\ image = Some p /\ file_events s = [EvFileToBase64]).
Proof.
  intros Hready Hw' s finalPrompt.
  rewrite (handleSubmit_ready env w image Hready) in Hw'. cbv zeta in Hw'. fold s in Hw'.
  destruct (generateVideoInternal_one_request (api env) (fuel env) finalPrompt image)
    as [Hi Hl].
  change (generateVideoInternal (api env) (fuel env) finalPrompt image)
    with (video_call env s image) in Hi, Hl.
  exists (issued (soundtrack (audioMood s)) ++ [EvPromiseAll]
          ++ later (video_call env s image) ++ later (soundtrack (audioMood s))).
  split; [|split; [|split]].
  - destruct (Promise_all2 (race env) (result (video_call env s image))
                (result (soundtrack (audioMood s)))) as [[v a]|e|];
      [| |discriminate Hw']; injection Hw' as <-;
      cbn [on_results on_rejection trace emit]; rewrite Hi;
      now rewrite <- !app_assoc.
  - rewrite !List.filter_app, Hl. now destruct (audioMood s).
  - intros Hm. unfold ready, file_events in *. fold s in Hready. rewrite Hm in *.
    destruct (negb (truthy (prompt s))); [discriminate|].
    split; [now injection Hready|reflexivity].
  - intros Hm. unfold ready, file_events in *. fold s in Hready. rewrite Hm in *.
    destruct (negb (truthy (prompt s))); [discriminate|].
    destruct (imageFile s) as [f|]; [|discriminate].
    destruct (fileToBase64 env) as [p| |]; try discriminate.
    injection Hready as <-. now exists f, p.
Qed.

Lemma handleSubmit_request_witness :
  let op := {| done := true;
               response := Some {| generatedVideos :=
                 Some [{| video := Some {| uri := Some (lit "https://v") |} |}] |} |} in
  let env := {| api := {| API_KEY := lit "k";
                          answers := fun _ => Ok op;
                          fetch := fun _ => Ok {| ok := true;
                                                  blob := Ok {| blob_data := lit "b" |} |};
                          createObjectURL := fun _ => lit "blob:1" |};
                fuel := 0; fileToBase64 := Pending; race := LeftFirst;
                save_env := {| now_id := 5; now_created := 6; save_toast_id := lit "t"; notify_saved := true |};
                error_toast_id := [] |} in
  let file := {| file_type := lit "image/png"; file_name := lit "a.png" |} in
  let w := {| component := setImageFile (Some file) (setPrompt (lit "a fox") initial_state);
              app_state := App.initial;
              storage := {| entries := ∅; refuses := fun _ _ => false |};
              trace := [] |} in
  exists w' rest,
    handleSubmit env w = Some w'
    /\ trace w'
       = EvGenerateVideos
           (constructVideoPrompt (lit "a fox") vs_none [] d_short cm_none q_standard
              english fr_none p_cinematographer false ar_1_1 fps24 balanced am_none)
           None :: rest.
Proof.
  intros op env file w.
  assert (Hw : exists w', handleSubmit env w = Some w')
    by (eexists; vm_compute; reflexivity).
  destruct Hw as [w' Hw]. exists w'.
  destruct (handleSubmit_request env w w' None eq_refl Hw) as (rest & Ht & _).
  exists rest. split; [exact Hw|exact Ht].
Defined.

End SubmitRequest.

(** ** The prompt fields of the image form *)

Section ImagePromptFields.

Import ImageTools.

Ltac fields_done :=
  repeat split; auto; intros; try lia; try congruence; try discriminate.

Lemma on_event_fields e w :
  let n := List.length (prompts (fst w)) in
  let n' := List.length (prompts (fst (on_event e w))) in
  (1 <= n <= 3)%nat ->
  (mode (fst w) = image_transform -> n = 1%nat) ->
  ((1 <= n' <= 3)%nat
   /\ (mode (fst (on_event e w)) = image_transform -> n' = 1%nat)
   /\ (tierLevels (subscriptionTier (snd w)) < tierLevels diamond ->
       n = 1%nat -> n' = 1%nat))
  /\ subscriptionTier (snd (on_event e w)) = subscriptionTier (snd w).
Proof.
  cbn zeta. destruct w as [f st]. cbn [fst snd].
  intros Hn Hm. destruct e; cbn [on_event fst snd].
  - cbn. fields_done.
  - cbn. fields_done.
  - destruct (index <? List.length (prompts f))%nat; cbn [fst snd]; [|fields_done].
    unfold handlePromptChange. cbn [setPrompts prompts mode].
    rewrite length_insert. fields_done.
  - destruct (mode f) eqn:Em; [|cbn [fst snd]; fields_done].
    destruct (List.length (prompts f) <? 3)%nat eqn:E3; [|cbn [fst snd]; fields_done].
    apply Nat.ltb_lt in E3. unfold addPromptField, premium_branch. cbn [fst snd].
    destruct (tierLevels (subscriptionTier st) <? tierLevels diamond) eqn:Et;
      cbn [fst snd setPrompts prompts mode promptUpgrade subscriptionTier].
    + fields_done.
    + apply N.ltb_ge in Et. rewrite length_app. cbn [List.length]. fields_done.
  - destruct ((1 <? List.length (prompts f)) && (index <? List.length (prompts f)))%nat
      eqn:E; cbn [fst snd]; [|fields_done].
    apply andb_true_iff in E as [E1 E2]. apply Nat.ltb_lt in E1, E2.
    unfold removePromptField. cbn [setPrompts prompts mode].
    rewrite length_delete by (now apply lookup_lt_is_Some_2).
    repeat split; auto; try lia. intros Hm'. specialize (Hm Hm'). lia.
  - cbn. fields_done.
  - destruct (startsWith (lit "image/") (file_type file)); cbn; fields_done.
  - cbn. fields_done.
  - cbn. fields_done.
Qed.

(** X21: the prompt fields of the image form.  From the mounted form and
    under any sequence of its events, there are between one and three
    prompt fields; in image-transform mode there is exactly one, and below
    the diamond tier there is never more than the one the form starts
    with: blending several prompts is out of reach. *)
Theorem prompt_fields_invariant (st : AppState) (es : list Event) :
  let w := run_events es (initial_form, st) in
  let n := List.length (prompts (fst w)) in
  (1 <= n <= 3)%nat
  /\ (mode (fst w) = image_transform -> n = 1%nat)
  /\ (tierLevels (subscriptionTier st) < tierLevels diamond -> n = 1%nat)
  /\ subscriptionTier (snd w) = subscriptionTier st.
Proof.
  cbn zeta. induction es as [|e es IH] using rev_ind.
  - cbn. fields_done.
  - unfold run_events in *. rewrite fold_left_app. cbn [fold_left].
    set (w := fold_left (fun w e => on_event e w) es (initial_form, st)) in *.
    destruct IH as (Hn & Hm & Ht & Hs).
    destruct (on_event_fields e w Hn Hm) as ((Hn' & Hm' & Ht') & Hs').
    split; [exact Hn'|]. split; [exact Hm'|]. split; [|now rewrite Hs', Hs].
    intros Hlow. apply Ht'; [now rewrite Hs|now apply Ht].
Qed.

Lemma filter_nil_forallb {A} (p : A -> bool) l :
  (List.length (List.filter (fun x => negb (p x)) l) =? 0)%nat = forallb p l.
Proof.
  induction l as [|a l IH]; [reflexivity|]. cbn [List.filter forallb].
  destruct (p a); cbn [negb andb]; [exact IH|reflexivity].
Qed.

(** X22: the flag that disables the submit button of the image form and
    the check of its [handleSubmit] agree: the button is disabled exactly
    when the form is loading or the check would fail.  A form whose button
    is enabled has a valid prompt, every valid prompt is a field that is
    not blank, in their order, and in image-transform mode it holds a
    file. *)
Theorem image_submit_checks (f : Form) :
  isSubmitDisabled f = isLoading f || submit_rejected f
  /\ (isSubmitDisabled f = false ->
      validPrompts f <> []
      /\ sublist (validPrompts f) (prompts f)
      /\ (forall p, In p (validPrompts f) <-> In p (prompts f) /\ trim p <> [])
      /\ (mode f = image_transform -> imageFile f <> None)).
Proof.
  assert (Heq : isSubmitDisabled f = isLoading f || submit_rejected f).
  { unfold isSubmitDisabled, submit_rejected, validPrompts.
    rewrite filter_nil_forallb. now rewrite orb_assoc. }
  split; [exact Heq|]. rewrite Heq. intros H.
  apply orb_false_iff in H as [_ H]. unfold submit_rejected in H.
  apply orb_false_iff in H as [Hv Hm]. split; [|split; [|split]].
  - intros E. now rewrite E in Hv.
  - apply filter_sublist.
  - intros p. unfold validPrompts, blank. rewrite List.filter_In, negb_true_iff.
    split; intros [Hin Hp]; (split; [exact Hin|]).
    + intros E. rewrite E in Hp. now rewrite str_eqb_refl in Hp.
    + now apply str_eqb_neq.
  - intros Em. rewrite Em in Hm. now destruct (imageFile f).
Qed.

End ImagePromptFields.

(** ** The settings *)

Section SettingsProperties.

Import AppSettings.

Lemma settings_value_safe t a b :
  json_safe (settings_value t a b) = true
  /\ json_normal (settings_value t a b) = settings_value t a b.
Proof. destruct t, a, b; split; reflexivity. Qed.

Lemma apply_change_typed c t a b :
  exists t' a' b', apply_change (settings_value t a b) c = settings_value t' a' b'.
Proof.
  destruct c as [t'|[|] v].
  - now exists t', a, b.
  - now exists t, v, b.
  - now exists t, a, v.
Qed.

(** X23: the controls of the settings page change what they name and
    nothing else.  A theme change keeps the notifications, a notification
    switch keeps the theme and the other switch, none of them throws, and
    every sequence of such changes from the default settings ends in
    settings of the declared shape: a theme of the three and two
    booleans. *)
Theorem settings_changes (t t' : Theme) (a b v : bool) (cs : list Change) :
  handleThemeChange t' (settings_value t a b) = settings_value t' a b
  /\ handleNotificationChange generationComplete v (settings_value t a b)
     = Some (settings_value t v b)
  /\ handleNotificationChange promotions v (settings_value t a b)
     = Some (settings_value t a v)
  /\ exists t1 a1 b1, apply_changes cs defaultSettings = settings_value t1 a1 b1.
Proof.
  split; [reflexivity|]. split; [reflexivity|]. split; [reflexivity|].
  unfold apply_changes, defaultSettings.
  induction cs as [|c cs IH] using rev_ind.
  - now exists studio_dark, true, true.
  - rewrite fold_left_app. cbn [fold_left].
    destruct IH as (t1 & a1 & b1 & ->). apply apply_change_typed.
Qed.

Lemma load_effect_settings ls st c text v :
  match getItem LIBRARY_KEY ls with
  | Some (d :: lib) => parse (d :: lib) <> None
  | _ => True
  end ->
  match getItem TIER_KEY ls with
  | Some (d :: tier) => parse (d :: tier) <> None
  | _ => True
  end ->
  getItem SETTINGS_KEY ls = Some (c :: text) -> parse (c :: text) = Some v ->
  p_settings (load_effect ls st) = v.
Proof.
  intros Hl Ht Hg Hp. unfold load_effect.
  destruct (getItem LIBRARY_KEY ls) as [[|d lib]|];
    [ | destruct (parse (d :: lib)); [|contradiction] | ];
    (destruct (getItem TIER_KEY ls) as [[|e tier]|];
     [ | destruct (parse (e :: tier)) as [x|]; [destruct (whitelisted x)|contradiction] | ]);
    now rewrite Hg, Hp.
Qed.

Lemma settings_keys_differ :
  SETTINGS_KEY <> LIBRARY_KEY /\ SETTINGS_KEY <> TIER_KEY.
Proof.
  split; intros H; apply (f_equal (@List.length N)) in H; discriminate H.
Qed.

(** X24: settings of the declared shape survive a reload, and the theme is
    applied only when they could be stored.  When the store accepts the
    write, the settings effect stores them and sets the class of the body
    to the class of their theme, and the start-up effect of the next
    session restores exactly them, provided the library and tier entries,
    which are read first, do not stop it.  When the store refuses the
    write, store and class stay as they were: the theme is not applied. *)
Theorem settings_reload (t : Theme) (a b : bool) (ls : Storage) (className : str)
    (st0 : Persisted) :
  let s := settings_value t a b in
  ((forall text, refuses ls SETTINGS_KEY text = false) ->
   match getItem LIBRARY_KEY ls with
   | Some (d :: lib) => parse (d :: lib) <> None
   | _ => True
   end ->
   match getItem TIER_KEY ls with
   | Some (d :: tier) => parse (d :: tier) <> None
   | _ => True
   end ->
   exists ls',
     save_settings_effect s ls className
     = Some (ls', lit "bg-black text-gray-300 theme-" ++ Theme_str t)
     /\ getItem SETTINGS_KEY ls' = stringify s
     /\ p_settings (load_effect ls' st0) = s)
  /\ ((forall text, refuses ls SETTINGS_KEY text = true) ->
      save_settings_effect s ls className = Some (ls, className)).
Proof.
  intros s. destruct (settings_value_safe t a b) as [Hs Hn]. fold s in Hs, Hn.
  destruct (stringify s) as [text|] eqn:Ht; [|discriminate Ht].
  split.
  - intros Hacc Hl Htier.
    exists {| entries := <[SETTINGS_KEY := text]> (entries ls); refuses := refuses ls |}.
    set (ls' := {| entries := <[SETTINGS_KEY := text]> (entries ls);
                   refuses := refuses ls |}).
    assert (Hg : getItem SETTINGS_KEY ls' = Some text) by apply lookup_insert_eq.
    split; [|split; [exact Hg|]].
    + unfold save_settings_effect, setItem. rewrite Ht, (Hacc text).
      fold ls'. now destruct t.
    + pose proof (parse_stringify s text Hs Ht) as Hp. rewrite Hn in Hp.
      pose proof (stringify_starts s text Hs Ht) as Hstart.
      destruct text as [|c text]; [destruct Hstart|].
      destruct settings_keys_differ as [Hk1 Hk2].
      apply (load_effect_settings ls' st0 c text s); try assumption.
      * unfold getItem, ls'. cbn [entries].
        rewrite lookup_insert_ne by exact Hk1. exact Hl.
      * unfold getItem, ls'. cbn [entries].
        rewrite lookup_insert_ne by exact Hk2. exact Htier.
  - intros Href. unfold save_settings_effect, setItem. now rewrite Ht, (Href text).
Qed.

Lemma settings_reload_witness :
  let fresh := {| entries := ∅; refuses := fun _ _ => false |} in
  exists ls',
    save_settings_effect (settings_value cyberpunk true false) fresh
      (lit "bg-black text-gray-300 theme-studio-dark")
    = Some (ls', lit "bg-black text-gray-300 theme-cyberpunk")
    /\ p_settings (load_effect ls'
                     {| p_libraryItems := VArr []; p_subscriptionTier := free;
                        p_settings := defaultSettings |})
       = settings_value cyberpunk true false.
Proof.
  intros fresh.
  destruct (proj1 (settings_reload cyberpunk true false fresh
                     (lit "bg-black text-gray-300 theme-studio-dark")
                     {| p_libraryItems := VArr []; p_subscriptionTier := free;
                        p_settings := defaultSettings |})
              (fun _ => eq_refl) I I) as (ls' & Hsave & _ & Hload).
  exists ls'. split; [exact Hsave|exact Hload].
Defined.

Lemma exported_parses t a b :
  parse (exported_text (settings_value t a b)) = Some (settings_value t a b).
Proof. destruct t, a, b; vm_compute; reflexivity. Qed.

(** X25: exported settings can be imported again.  The export offers the
    settings as indented JSON under the name
    'olivier-studio-settings.json'; importing that text gives back exactly
    the settings that were exported, with one success toast, whatever the
    settings are at that time.  A file that has no text, is not JSON, or is
    JSON without a truthy [theme] and [notifications], leaves the settings
    as they are and shows one error toast. *)
Theorem settings_export_import (t : Theme) (a b : bool) (xenv : ExportEnv)
    (env : ImportEnv) (current : JsValue) (app : AppState) :
  let s := settings_value t a b in
  (forall name text, offer_download xenv name text = Ok tt) ->
  revokeObjectURL xenv = Ok tt ->
  fst (handleExportSettings xenv s app)
  = Some (lit "olivier-studio-settings.json", exported_text s)
  /\ handleImportSettings env (Some (exported_text s)) (current, app)
     = (s, addToast (import_toast_id env) (lit "Settings imported successfully!")
             success app)
  /\ (forall result,
        match result with
        | None => True
        | Some text =>
            match parse text with
            | None => True
            | Some v =>
                match v with
                | VObj o =>
                    truthy_value (obj_get (lit "theme") o) = false
                    \/ truthy_value (obj_get (lit "notifications") o) = false
                | _ => True
                end
            end
        end ->
        exists msg,
          handleImportSettings env result (current, app)
          = (current, addToast (import_toast_id env) msg error app)).
Proof.
  intros s Hoffer Hrevoke. split; [|split].
  - unfold handleExportSettings. now rewrite Hoffer, Hrevoke.
  - unfold handleImportSettings. subst s. rewrite exported_parses.
    now destruct t, a, b.
  - intros [text|] H; unfold handleImportSettings; cbn [fst snd]; [|eauto].
    destruct (parse text) as [v|]; [|eauto].
    destruct v as [| |x|l|x|items|o]; cbn [read truthy_value]; eauto.
    + cbn [SettingName_str]. destruct H as [-> | H]; [eauto|].
      destruct (truthy_value (obj_get (lit "theme") o)); [|eauto].
      rewrite H. eauto.
Qed.

Lemma settings_export_import_witness :
  let xenv := {| offer_download := fun _ _ => Ok tt; revokeObjectURL := Ok tt;
                 export_toast_id := lit "t1" |} in
  let env := {| syntax_error := fun _ => lit "Unexpected token";
                type_error := lit "Cannot read properties of null";
                import_toast_id := lit "t2" |} in
  fst (handleImportSettings env (Some (exported_text (settings_value crimson false true)))
         (defaultSettings, App.initial))
  = settings_value crimson false true.
Proof.
  intros xenv env.
  destruct (settings_export_import crimson false true xenv env defaultSettings
              App.initial (fun _ _ => eq_refl) eq_refl) as (_ & H & _).
  cbv zeta in H. now rewrite H.
Defined.

End SettingsProperties.
